(** * forge_ds_store: a shallow embedding of the ".DS_Store" forger

    The development follows [src/forge_ds_store.cpp]: the byte cursor
    ([Record], here [Rec]), [Block], [BuddyAllocator], [createAliasFile],
    [getInt], [BTree] and [main].  Unsigned C integers are integers of [Z]
    with their wrap-around written out; byte buffers are lists of bytes
    (integers in [0, 256)); a call that can abort, throw or run into
    undefined behaviour returns a [result]. *)

From Stdlib Require Import ZArith Znumtheory Lia Ascii.
From stdpp Require Import base list strings.

Open Scope Z_scope.

(** ** Machine integers *)

Definition u8 (x : Z) : Z := x mod 2 ^ 8.
Definition u16 (x : Z) : Z := x mod 2 ^ 16.
Definition u32 (x : Z) : Z := x mod 2 ^ 32.

(** ** Outcomes of a call

    [AssertionFailed]: an [assert] of the source does not hold.
    [OutOfRange]: [std::vector::at] throws.
    [Undefined]: the source indexes a vector with the unchecked [operator[]]
    outside its bounds, calls [__builtin_clz] on zero, or hands the null
    pointer of an [fopen] that failed to [fwrite].
    [Exit c]: the source calls [exit(c)] or [main] returns [c <> 0]. *)

Inductive fault : Type :=
  | AssertionFailed
  | OutOfRange
  | Undefined
  | Exit (code : Z).

Inductive result (A : Type) : Type :=
  | Ok (a : A)
  | Fail (e : fault).

Arguments Ok {A} a.
Arguments Fail {A} e.

Definition bind {A B : Type} (m : result A) (k : A -> result B) : result B :=
  match m with
  | Ok a => k a
  | Fail e => Fail e
  end.

Notation "'do' x <- m ; k" := (bind m (fun x => k))
  (at level 10, x name, m at level 100, k at level 200).
Notation "'do' ' p <- m ; k" := (bind m (fun x => let 'p := x in k))
  (at level 10, p pattern, m at level 100, k at level 200).

Definition assert (b : bool) : result unit :=
  if b then Ok tt else Fail AssertionFailed.

(** ** C strings

    A [const char*] is a [string]; the C string it denotes ends at the
    first NUL.  [cstr s] is the list of its bytes, and [strlen] their
    number. *)

Definition byte_of (c : ascii) : Z := Z.of_N (Ascii.N_of_ascii c).

Fixpoint cstr (s : string) : list Z :=
  match s with
  | EmptyString => []
  | String c r => if byte_of c =? 0 then [] else byte_of c :: cstr r
  end.

Definition strlen (s : string) : Z := Z.of_nat (length (cstr s)).

(** A [char] converted to [uint16_t]: [char] is signed on the platforms the
    tool is built for, so bytes from 128 on are sign-extended. *)
Definition char_to_u16 (b : Z) : Z :=
  if b <? 128 then b else u16 (b - 256).

(** ** Record: a byte vector with a write cursor *)

Record Rec : Type := mkRec {
  data : list Z;
  curOffset : Z
}.

(** [Record(size)]: [size] zero bytes, cursor at 0. *)
Definition newRec (size : Z) : Rec :=
  mkRec (replicate (Z.to_nat size) 0) 0.

(** [d[i] = v] through the unchecked [operator[]]. *)
Definition store (d : list Z) (i : Z) (v : Z) : result (list Z) :=
  if i <? Z.of_nat (length d)
  then Ok (<[Z.to_nat i := u8 v]> d)
  else Fail Undefined.

(** The loops of [writeStr] and [writeData]: [d[curOffset + i] = s[i]]
    for [i] from [i] on. *)
Fixpoint storeAll (d : list Z) (cur : Z) (i : Z) (bs : list Z) : result (list Z) :=
  match bs with
  | [] => Ok d
  | b :: bs' =>
      do d' <- store d (u32 (cur + i)) b;
      storeAll d' cur (u32 (i + 1)) bs'
  end.

Definition writeInt8 (v : Z) (r : Rec) : result Rec :=
  do d <- store (data r) (curOffset r) v;
  Ok (mkRec d (u32 (curOffset r + 1))).

Definition writeInt16 (v : Z) (r : Rec) : result Rec :=
  let v := u16 v in
  do d <- store (data r) (u32 (curOffset r + 1)) v;
  do d <- store d (u32 (curOffset r + 0)) (Z.shiftr v 8);
  Ok (mkRec d (u32 (curOffset r + 2))).

Definition writeInt32 (v : Z) (r : Rec) : result Rec :=
  let v := u32 v in
  do d <- store (data r) (u32 (curOffset r + 3)) v;
  do d <- store d (u32 (curOffset r + 2)) (Z.shiftr v 8);
  do d <- store d (u32 (curOffset r + 1)) (Z.shiftr v 16);
  do d <- store d (u32 (curOffset r + 0)) (Z.shiftr v 24);
  Ok (mkRec d (u32 (curOffset r + 4))).

Definition writeStr (s : string) (r : Rec) : result Rec :=
  let len := u32 (strlen s) in
  do d <- storeAll (data r) (curOffset r) 0 (take (Z.to_nat len) (cstr s));
  Ok (mkRec d (u32 (curOffset r + len))).

Definition writeData (bs : list Z) (r : Rec) : result Rec :=
  do d <- storeAll (data r) (curOffset r) 0 bs;
  Ok (mkRec d (u32 (curOffset r + Z.of_nat (length bs)))).

Definition seek (o : Z) (r : Rec) : Rec :=
  mkRec (data r) (u32 o).

(** ** Block: a record with its address in the file *)

Record Block : Type := mkBlock {
  rec : Rec;
  addr : Z
}.

Definition newBlock (addr size : Z) : Block :=
  mkBlock (newRec size) addr.

Definition getAddr (b : Block) : Z := addr b.

(** [b.size()], the length of the byte vector. *)
Definition size (b : Block) : Z := Z.of_nat (length (data (rec b))).

(** A [Record] method called on a [Block]. *)
Definition onRec (f : Rec -> result Rec) (b : Block) : result Block :=
  do r <- f (rec b);
  Ok (mkBlock r (addr b)).

(** ** BuddyAllocator *)

Record BuddyAllocator : Type := mkBuddy {
  blocks : list Block;
  curAddr : Z
}.

Definition powerOf2Ceil (v : Z) : Z :=
  let v := u32 (v - 1) in
  let v := Z.lor v (Z.shiftr v 1) in
  let v := Z.lor v (Z.shiftr v 2) in
  let v := Z.lor v (Z.shiftr v 4) in
  let v := Z.lor v (Z.shiftr v 8) in
  let v := Z.lor v (Z.shiftr v 16) in
  u32 (v + 1).

(** [__builtin_clz] on a 32-bit operand; undefined at 0. *)
Definition builtin_clz (x : Z) : result Z :=
  if x =? 0 then Fail Undefined else Ok (31 - Z.log2 x).

Definition getLog2 (blockSize : Z) : result Z :=
  do z <- builtin_clz blockSize;
  Ok (u32 (31 - z)).

(** [allocateBlock(size)]: the block id returned and the allocator after
    the call. *)
Definition allocateBlock (sz : Z) (a : BuddyAllocator) : Z * BuddyAllocator :=
  let blockSize := powerOf2Ceil sz in
  let bs := blocks a ++ [newBlock (curAddr a) blockSize] in
  (u32 (Z.of_nat (length bs) - 2), mkBuddy bs (u32 (curAddr a + blockSize))).

(** The constructor: the header block, then the metadata block. *)
Definition newBuddy : BuddyAllocator :=
  let a := mkBuddy [] 0 in
  let a := snd (allocateBlock 32 a) in
  let a := snd (allocateBlock 2048 a) in
  a.

(** [blocks.at(i)]. *)
Definition at_ (bs : list Block) (i : Z) : result Block :=
  match bs !! Z.to_nat i with
  | Some b => Ok b
  | None => Fail OutOfRange
  end.

Definition getBlock (blockId : Z) (a : BuddyAllocator) : result Block :=
  do _ <- assert (negb (blockId =? 0xffffffff));
  at_ (blocks a) (u32 (blockId + 1)).

(** A method [f] called on the reference [getBlock(blockId)]: the block is
    changed in place, in the allocator's vector. *)
Definition updBlock (blockId : Z) (f : Rec -> result Rec) (a : BuddyAllocator)
  : result BuddyAllocator :=
  do b <- getBlock blockId a;
  do b' <- onRec f b;
  Ok (mkBuddy (<[Z.to_nat (u32 (blockId + 1)) := b']> (blocks a)) (curAddr a)).

(** A method [f] called on a reference taken earlier with [blocks.at(i)],
    [blocks] being the live vector. *)
Definition updAt (i : nat) (f : Rec -> result Rec) (bs : list Block)
  : result (list Block) :=
  match bs !! i with
  | Some b => do b' <- onRec f b; Ok (<[i := b']> bs)
  | None => Fail OutOfRange
  end.

(** The loop over the 256 slots of the table: slot [i] describes
    [blocks[i + 1]].  [metaData] is the reference [blocks.at(1)]. *)
Fixpoint tableLoop (n : nat) (i : Z) (bs : list Block) : result (list Block) :=
  match n with
  | O => Ok bs
  | S n' =>
      do bs' <-
        (if i <? Z.of_nat (length bs) - 1 then
           match bs !! Z.to_nat (u32 (i + 1)) with
           | Some b =>
               do log2Size <- getLog2 (u32 (size b));
               let addr := getAddr b in
               do _ <- assert (Z.land addr 0x1f =? 0);
               updAt 1 (writeInt32 (Z.lor addr log2Size)) bs
           | None => Fail Undefined
           end
         else updAt 1 (writeInt32 0) bs);
      tableLoop n' (u32 (i + 1)) bs'
  end.

(** The loop over the 32 buckets of the free list; [cur] is the member
    [curAddr], which the loop changes. *)
Fixpoint freeListLoop (n : nat) (i : Z) (cur : Z) (bs : list Block)
  : result (Z * list Block) :=
  match n with
  | O => Ok (cur, bs)
  | S n' =>
      let mask := u32 (Z.shiftl 1 i) in
      do '(cur', bs') <-
        (if negb (Z.land cur mask =? 0) then
           do bs1 <- updAt 1 (writeInt32 1) bs;
           do bs2 <- updAt 1 (writeInt32 cur) bs1;
           Ok (u32 (cur + mask), bs2)
         else
           do bs1 <- updAt 1 (writeInt32 0) bs;
           Ok (cur, bs1));
      freeListLoop n' (u32 (i + 1)) cur' bs'
  end.

Definition createMetaDataBlock (bTreeBlockId : Z) (a : BuddyAllocator)
  : result BuddyAllocator :=
  let bs := blocks a in
  do _ <- at_ bs 1;
  do bs <- updAt 1 (writeInt32 (Z.of_nat (length bs) - 1)) bs;
  do bs <- updAt 1 (writeInt32 0) bs;
  do bs <- tableLoop 256 0 bs;
  do bs <- updAt 1 (writeInt32 1) bs;
  do bs <- updAt 1 (writeInt8 4) bs;
  do bs <- updAt 1 (writeStr "DSDB") bs;
  do bs <- updAt 1 (writeInt32 bTreeBlockId) bs;
  do '(cur, bs) <- freeListLoop 32 0 (curAddr a) bs;
  do _ <- assert (cur =? 0);
  do _ <- at_ bs 0;
  do metaData <- at_ bs 1;
  do bs <- updAt 0 (writeStr "Bud1") bs;
  do bs <- updAt 0 (writeInt32 (getAddr metaData)) bs;
  do bs <- updAt 0 (writeInt32 (size metaData)) bs;
  do bs <- updAt 0 (writeInt32 (getAddr metaData)) bs;
  Ok (mkBuddy bs cur).

(** The bytes in memory of [htons(v)] and [htonl(v)]. *)
Definition be16 (v : Z) : list Z :=
  [u8 (Z.shiftr (u16 v) 8); u8 (u16 v)].
Definition be32 (v : Z) : list Z :=
  [u8 (Z.shiftr (u32 v) 24); u8 (Z.shiftr (u32 v) 16);
   u8 (Z.shiftr (u32 v) 8); u8 (u32 v)].

(** [writeFile(f)]: the stream [f] is the list of the bytes written to it
    so far. *)
Definition writeFile (a : BuddyAllocator) (f : list Z) : list Z :=
  let f := f ++ be32 1 in
  foldl (fun f b => f ++ data (rec b)) f (blocks a).

(** ** Raw memory of a vector *)

(** [d] with the bytes [bs] in the place of those from offset [o] on. *)
Definition splice (d : list Z) (o : nat) (bs : list Z) : list Z :=
  take o d ++ bs ++ drop (o + length bs) d.

(** [memcpy d off bs] copies [bs] to the bytes of [d] from [off] on; it is
    also the assignment of a field of a packed struct laid over [d], [bs]
    being the bytes of the value. *)
Definition memcpy (d : list Z) (off : Z) (bs : list Z) : result (list Z) :=
  if off + Z.of_nat (length bs) <=? Z.of_nat (length d)
  then Ok (splice d (Z.to_nat off) bs)
  else Fail Undefined.

(** Offsets of the fields of the packed struct [AliasFile]. *)
Module AliasFile.
Definition recordSize : Z := 4.
Definition recordVersion : Z := 6.
Definition volumeLenAndName : Z := 10.
Definition volumeSig : Z := 42.
Definition parentInode : Z := 46.
Definition fileLenAndName : Z := 50.
Definition fileInode : Z := 114.
Definition fileFrom : Z := 130.
Definition fileTo : Z := 132.
Definition extraData : Z := 150.
Definition sizeof : Z := 150.
End AliasFile.

Definition createAliasFile (volumeName fileName : string) : result (list Z) :=
  let volumeNameLen := u32 (strlen volumeName) in
  let fileNameLen := u32 (strlen fileName) in
  let fullPathSize := u32 (volumeNameLen + fileNameLen + 1) in
  let fullPathSize :=
    if negb (Z.land fullPathSize 1 =? 0) then u32 (fullPathSize + 1)
    else fullPathSize in
  let recordSize := u32 (AliasFile.sizeof + 8 + fullPathSize) in
  let ret := replicate (Z.to_nat recordSize) 0 in
  let volumeBytes := take (Z.to_nat volumeNameLen) (cstr volumeName) in
  let fileBytes := take (Z.to_nat fileNameLen) (cstr fileName) in
  do ret <- memcpy ret AliasFile.recordSize (be16 recordSize);
  do ret <- memcpy ret AliasFile.recordVersion (be16 2);
  do ret <- store ret AliasFile.volumeLenAndName volumeNameLen;
  do ret <- memcpy ret (AliasFile.volumeLenAndName + 1) volumeBytes;
  do ret <- memcpy ret AliasFile.volumeSig (be16 0x482b);
  do ret <- memcpy ret AliasFile.parentInode (be32 2);
  do ret <- store ret AliasFile.fileLenAndName fileNameLen;
  do ret <- memcpy ret (AliasFile.fileLenAndName + 1) fileBytes;
  do ret <- memcpy ret AliasFile.fileInode [0; 0; 0; 0];
  do ret <- memcpy ret AliasFile.fileFrom (be16 0xffff);
  do ret <- memcpy ret AliasFile.fileTo (be16 0xffff);
  let extraData := AliasFile.extraData in
  do ret <- memcpy ret extraData (be16 2);
  do ret <- memcpy ret (extraData + 2) (be16 fullPathSize);
  do ret <- memcpy ret (extraData + 4) volumeBytes;
  do ret <- store ret (extraData + (4 + volumeNameLen)) 58;
  do ret <- memcpy ret (extraData + (5 + volumeNameLen)) fileBytes;
  do ret <- store ret (extraData + (4 + fullPathSize)) 0xff;
  do ret <- store ret (extraData + (5 + fullPathSize)) 0xff;
  Ok ret.

(** ** getInt

    [strtol(f, &endPtr, 10)] in the C locale, [long] being 64 bits wide:
    the value and the rest of the string at [endPtr]. *)

Definition isspace (b : Z) : bool := (b =? 32) || ((9 <=? b) && (b <=? 13)).
Definition isdigit (b : Z) : bool := (48 <=? b) && (b <=? 57).

Fixpoint skipSpaces (bs : list Z) : list Z :=
  match bs with
  | b :: r => if isspace b then skipSpaces r else bs
  | [] => []
  end.

Fixpoint digits (acc : Z) (bs : list Z) : Z * list Z :=
  match bs with
  | b :: r => if isdigit b then digits (acc * 10 + (b - 48)) r else (acc, bs)
  | [] => (acc, [])
  end.

Definition LONG_MAX : Z := 2 ^ 63 - 1.
Definition LONG_MIN : Z := - 2 ^ 63.

Definition strtol10 (bs : list Z) : Z * list Z :=
  let s := skipSpaces bs in
  let '(neg, s) :=
    match s with
    | 45 :: r => (true, r)
    | 43 :: r => (false, r)
    | _ => (false, s)
    end in
  match s with
  | b :: _ =>
      if isdigit b then
        let '(v, rest) := digits 0 s in
        (if neg : bool then Z.max LONG_MIN (- v) else Z.min LONG_MAX v, rest)
      else (0, bs)
  | [] => (0, bs)
  end.

Definition getInt (f : string) : result Z :=
  let '(v, endPtr) := strtol10 (cstr f) in
  match endPtr with
  | [] => Ok (u32 v)
  | _ :: _ => Fail (Exit 1)
  end.

(** ** BTree

    [buddy] is a reference to the caller's allocator: the state of a
    [BTree] carries the allocator, and the caller goes on with the one it
    finds there. *)

Record BTree : Type := mkBTree {
  buddy : BuddyAllocator;
  entryCount : Z;
  curPageId : Z
}.

(** The loop of [writeFileName]: [b.writeInt16(s[i])]. *)
Fixpoint writeChars (cs : list Z) (r : Rec) : result Rec :=
  match cs with
  | [] => Ok r
  | c :: cs' => do r' <- writeInt16 (char_to_u16 c) r; writeChars cs' r'
  end.

Definition writeFileName (s : string) (t : BTree) : result BuddyAllocator :=
  updBlock (curPageId t)
    (fun b =>
       let nameLen := u32 (strlen s) in
       do b <- writeInt32 nameLen b;
       writeChars (take (Z.to_nat nameLen) (cstr s)) b)
    (buddy t).

Definition newBTree (a : BuddyAllocator) : result BTree :=
  let '(id, a) := allocateBlock 2048 a in
  do a <- updBlock id (fun b => do b <- writeInt32 0 b; writeInt32 0 b) a;
  Ok (mkBTree a 0 id).

Definition addBlob (fileName recordType : string) (bytes : list Z) (t : BTree)
  : result BTree :=
  let t := mkBTree (buddy t) (u32 (entryCount t + 1)) (curPageId t) in
  do a <- writeFileName fileName t;
  do a <- updBlock (curPageId t)
    (fun b =>
       do b <- writeStr recordType b;
       do b <- writeStr "blob" b;
       do b <- writeInt32 (Z.of_nat (length bytes)) b;
       writeData bytes b) a;
  Ok (mkBTree a (entryCount t) (curPageId t)).

Definition addBool (fileName recordType : string) (v : Z) (t : BTree)
  : result BTree :=
  let t := mkBTree (buddy t) (u32 (entryCount t + 1)) (curPageId t) in
  do a <- writeFileName fileName t;
  do a <- updBlock (curPageId t)
    (fun b =>
       do b <- writeStr recordType b;
       do b <- writeStr "bool" b;
       writeInt8 v b) a;
  Ok (mkBTree a (entryCount t) (curPageId t)).

Definition addShort (fileName recordType : string) (v : Z) (t : BTree)
  : result BTree :=
  let v := u16 v in
  let t := mkBTree (buddy t) (u32 (entryCount t + 1)) (curPageId t) in
  do a <- writeFileName fileName t;
  do a <- updBlock (curPageId t)
    (fun b =>
       do b <- writeStr recordType b;
       do b <- writeStr "shor" b;
       writeInt32 v b) a;
  Ok (mkBTree a (entryCount t) (curPageId t)).

(** [finish()]: the page id of the master block and the tree after the
    call. *)
Definition finish (t : BTree) : result (Z * BTree) :=
  do a <- updBlock (curPageId t)
    (fun b => writeInt32 (entryCount t) (seek 4 b)) (buddy t);
  let rootBlockID := curPageId t in
  let '(id, a) := allocateBlock 20 a in
  do a <- updBlock id
    (fun master =>
       do master <- writeInt32 rootBlockID master;
       do master <- writeInt32 0 master;
       do master <- writeInt32 (entryCount t) master;
       do master <- writeInt32 1 master;
       writeInt32 4096 master) a;
  Ok (id, mkBTree a (entryCount t) id).

(** ** main *)

(** The loop over the file entries, [argv[8]] onwards, three at a time. *)
Fixpoint fileLoop (args : list string) (t : BTree) : result BTree :=
  match args with
  | fileName :: x :: y :: rest =>
      do centerX <- getInt x;
      do centerY <- getInt y;
      let ilocRecord := newRec 16 in
      do ilocRecord <- writeInt32 centerX ilocRecord;
      do ilocRecord <- writeInt32 centerY ilocRecord;
      do ilocRecord <- writeInt16 0xffff ilocRecord;
      do ilocRecord <- writeInt16 0xffff ilocRecord;
      do ilocRecord <- writeInt16 0xffff ilocRecord;
      do t <- addBlob fileName "Iloc" (data ilocRecord) t;
      fileLoop rest t
  | _ => Ok t
  end.

(** [main] up to and including [buddy.createMetaDataBlock(bTreeBlockId)]:
    the name of the output file and the allocator to be written to it. *)
Definition forge (argv : list string) : result (string * BuddyAllocator) :=
  let argc := Z.of_nat (length argv) in
  if (argc <? 8) || negb (Z.rem (argc - 8) 3 =? 0) then Fail (Exit 1) else
  match argv with
  | _ :: outFileName :: bgFileName :: bgWidth :: bgHeight :: volumeName
      :: iconSize :: textSize :: files =>
      do aliasFile <- createAliasFile volumeName bgFileName;
      do bTree <- newBTree newBuddy;
      let PctB := replicate 12 0 in
      do PctB <- memcpy PctB 0 (cstr "PctB");
      do PctB <- memcpy PctB 4 (be32 (Z.of_nat (length aliasFile)));
      do bTree <- addBlob "." "BKGD" PctB bTree;
      do bTree <- addBool "." "ICVO" 1 bTree;
      let Fw := replicate 16 0 in
      do Fw <- memcpy Fw 0 (be16 200);
      do Fw <- memcpy Fw 2 (be16 300);
      do h <- getInt bgHeight;
      do Fw <- memcpy Fw 4 (be16 (u32 (200 + h)));
      do w <- getInt bgWidth;
      do Fw <- memcpy Fw 6 (be16 (u32 (300 + w)));
      do Fw <- memcpy Fw 8 (cstr "icnv");
      do bTree <- addBlob "." "fwi0" Fw bTree;
      let ivData := replicate 26 0 in
      do ivData <- memcpy ivData 0 (cstr "icv4");
      do sz <- getInt iconSize;
      do ivData <- memcpy ivData 4 (be16 sz);
      do ivData <- memcpy ivData 6 (cstr "none");
      do ivData <- memcpy ivData 10 (cstr "botm");
      do bTree <- addBlob "." "icvo" ivData bTree;
      do ts <- getInt textSize;
      do bTree <- addShort "." "icvt" ts bTree;
      do bTree <- addBlob "." "pict" aliasFile bTree;
      do bTree <- fileLoop files bTree;
      do '(bTreeBlockId, bTree) <- finish bTree;
      do buddy <- createMetaDataBlock bTreeBlockId (buddy bTree);
      Ok (outFileName, buddy)
  | _ => Fail (Exit 1)
  end.

(** What a program sees of the file system.  A file is a number, as two
    paths can name one file: [openRead p] is the file that [fopen(p, "r")]
    opens and [openWrite p] the file that [fopen(p, "w")] opens, emptied
    or created; [None] stands for the null pointer [fopen] returns when it
    fails.  [fileBytes] are the bytes of each file. *)
Record FileSystem : Type := mkFS {
  openRead : string -> option nat;
  openWrite : string -> option nat;
  fileBytes : nat -> list Z
}.

(** [main]: the file written and its contents.  The result of
    [fopen(outFileName, "w")] is not checked: [writeFile] starts with an
    [fwrite] to it. *)
Definition main (argv : list string) (fs : FileSystem)
  : result (nat * list Z) :=
  do '(outFileName, buddy) <- forge argv;
  match openWrite fs outFileName with
  | None => Fail Undefined
  | Some outFile => Ok (outFile, writeFile buddy [])
  end.

(** ** Sequences of calls *)

(** A call of one of the three add-methods of [BTree]. *)
Inductive add : Type :=
  | AddBlob (fileName recordType : string) (bytes : list Z)
  | AddBool (fileName recordType : string) (v : Z)
  | AddShort (fileName recordType : string) (v : Z).

Definition runAdd (c : add) (t : BTree) : result BTree :=
  match c with
  | AddBlob f ty bytes => addBlob f ty bytes t
  | AddBool f ty v => addBool f ty v t
  | AddShort f ty v => addShort f ty v t
  end.

Fixpoint runAdds (cs : list add) (t : BTree) : result BTree :=
  match cs with
  | [] => Ok t
  | c :: cs' => do t' <- runAdd c t; runAdds cs' t'
  end.

(** User allocations, made one after the other on a constructed
    allocator: the ids returned, in order, and the allocator at the end. *)
Fixpoint allocateAll (sizes : list Z) (a : BuddyAllocator)
  : list Z * BuddyAllocator :=
  match sizes with
  | [] => ([], a)
  | sz :: rest =>
      let '(id, a') := allocateBlock sz a in
      let '(ids, a'') := allocateAll rest a' in
      (id :: ids, a'')
  end.

(** ** Reading the format back

    The readers below are not part of the tool; they follow the layout of
    the format and are what the properties about decoded fields are stated
    with. *)

Definition get8 (d : list Z) (off : Z) : option Z := d !! Z.to_nat off.

Definition get16 (d : list Z) (off : Z) : option Z :=
  match drop (Z.to_nat off) d with
  | b1 :: b0 :: _ => Some (b1 * 2 ^ 8 + b0)
  | _ => None
  end.

Definition get32 (d : list Z) (off : Z) : option Z :=
  match drop (Z.to_nat off) d with
  | b3 :: b2 :: b1 :: b0 :: _ => Some (b3 * 2 ^ 24 + b2 * 2 ^ 16 + b1 * 2 ^ 8 + b0)
  | _ => None
  end.

(** [n] bytes from [off] on. *)
Definition getBytes (d : list Z) (off : Z) (n : Z) : option (list Z) :=
  if off + n <=? Z.of_nat (length d)
  then Some (take (Z.to_nat n) (drop (Z.to_nat off) d))
  else None.

(** An entry of a leaf page. *)
Inductive value : Type :=
  | Blob (bytes : list Z)
  | Bool (b : Z)
  | Short (v : Z).

Record Entry : Type := mkEntry {
  entryName : list Z;
  entryType : list Z;
  entryValue : value
}.

(** [n] UTF-16BE code units from [off] on. *)
Fixpoint readChars (n : nat) (d : list Z) (off : Z) : option (list Z) :=
  match n with
  | O => Some []
  | S n' =>
      c ← get16 d off;
      cs ← readChars n' d (off + 2);
      Some (c :: cs)
  end.

(** The entry at [off] and the offset of the next one. *)
Definition readEntry (d : list Z) (off : Z) : option (Entry * Z) :=
  nameLen ← get32 d off;
  name ← readChars (Z.to_nat nameLen) d (off + 4);
  let off := off + 4 + 2 * nameLen in
  ty ← getBytes d off 4;
  tag ← getBytes d (off + 4) 4;
  let off := off + 8 in
  if decide (tag = cstr "blob") then
    len ← get32 d off;
    bytes ← getBytes d (off + 4) len;
    Some (mkEntry name ty (Blob bytes), off + 4 + len)
  else if decide (tag = cstr "bool") then
    b ← get8 d off;
    Some (mkEntry name ty (Bool b), off + 1)
  else if decide (tag = cstr "shor") then
    v ← get32 d off;
    Some (mkEntry name ty (Short v), off + 4)
  else None.

Fixpoint readEntries (n : nat) (d : list Z) (off : Z) : option (list Entry) :=
  match n with
  | O => Some []
  | S n' =>
      '(e, off') ← readEntry d off;
      es ← readEntries n' d off';
      Some (e :: es)
  end.

(** The entries of a leaf page: a zero word, the entry count, the
    entries. *)
Definition readLeaf (d : list Z) : option (list Entry) :=
  flag ← get32 d 0;
  if decide (flag = 0) then
    count ← get32 d 4;
    readEntries (Z.to_nat count) d 8
  else None.

(** The entry an add-method is to append. *)
Definition codeUnits (s : string) : list Z := char_to_u16 <$> cstr s.

Definition entryOf (c : add) : Entry :=
  match c with
  | AddBlob f ty bytes => mkEntry (codeUnits f) (cstr ty) (Blob bytes)
  | AddBool f ty v => mkEntry (codeUnits f) (cstr ty) (Bool (u8 v))
  | AddShort f ty v => mkEntry (codeUnits f) (cstr ty) (Short (u16 v))
  end.

(** The table of the metadata block: the count at offset 0, entry [i] at
    offset [8 + 4 * i], holding [address | log2(size)]. *)
Definition decodeSlot (e : Z) : Z * Z :=
  (Z.land e (Z.lnot 0x1f), 2 ^ Z.land e 0x1f).

Fixpoint readSlots (n : nat) (d : list Z) (off : Z) : option (list (Z * Z)) :=
  match n with
  | O => Some []
  | S n' =>
      e ← get32 d off;
      es ← readSlots n' d (off + 4);
      Some (decodeSlot e :: es)
  end.

Definition decodeTable (d : list Z) : option (list (Z * Z)) :=
  count ← get32 d 0;
  readSlots (Z.to_nat count) d 8.

(** The extra data of an alias record, from offset 150 on: the tag, the
    length and that many bytes of data. *)
Definition readExtra (d : list Z) : option (Z * Z * list Z) :=
  tag ← get16 d AliasFile.extraData;
  len ← get16 d (AliasFile.extraData + 2);
  bytes ← getBytes d (AliasFile.extraData + 4) len;
  Some (tag, len, bytes).

(** A path read from extra data of tag 2: the bytes up to the filler. *)
Fixpoint upToNul (bs : list Z) : list Z :=
  match bs with
  | [] => []
  | b :: r => if b =? 0 then [] else b :: upToNul r
  end.

Definition decodeTrailer (d : list Z) : option (list Z) :=
  '(tag, _, bytes) ← readExtra d;
  if decide (tag = 2) then Some (upToNul bytes) else None.

(** ** Notions the properties are stated with *)

(** [p] is the smallest power of two that is at least [n]. *)
Definition isPow2Ceil (n p : Z) : Prop :=
  (exists k, 0 <= k /\ p = 2 ^ k) /\ n <= p /\
  forall j, 0 <= j -> n <= 2 ^ j -> p <= 2 ^ j.

(** Of the bits of [x], those from [k] on are clear and the [m] below [k]
    are set. *)
Definition filled (k m x : Z) : Prop :=
  0 <= x /\
  (forall i, k <= i -> Z.testbit x i = false) /\
  (forall i, 0 <= i -> k - m <= i < k -> Z.testbit x i = true).

Definition isByte (b : Z) : Prop := 0 <= b < 256.

(** The record [r] after the bytes [bs] were written at its cursor. *)
Definition put (bs : list Z) (r : Rec) : Rec :=
  mkRec (splice (data r) (Z.to_nat (curOffset r)) bs)
        (curOffset r + Z.of_nat (length bs)).

(** There are [n] bytes from the cursor of [r] to the end of its vector. *)
Definition room (n : Z) (r : Rec) : Prop :=
  0 <= curOffset r /\
  curOffset r + n <= Z.of_nat (length (data r)) /\
  Z.of_nat (length (data r)) < 2 ^ 32.

(** The buckets of the free list as the loop of [createMetaDataBlock]
    fills them from bucket [i] on, [cur] being the bump pointer: the
    address of the entry of each bucket, if it has one, and the bump
    pointer at the end. *)
Fixpoint buckets (n : nat) (i : Z) (cur : Z) : list (option Z) * Z :=
  match n with
  | O => ([], cur)
  | S n' =>
      if Z.testbit cur i then
        let '(l, c) := buckets n' (i + 1) (u32 (cur + 2 ^ i)) in
        (Some cur :: l, c)
      else
        let '(l, c) := buckets n' (i + 1) cur in
        (None :: l, c)
  end.

(** What is written for a bucket: the number of its entries, and the
    address of the entry if there is one. *)
Definition bucketBytes (b : option Z) : list Z :=
  match b with
  | Some a => be32 1 ++ be32 a
  | None => be32 0
  end.

(** The free space above the bump pointer [a], in an address space of 32
    bits. *)
Definition freeSpace (a : Z) : Z := u32 (2 ^ 32 - a).

(** The bump pointer when the loop comes to bucket [i], having started
    from [a]. *)
Definition curAt (a i : Z) : Z := u32 (a + freeSpace a mod 2 ^ i).

(** The cursor of [r] is within its vector, whose length fits 32 bits
    with room to spare. *)
Definition rinv (r : Rec) : Prop :=
  0 <= curOffset r <= Z.of_nat (length (data r)) /\
  Z.of_nat (length (data r)) <= 2 ^ 31.

(** [f] writes the bytes [bs] at the cursor: it does so when there is
    room for them, and succeeds in that case only. *)
Definition writer (f : Rec -> result Rec) (bs : list Z) : Prop :=
  forall r, rinv r ->
    (room (Z.of_nat (length bs)) r -> f r = Ok (put bs r)) /\
    (forall r', f r = Ok r' -> room (Z.of_nat (length bs)) r).

(** The bytes [writeStr] writes for [s]. *)
Definition strBytes (s : string) : list Z :=
  take (Z.to_nat (u32 (strlen s))) (cstr s).

(** The bytes [writeFileName] writes for [s]. *)
Definition nameBytes (s : string) : list Z :=
  be32 (u32 (strlen s)) ++ (strBytes s ≫= fun c => be16 (char_to_u16 c)).

(** The bytes an add-method writes. *)
Definition entryBytes (c : add) : list Z :=
  match c with
  | AddBlob f ty bytes =>
      nameBytes f ++ strBytes ty ++ cstr "blob"
        ++ be32 (Z.of_nat (length bytes)) ++ (u8 <$> bytes)
  | AddBool f ty v =>
      nameBytes f ++ strBytes ty ++ cstr "bool" ++ [u8 v]
  | AddShort f ty v =>
      nameBytes f ++ strBytes ty ++ cstr "shor" ++ be32 (u16 v)
  end.

(** What an add-method does to the page, the two references it takes to
    the page being one. *)
Definition nameWriter (s : string) (b : Rec) : result Rec :=
  let nameLen := u32 (strlen s) in
  do b <- writeInt32 nameLen b;
  writeChars (take (Z.to_nat nameLen) (cstr s)) b.

Definition addWriter (c : add) (b : Rec) : result Rec :=
  do b <- nameWriter (match c with
                      | AddBlob f _ _ | AddBool f _ _ | AddShort f _ _ => f
                      end) b;
  match c with
  | AddBlob _ ty bytes =>
      do b <- writeStr ty b;
      do b <- writeStr "blob" b;
      do b <- writeInt32 (Z.of_nat (length bytes)) b;
      writeData bytes b
  | AddBool _ ty v =>
      do b <- writeStr ty b;
      do b <- writeStr "bool" b;
      writeInt8 v b
  | AddShort _ ty v =>
      do b <- writeStr ty b;
      do b <- writeStr "shor" b;
      writeInt32 (u16 v) b
  end.

(** The page of a tree, [blocks.at(curPageId + 1)]. *)
Definition pageIdx (t : BTree) : nat := Z.to_nat (curPageId t + 1).

(** The tree [t] with the record [r] for the record of its page, after one
    more entry. *)
Definition withPage (t : BTree) (b : Block) (r : Rec) : BTree :=
  mkBTree (mkBuddy (<[pageIdx t := mkBlock r (addr b)]> (blocks (buddy t)))
                   (curAddr (buddy t)))
          (u32 (entryCount t + 1)) (curPageId t).

(** [b] is the page of the tree [t]. *)
Definition pageOf (t : BTree) (b : Block) : Prop :=
  0 <= curPageId t < 2 ^ 32 - 1 /\
  blocks (buddy t) !! pageIdx t = Some b /\
  rinv (rec b) /\
  0 <= entryCount t < 2 ^ 32.

(** The tree [t], of page [b], after the calls [cs]. *)
Definition afterAdds (cs : list add) (t : BTree) (b : Block) : BTree :=
  mkBTree
    (mkBuddy (<[pageIdx t := mkBlock (put (cs ≫= entryBytes) (rec b)) (addr b)]>
                (blocks (buddy t)))
             (curAddr (buddy t)))
    (u32 (entryCount t + Z.of_nat (length cs))) (curPageId t).

(** The calls whose entries can be read back: the name is not longer than
    32 bits can tell, the record type has four characters, and a blob is a
    vector of bytes, of a length that fits 32 bits. *)
Definition wfAdd (c : add) : Prop :=
  match c with
  | AddBlob f ty bytes =>
      strlen f < 2 ^ 32 /\ strlen ty = 4 /\
      Forall isByte bytes /\ Z.of_nat (length bytes) < 2 ^ 32
  | AddBool f ty _ | AddShort f ty _ =>
      strlen f < 2 ^ 32 /\ strlen ty = 4
  end.

(** The bytes [finish] writes into the master block. *)
Definition masterBytes (rootBlockID entryCount : Z) : list Z :=
  be32 rootBlockID ++ be32 0 ++ be32 entryCount ++ be32 1 ++ be32 4096.

(** The tree [t], of page [b], after [finish]. *)
Definition afterFinish (t : BTree) (b : Block) : BTree :=
  let master := Z.of_nat (length (blocks (buddy t))) - 1 in
  mkBTree
    (mkBuddy
       (<[pageIdx t := mkBlock (put (be32 (entryCount t)) (seek 4 (rec b)))
                               (addr b)]> (blocks (buddy t))
        ++ [mkBlock (put (masterBytes (curPageId t) (entryCount t)) (newRec 32))
                    (curAddr (buddy t))])
       (u32 (curAddr (buddy t) + 32)))
    (entryCount t) master.

(** The tree on the allocator [a] when the constructor of [BTree]
    returns, and its page. *)
Definition newPage (a : BuddyAllocator) : Block :=
  mkBlock (put (be32 0 ++ be32 0) (newRec 2048)) (curAddr a).

Definition newTree (a : BuddyAllocator) : BTree :=
  mkBTree (mkBuddy (blocks a ++ [newPage a]) (u32 (curAddr a + 2048)))
          0 (Z.of_nat (length (blocks a)) - 1).

(** The bytes the loop over the slots of the table writes for [n]
    slots, [bs] being the blocks the slots describe, while there are
    any. *)
Fixpoint tableFrom (n : nat) (bs : list Block) : list Z :=
  match n with
  | O => []
  | S n' =>
      match bs with
      | b :: bs' =>
          be32 (Z.lor (getAddr b) (Z.log2 (size b))) ++ tableFrom n' bs'
      | [] => be32 0 ++ tableFrom n' []
      end
  end.

(** What [createMetaDataBlock] writes into the metadata block, [bs] being
    the blocks but the header and [cur] the bump pointer; and into the
    header block, [metaData] being the metadata block. *)
Definition metaBytes (bTreeBlockId : Z) (bs : list Block) (cur : Z) : list Z :=
  be32 (Z.of_nat (length bs)) ++ be32 0 ++ tableFrom 256 bs
    ++ be32 1 ++ [4] ++ cstr "DSDB" ++ be32 bTreeBlockId
    ++ ((buckets 32 0 cur).1 ≫= bucketBytes).

Definition headerBytes (metaData : Block) : list Z :=
  cstr "Bud1" ++ be32 (getAddr metaData) ++ be32 (size metaData)
    ++ be32 (getAddr metaData).

(** A block the table can describe: its size is not zero and fits 32
    bits, and the five low bits of its address are clear. *)
Definition slotOk (b : Block) : Prop :=
  0 < size b < 2 ^ 32 /\ Z.land (getAddr b) 0x1f = 0.

(** A block as [allocateBlock] creates them for valid requests: the
    address fits 32 bits and the size is a power of two, at most 2^31. *)
Definition blockShape (b : Block) : Prop :=
  0 <= getAddr b < 2 ^ 32 /\ exists k, 0 <= k <= 31 /\ size b = 2 ^ k.

(** The address and the size of a block. *)
Definition extent (b : Block) : Z * Z := (getAddr b, size b).

(** The length of the path [volumeName:fileName], and that length made
    even, as [createAliasFile] computes them. *)
Definition pathLen (volumeName fileName : string) : Z :=
  strlen volumeName + strlen fileName + 1.

Definition paddedLen (volumeName fileName : string) : Z :=
  let n := pathLen volumeName fileName in
  if Z.odd n then n + 1 else n.

(** The bytes of the path, and the filler that follows them. *)
Definition pathBytes (volumeName fileName : string) : list Z :=
  cstr volumeName ++ [58] ++ cstr fileName.

Definition filler (volumeName fileName : string) : list Z :=
  if Z.odd (pathLen volumeName fileName) then [0] else [].

(** The state of the vector while the record is built: its length, its
    bytes being bytes, and its bytes from offset 150 on. *)
Definition building (d : list Z) (n : nat) (T : list Z) : Prop :=
  length d = (150 + n)%nat /\ Forall isByte d /\ drop 150 d = T.

(** ** Further notions *)

(** [f] writes exactly the bytes [bs] at the cursor when the vector has
    room for them, and runs into undefined behaviour otherwise: the vector
    is never resized. *)
Definition writes (f : Rec -> result Rec) (bs : list Z) : Prop :=
  forall r, rinv r ->
    (room (Z.of_nat (length bs)) r /\ f r = Ok (put bs r)) \/
    (~ room (Z.of_nat (length bs)) r /\ f r = Fail Undefined).

(** The call that took the record [r] to [r'] advanced the cursor by [n]
    and changed no byte outside the [n] bytes at the cursor of [r]; the
    vector kept its length. *)
Definition overwrote (n : Z) (r r' : Rec) : Prop :=
  curOffset r' = curOffset r + n /\
  length (data r') = length (data r) /\
  forall i : nat,
    Z.of_nat i < curOffset r \/ curOffset r + n <= Z.of_nat i ->
    data r' !! i = data r !! i.

(** The sizes of the blocks [allocateBlock] creates for the requests
    [sizes], added up. *)
Definition claimed (sizes : list Z) : Z :=
  foldr (fun n s => powerOf2Ceil n + s) 0 sizes.

(** The sizes of the blocks [bs], added up. *)
Definition totalSize (bs : list Block) : Z :=
  foldr (fun b s => size b + s) 0 bs.

(** The blocks [bs] lie one behind the other from the address [start]
    on. *)
Fixpoint contiguous (start : Z) (bs : list Block) : Prop :=
  match bs with
  | [] => True
  | b :: bs' => getAddr b = start /\ contiguous (start + size b) bs'
  end.

(** The bytes of the blocks [bs], in order. *)
Definition allBytes (bs : list Block) : list Z :=
  bs ≫= fun b => data (rec b).

(** The number the decimal digits [ds] (characters ['0'] to ['9']) denote,
    and the value [strtol] gives it behind the sign [sg] (nothing, [+] or
    [-]): the number or its opposite, kept within the range of [long]. *)
Definition decimal (ds : list Z) : Z :=
  foldl (fun acc d => acc * 10 + (d - 48)) 0 ds.

Definition isSign (sg : list Z) : Prop := sg = [] \/ sg = [43] \/ sg = [45].

Definition signed (sg : list Z) (v : Z) : Z :=
  if decide (sg = [45]) then Z.max LONG_MIN (- v) else Z.min LONG_MAX v.

(** A numeral: white space, a sign, and one decimal digit at least. *)
Definition numeral (bs ws sg ds : list Z) : Prop :=
  bs = ws ++ sg ++ ds /\
  Forall (fun b => isspace b = true) ws /\ isSign sg /\
  ds <> [] /\ Forall (fun b => isdigit b = true) ds.

(** The state of the vector while the record is built, seen from its
    fixed part: its length, and its first 150 bytes. *)
Definition heading (d : list Z) (n : nat) (H : list Z) : Prop :=
  length d = (150 + n)%nat /\ take 150 d = H.

(** The records [main] forges for the background, the window and the icon
    view, and for the position of a file. *)
Definition pctB (aliasLen : Z) : list Z :=
  cstr "PctB" ++ be32 aliasLen ++ replicate 4 0.

Definition finderWindow (bgWidth bgHeight : Z) : list Z :=
  be16 200 ++ be16 300 ++ be16 (u32 (200 + bgHeight))
    ++ be16 (u32 (300 + bgWidth)) ++ cstr "icnv" ++ replicate 4 0.

Definition iconView (iconSize : Z) : list Z :=
  cstr "icv4" ++ be16 iconSize ++ cstr "none" ++ cstr "botm" ++ replicate 12 0.

Definition iloc (centerX centerY : Z) : list Z :=
  be32 centerX ++ be32 centerY ++ [255; 255; 255; 255; 255; 255] ++ [0; 0].

(** The six calls [main] makes before it comes to the file entries. *)
Definition fixedAdds (aliasFile : list Z) (bgWidth bgHeight iconSize textSize : Z)
  : list add :=
  [AddBlob "." "BKGD" (pctB (Z.of_nat (length aliasFile)));
   AddBool "." "ICVO" 1;
   AddBlob "." "fwi0" (finderWindow bgWidth bgHeight);
   AddBlob "." "icvo" (iconView iconSize);
   AddShort "." "icvt" textSize;
   AddBlob "." "pict" aliasFile].

(** The calls the loop over the file entries makes, when the coordinates
    are integers. *)
Fixpoint fileAdds (args : list string) : option (list add) :=
  match args with
  | fileName :: x :: y :: rest =>
      match getInt x, getInt y with
      | Ok centerX, Ok centerY =>
          cs ← fileAdds rest;
          Some (AddBlob fileName "Iloc" (iloc centerX centerY) :: cs)
      | _, _ => None
      end
  | _ => Some []
  end.

(** The page and the master block of the tree at the end of [main], the
    calls [cs] having been made, and the allocator [main] writes out. *)
Definition leafBlock (cs : list add) : Block :=
  mkBlock (put (be32 (Z.of_nat (length cs)))
               (seek 4 (put (cs ≫= entryBytes) (rec (newPage newBuddy)))))
          2080.

Definition masterBlock (n : Z) : Block :=
  mkBlock (put (masterBytes 1 n) (newRec 32)) 4128.

Definition forged (cs : list add) : BuddyAllocator :=
  let leaf := leafBlock cs in
  let master := masterBlock (Z.of_nat (length cs)) in
  mkBuddy
    [mkBlock (put (headerBytes (newBlock 32 2048)) (newRec 32)) 0;
     mkBlock (put (metaBytes 2 [newBlock 32 2048; leaf; master] 4160)
                  (newRec 2048)) 32;
     leaf; master] 0.

(** * forge_icon_resource: the resource fork forger

    The second tool, [src/forge_icon_resource.cpp], wraps an [icns] file
    into a resource fork.  Its [Record] starts empty and grows as it is
    written to.  The files are those of a [FileSystem]; what [fwrite]
    writes is in the file at once, the buffers of the C library are not
    modelled. *)

Module Icon.

(** [Record()]: the empty vector, cursor at 0. *)
Definition newRecord : Rec := mkRec [] 0.

(** [d.resize(n)]: the first [n] bytes, and zeros up to [n]. *)
Definition resize (d : list Z) (n : Z) : list Z :=
  take (Z.to_nat n) d ++ replicate (Z.to_nat n - length d) 0.

(** [if(curOffset + n >= d.size()) d.resize(curOffset + n)]. *)
Definition reserve (n : Z) (r : Rec) : list Z :=
  let e := u32 (curOffset r + n) in
  if Z.of_nat (length (data r)) <=? e then resize (data r) e else data r.

Definition writeInt8 (v : Z) (r : Rec) : result Rec :=
  let d := reserve 1 r in
  do d <- store d (u32 (curOffset r + 0)) v;
  Ok (mkRec d (u32 (curOffset r + 1))).

Definition writeInt16 (v : Z) (r : Rec) : result Rec :=
  let v := u16 v in
  let d := reserve 2 r in
  do d <- store d (u32 (curOffset r + 1)) v;
  do d <- store d (u32 (curOffset r + 0)) (Z.shiftr v 8);
  Ok (mkRec d (u32 (curOffset r + 2))).

Definition writeInt32 (v : Z) (r : Rec) : result Rec :=
  let v := u32 v in
  let d := reserve 4 r in
  do d <- store d (u32 (curOffset r + 3)) v;
  do d <- store d (u32 (curOffset r + 2)) (Z.shiftr v 8);
  do d <- store d (u32 (curOffset r + 1)) (Z.shiftr v 16);
  do d <- store d (u32 (curOffset r + 0)) (Z.shiftr v 24);
  Ok (mkRec d (u32 (curOffset r + 4))).

Definition writeStr (s : string) (r : Rec) : result Rec :=
  let strLen := u32 (strlen s) in
  let d := reserve strLen r in
  do d <- storeAll d (curOffset r) 0 (take (Z.to_nat strLen) (cstr s));
  Ok (mkRec d (u32 (curOffset r + strLen))).

(** [resMap.size()], as the [uint32_t] the source keeps it in. *)
Definition size (r : Rec) : Z := u32 (Z.of_nat (length (data r))).

(** The output stream: the bytes of the file and the position. *)
Record Stream : Type := mkStream {
  contents : list Z;
  pos : Z
}.

(** [fopen(name, "w")]: the file opened, which is empty then, or nothing
    for the null pointer. *)
Definition fopen_w (fs : FileSystem) (name : string) : option (nat * Stream) :=
  match openWrite fs name with
  | Some j => Some (j, mkStream [] 0)
  | None => None
  end.

(** [fseek(f, o, SEEK_SET)]. *)
Definition fseek (o : Z) (f : Stream) : Stream := mkStream (contents f) o.

(** [fwrite(bs, 1, n, f)]: the bytes go to the position, over what is
    there; a gap between the end of the file and the position reads as
    zeros.  Nothing happens for no bytes. *)
Definition fwrite (bs : list Z) (f : Stream) : Stream :=
  match bs with
  | [] => f
  | _ :: _ =>
      let c := contents f in
      let p := Z.to_nat (pos f) in
      mkStream (take p c ++ replicate (p - length c) 0 ++ bs
                  ++ drop (p + length bs) c)
               (pos f + Z.of_nat (length bs))
  end.

(** The bytes of the file [i] while the file [j] is open for writing
    through [out]: those written so far if it is that file, its own
    otherwise. *)
Definition bytesNow (fs : FileSystem) (j : nat) (out : Stream) (i : nat)
  : list Z :=
  if Nat.eqb i j then contents out else fileBytes fs i.

(** [fread(buf, 1, n, f)], [f] being at the position [p] of a file of the
    bytes [d]: the bytes read. *)
Definition fread (n : nat) (d : list Z) (p : Z) : list Z :=
  take n (drop (Z.to_nat p) d).

(** The loop [do { r = fread(buf, 1, 1024, f); fwrite(buf, 1, r, outFile); }
    while(r == 1024)], [f] being at the position [p] of the file [i] and
    [outFile] open on the file [j]; [fuel] bounds the number of the
    rounds. *)
Fixpoint copy (fuel : nat) (fs : FileSystem) (i : nat) (p : Z) (j : nat)
    (out : Stream) : option Stream :=
  match fuel with
  | O => None
  | S fuel' =>
      let buf := fread 1024 (bytesNow fs j out i) p in
      let out := fwrite buf out in
      if Z.of_nat (length buf) =? 1024
      then copy fuel' fs i (p + 1024) j out
      else Some out
  end.

(** The same loop when the input is another file than the output, [f]
    being the bytes of the input from its position on. *)
Fixpoint copyLoop (fuel : nat) (f : list Z) (out : Stream) : option Stream :=
  match fuel with
  | O => None
  | S fuel' =>
      let buf := take 1024 f in
      let out := fwrite buf out in
      if Z.of_nat (length buf) =? 1024
      then copyLoop fuel' (drop 1024 f) out
      else Some out
  end.

(** [main]: the file written and its bytes.  The length of the input is
    taken before the output is opened; the result of
    [fopen(outFileName, "w")] is not checked, and the first [fwrite] is
    given it. *)
Definition main (argv : list string) (fs : FileSystem)
  : result (nat * list Z) :=
  if Z.of_nat (length argv) <? 3 then Fail (Exit 1) else
  match argv with
  | _ :: outFileName :: fileName :: _ =>
      match openRead fs fileName with
      | None => Fail (Exit 1)
      | Some f =>
          let resMap := newRecord in
          let fileLen := u32 (Z.of_nat (length (fileBytes fs f))) in
          let resLen := u32 (fileLen + 4) in
          let startOffset := 0x100 in
          do resMap <- writeInt32 startOffset resMap;
          do resMap <- writeInt32 (u32 (startOffset + resLen)) resMap;
          do resMap <- writeInt32 resLen resMap;
          let mapSizePos := size resMap in
          do resMap <- writeInt32 0 resMap;
          do resMap <- writeInt32 0 resMap;
          do resMap <- writeInt16 0xaa09 resMap;
          do resMap <- writeInt16 0 resMap;
          let mapToTypeListPos := size resMap in
          do resMap <- writeInt16 0 resMap;
          do resMap <- writeInt16 0 resMap;
          let typeListStartPos := size resMap in
          do resMap <- writeInt16 0 resMap;
          do resMap <- writeStr "icns" resMap;
          do resMap <- writeInt16 0 resMap;
          let typeListToResListPos := size resMap in
          do resMap <- writeInt16 0 resMap;
          let resListStartPos := size resMap in
          do resMap <- writeInt16 0xbfb9 resMap;
          do resMap <- writeInt16 0xffff resMap;
          do resMap <- writeInt32 0 resMap;
          do resMap <- writeInt32 0xb0000000 resMap;
          let resMap := seek mapSizePos resMap in
          do resMap <- writeInt32 (size resMap) resMap;
          let resMap := seek mapToTypeListPos resMap in
          do resMap <- writeInt16 typeListStartPos resMap;
          do resMap <- writeInt16 (size resMap) resMap;
          let resMap := seek typeListToResListPos resMap in
          do resMap <- writeInt16 (u32 (resListStartPos - typeListStartPos)) resMap;
          match fopen_w fs outFileName with
          | None => Fail Undefined
          | Some (out, outFile) =>
              do header <- (if 16 <=? Z.of_nat (length (data resMap))
                            then Ok (take 16 (data resMap)) else Fail Undefined);
              let outFile := fwrite header outFile in
              let outFile := fseek startOffset outFile in
              let outFile := fwrite (be32 fileLen) outFile in
              match copy (S (length (fileBytes fs f))) fs f 0 out outFile with
              | None => Fail Undefined
              | Some outFile =>
                  let outFile := fwrite (data resMap) outFile in
                  Ok (out, contents outFile)
              end
          end
      end
  | _ => Fail (Exit 1)
  end.

End Icon.

(** The resource map [Icon.main] builds for an input of [fileLen] bytes:
    the offset of the resource, the offset of the map, the length of the
    resource and the length of the map, which are also the header of the
    file; then the map proper, with the one type [icns] and its one
    resource. *)
Definition resourceMap (fileLen : Z) : list Z :=
  be32 0x100 ++ be32 (0x100 + (fileLen + 4)) ++ be32 (fileLen + 4) ++ be32 50
    ++ be32 0 ++ be16 0xaa09 ++ be16 0 ++ be16 28 ++ be16 50
    ++ be16 0 ++ cstr "icns" ++ be16 0 ++ be16 10
    ++ be16 0xbfb9 ++ be16 0xffff ++ be32 0 ++ be32 0xb0000000.

(** The call that took the record [r] to [r'] put the bytes [bs] at the
    cursor of [r], over the bytes that were there and past the end of the
    vector if need be, and advanced the cursor. *)
Definition grew (bs : list Z) (r r' : Rec) : Prop :=
  data r' = splice (data r) (Z.to_nat (curOffset r)) bs /\
  curOffset r' = curOffset r + Z.of_nat (length bs) /\
  length (data r') =
    (length (data r) `max` (Z.to_nat (curOffset r) + length bs))%nat.

(** * Properties *)

(** ** Machine integers *)

Lemma u32_small x : 0 <= x < 2 ^ 32 -> u32 x = x.
Proof. apply Z.mod_small. Qed.

(** ** powerOf2Ceil *)

Lemma filled_step k m x :
  0 < m -> filled k m x -> filled k (2 * m) (Z.lor x (Z.shiftr x m)).
Proof.
  intros Hm (Hx & Hhi & Hlo). repeat split.
  - apply Z.lor_nonneg. split; [done | by apply Z.shiftr_nonneg].
  - intros i Hi. destruct (decide (0 <= i)).
    + rewrite Z.lor_spec, Z.shiftr_spec by lia. rewrite !Hhi by lia. done.
    + apply Z.testbit_neg_r. lia.
  - intros i Hi0 Hi. rewrite Z.lor_spec, Z.shiftr_spec by lia.
    destruct (decide (k - m <= i)).
    + rewrite (Hlo i) by lia. done.
    + rewrite (Hlo (i + m)) by lia. apply orb_true_r.
Qed.

Lemma filled_init v : 0 < v -> filled (Z.log2 v + 1) 1 v.
Proof.
  intros Hv. repeat split; [lia | |].
  - intros i Hi. apply Z.bits_above_log2; lia.
  - intros i _ Hi. replace i with (Z.log2 v) by lia. by apply Z.bit_log2.
Qed.

Lemma filled_ones k x : 0 <= k <= 32 -> filled k 32 x -> x = Z.ones k.
Proof.
  intros Hk (Hx & Hhi & Hlo). apply Z.bits_inj'. intros i Hi.
  destruct (decide (i < k)).
  - rewrite Z.ones_spec_low by lia. apply Hlo; lia.
  - rewrite Z.ones_spec_high by lia. apply Hhi; lia.
Qed.

Lemma powerOf2Ceil_pos v :
  0 < v < 2 ^ 31 ->
  powerOf2Ceil (v + 1) = 2 ^ (Z.log2 v + 1).
Proof.
  intros Hv. unfold powerOf2Ceil.
  assert (Hk : 0 <= Z.log2 v < 31).
  { split; [apply Z.log2_nonneg |]. apply Z.log2_lt_pow2; lia. }
  replace (u32 (v + 1 - 1)) with v by (unfold u32; rewrite Z.mod_small; lia).
  pose proof (filled_init v ltac:(lia)) as H.
  apply (filled_step _ 1) in H; [| lia].
  apply (filled_step _ 2) in H; [| lia].
  apply (filled_step _ 4) in H; [| lia].
  apply (filled_step _ 8) in H; [| lia].
  apply (filled_step _ 16) in H; [| lia].
  apply filled_ones in H; [| lia]. cbv zeta. rewrite H, Z.ones_equiv.
  replace (Z.pred (2 ^ (Z.log2 v + 1)) + 1) with (2 ^ (Z.log2 v + 1)) by lia.
  unfold u32. apply Z.mod_small. split; [lia |].
  apply Z.pow_lt_mono_r; lia.
Qed.

Lemma powerOf2Ceil_spec n :
  1 <= n <= 2 ^ 31 -> isPow2Ceil n (powerOf2Ceil n) /\ 1 <= powerOf2Ceil n <= 2 ^ 31.
Proof.
  intros Hn. destruct (decide (n = 1)) as [-> | Hne].
  - change (powerOf2Ceil 1) with 1. split; [| lia]. repeat split.
    + exists 0. lia.
    + lia.
    + intros j Hj _. lia.
  - set (v := n - 1). assert (Hv : 0 < v < 2 ^ 31) by lia.
    replace (powerOf2Ceil n) with (2 ^ (Z.log2 v + 1))
      by (rewrite <- powerOf2Ceil_pos by lia; f_equal; lia).
    pose proof (Z.log2_spec v ltac:(lia)) as [Hl Hu].
    assert (Hk : 0 <= Z.log2 v < 31).
    { split; [apply Z.log2_nonneg |]. apply Z.log2_lt_pow2; lia. }
    replace (Z.succ (Z.log2 v)) with (Z.log2 v + 1) in Hu by lia.
    split; [repeat split |].
    + exists (Z.log2 v + 1). split; [lia | done].
    + lia.
    + intros j Hj Hnj. apply Z.pow_le_mono_r; [lia |].
      assert (Z.log2 v < j); [| lia].
      apply (Z.pow_lt_mono_r_iff 2); lia.
    + split; [lia |]. apply (Z.pow_le_mono_r 2 _ 31); lia.
Qed.

(** ** Writing into a vector *)

Section splice.
Implicit Types (d bs : list Z) (o : nat).

Lemma splice_app A X C bs :
  length X = length bs -> splice (A ++ X ++ C) (length A) bs = A ++ bs ++ C.
Proof.
  intros HX. unfold splice. rewrite take_app_length. do 2 f_equal.
  rewrite <- HX, drop_app_add, drop_app_length. done.
Qed.

Lemma split3 d o (n : nat) :
  (o + n <= length d)%nat ->
  exists A X C, d = A ++ X ++ C /\ length A = o /\ length X = n.
Proof.
  intros H. exists (take o d), (take n (drop o d)), (drop (o + n) d).
  split; [| split].
  - rewrite <- (drop_drop d n o), take_drop, take_drop. done.
  - rewrite length_take. lia.
  - rewrite length_take, length_drop. lia.
Qed.

Lemma length_splice d o bs :
  (o + length bs <= length d)%nat -> length (splice d o bs) = length d.
Proof.
  intros H. destruct (split3 d o (length bs) H) as (A & X & C & -> & <- & HX).
  rewrite splice_app by done. rewrite !length_app. lia.
Qed.

Lemma splice_splice d o b1 b2 :
  (o + length b1 + length b2 <= length d)%nat ->
  splice (splice d o b1) (o + length b1) b2 = splice d o (b1 ++ b2).
Proof.
  intros H.
  destruct (split3 d o (length b1 + length b2) ltac:(lia))
    as (A & X & C & -> & <- & HX).
  destruct (split3 X 0 (length b1) ltac:(lia)) as (E & X1 & X2 & -> & HE & HX1).
  destruct E; [| done]. simpl in *. rewrite length_app in HX.
  rewrite (splice_app A (X1 ++ X2) C (b1 ++ b2)) by (rewrite !length_app; lia).
  rewrite <- (app_assoc X1 X2 C), (splice_app A X1 (X2 ++ C) b1) by done.
  rewrite (app_assoc A b1 (X2 ++ C)), <- length_app.
  rewrite splice_app by lia. by rewrite <- !app_assoc.
Qed.

Lemma splice_splice_before d o b1 b2 :
  (o + length b1 + length b2 <= length d)%nat ->
  splice (splice d (o + length b1) b2) o b1 = splice d o (b1 ++ b2).
Proof.
  intros H.
  destruct (split3 d o (length b1 + length b2) ltac:(lia))
    as (A & X & C & -> & <- & HX).
  destruct (split3 X 0 (length b1) ltac:(lia)) as (E & X1 & X2 & -> & HE & HX1).
  destruct E; [| done]. simpl in *. rewrite length_app in HX.
  rewrite (splice_app A (X1 ++ X2) C (b1 ++ b2)) by (rewrite !length_app; lia).
  rewrite <- (app_assoc X1 X2 C), (app_assoc A X1 (X2 ++ C)).
  rewrite <- HX1 at 1. rewrite <- length_app.
  rewrite splice_app by lia. rewrite <- (app_assoc A X1).
  rewrite splice_app by done. by rewrite <- !app_assoc.
Qed.

Lemma insert_splice d o x :
  (o < length d)%nat -> <[o := x]> d = splice d o [x].
Proof.
  intros H. unfold splice. rewrite insert_take_drop by done. simpl.
  by rewrite Nat.add_1_r.
Qed.

Lemma drop_splice_ge d o bs (k : nat) :
  (o + length bs <= k)%nat -> drop k (splice d o bs) = drop k d.
Proof.
  intros H. destruct (decide (k <= length d)%nat) as [Hk | Hk].
  - destruct (split3 d o (length bs) ltac:(lia)) as (A & X & C & -> & <- & HX).
    rewrite splice_app by done. rewrite !app_assoc.
    rewrite !drop_app_ge by (rewrite length_app; lia).
    rewrite !length_app. by rewrite HX.
  - unfold splice. rewrite (drop_ge d k) by lia. apply drop_ge.
    rewrite !length_app, length_take, length_drop. lia.
Qed.

Lemma drop_splice_le d o bs (k : nat) :
  (k <= o)%nat -> (o + length bs <= length d)%nat ->
  drop k (splice d o bs) = splice (drop k d) (o - k) bs.
Proof.
  intros Hk H.
  destruct (split3 d o (length bs) ltac:(lia)) as (A & X & C & -> & <- & HX).
  rewrite splice_app by done.
  destruct (split3 A k 0 ltac:(lia)) as (A1 & E & A2 & -> & HA1 & HE).
  destruct E; [| done]. simpl. rewrite <- !app_assoc.
  rewrite !drop_app_length' by done.
  replace (length (A1 ++ A2) - k)%nat with (length A2)
    by (rewrite length_app; lia).
  by rewrite splice_app.
Qed.
End splice.

Section writes.
Implicit Types (r : Rec) (d bs : list Z).

Lemma store_ok d i v :
  0 <= i < Z.of_nat (length d) ->
  store d i v = Ok (splice d (Z.to_nat i) [u8 v]).
Proof.
  intros H. unfold store. rewrite (proj2 (Z.ltb_lt _ _)) by lia.
  rewrite insert_splice by lia. done.
Qed.

Lemma storeAll_ok bs : forall d cur i,
  0 <= cur -> 0 <= i ->
  cur + i + Z.of_nat (length bs) <= Z.of_nat (length d) < 2 ^ 32 ->
  storeAll d cur i bs = Ok (splice d (Z.to_nat (cur + i)) (u8 <$> bs)).
Proof.
  induction bs as [| b bs IH]; intros d cur i Hc Hi H; simpl in *.
  - unfold splice. simpl. rewrite Nat.add_0_r, take_drop. done.
  - rewrite !u32_small by lia. rewrite store_ok by lia. simpl.
    rewrite IH; [| lia | lia | rewrite length_splice; simpl; lia].
    replace (Z.to_nat (cur + (i + 1))) with (Z.to_nat (cur + i) + length [u8 b])%nat
      by (simpl; lia).
    rewrite splice_splice; [done |]. rewrite length_fmap. simpl. lia.
Qed.

Lemma writeData_put bs r :
  room (Z.of_nat (length bs)) r -> writeData bs r = Ok (put (u8 <$> bs) r).
Proof.
  intros (H0 & H1 & H2). unfold writeData.
  rewrite storeAll_ok by lia. simpl. unfold put.
  rewrite Z.add_0_r, length_fmap, u32_small by lia. done.
Qed.

Lemma writeInt8_put v r : room 1 r -> writeInt8 v r = Ok (put [u8 v] r).
Proof.
  intros (H0 & H1 & H2). unfold writeInt8.
  rewrite store_ok by lia. simpl. unfold put. simpl.
  rewrite u32_small by lia. done.
Qed.

Lemma splice_cons_before d o x bs :
  (S o + length bs <= length d)%nat ->
  splice (splice d (S o) bs) o [x] = splice d o (x :: bs).
Proof.
  intros H. replace (S o) with (o + length [x])%nat by (simpl; lia).
  apply (splice_splice_before d o [x] bs). simpl. lia.
Qed.

Lemma store_splice d o bs i v :
  (o + length bs <= length d)%nat ->
  0 <= i < Z.of_nat (length d) ->
  store (splice d o bs) i v = Ok (splice (splice d o bs) (Z.to_nat i) [u8 v]).
Proof. intros H Hi. apply store_ok. by rewrite length_splice. Qed.

Lemma writeInt16_put v r : room 2 r -> writeInt16 v r = Ok (put (be16 v) r).
Proof.
  intros (H0 & H1 & H2). unfold writeInt16. cbv zeta.
  rewrite !u32_small by lia.
  remember (Z.to_nat (curOffset r)) as c eqn:Hc.
  rewrite store_ok by lia. cbn [bind].
  replace (Z.to_nat (curOffset r + 1)) with (S c) by lia.
  rewrite store_splice by (simpl; lia). cbn [bind].
  replace (Z.to_nat (curOffset r + 0)) with c by lia.
  rewrite splice_cons_before by (simpl; lia).
  unfold put. by rewrite <- Hc.
Qed.

Lemma writeInt32_put v r : room 4 r -> writeInt32 v r = Ok (put (be32 v) r).
Proof.
  intros (H0 & H1 & H2). unfold writeInt32. cbv zeta.
  rewrite (u32_small (curOffset r + 3)), (u32_small (curOffset r + 2)),
    (u32_small (curOffset r + 1)), (u32_small (curOffset r + 0)),
    (u32_small (curOffset r + 4)) by lia.
  remember (Z.to_nat (curOffset r)) as c eqn:Hc.
  rewrite store_ok by lia. cbn [bind].
  replace (Z.to_nat (curOffset r + 3)) with (S (S (S c))) by lia.
  rewrite store_splice by (simpl; lia). cbn [bind].
  replace (Z.to_nat (curOffset r + 2)) with (S (S c)) by lia.
  rewrite splice_cons_before by (simpl; lia).
  rewrite store_splice by (simpl; lia). cbn [bind].
  replace (Z.to_nat (curOffset r + 1)) with (S c) by lia.
  rewrite splice_cons_before by (simpl; lia).
  rewrite store_splice by (simpl; lia). cbn [bind].
  replace (Z.to_nat (curOffset r + 0)) with c by lia.
  rewrite splice_cons_before by (simpl; lia).
  unfold put. by rewrite <- Hc.
Qed.

End writes.

(** ** Successive writes *)

Arguments be16 : simpl never.
Arguments be32 : simpl never.
Arguments u32 : simpl never.
Arguments u16 : simpl never.
Arguments u8 : simpl never.

Lemma put_nil r : room 0 r -> put [] r = r.
Proof.
  intros (H0 & H1 & _). destruct r as [d c]. unfold put, splice. simpl in *.
  rewrite Nat.add_0_r, take_drop, Z.add_0_r. done.
Qed.

Lemma room_put bs n r :
  room (Z.of_nat (length bs) + n) r -> 0 <= n -> room n (put bs r).
Proof.
  intros (H0 & H1 & H2) Hn. unfold room, put. simpl.
  rewrite length_splice by lia. lia.
Qed.

Lemma room_le n m r : room n r -> 0 <= m <= n -> room m r.
Proof. unfold room. lia. Qed.

Lemma put_put b1 b2 r :
  room (Z.of_nat (length b1) + Z.of_nat (length b2)) r ->
  put b2 (put b1 r) = put (b1 ++ b2) r.
Proof.
  intros (H0 & H1 & H2). unfold put. simpl. f_equal.
  - replace (Z.to_nat (curOffset r + Z.of_nat (length b1)))
      with (Z.to_nat (curOffset r) + length b1)%nat by lia.
    apply splice_splice. lia.
  - rewrite length_app. lia.
Qed.

Lemma length_be16 v : length (be16 v) = 2%nat.
Proof. done. Qed.

Lemma length_be32 v : length (be32 v) = 4%nat.
Proof. done. Qed.

(** [room] goals, from a [room] hypothesis on the record before the
    writes. *)
Ltac solve_room :=
  repeat (apply room_put; [| lia]);
  (eapply room_le; [eassumption |]);
  rewrite ?length_app, ?length_be32, ?length_be16; simpl; lia.

(** ** Methods called through a reference into the vector *)

Lemma updAt_ok i f bs b r' :
  bs !! i = Some b -> f (rec b) = Ok r' ->
  updAt i f bs = Ok (<[i := mkBlock r' (addr b)]> bs).
Proof. intros Hb Hf. unfold updAt, onRec. rewrite Hb, Hf. done. Qed.

Lemma updAt_inv i f bs bs' :
  updAt i f bs = Ok bs' ->
  exists b r', bs !! i = Some b /\ f (rec b) = Ok r' /\
    bs' = <[i := mkBlock r' (addr b)]> bs.
Proof.
  unfold updAt, onRec. destruct (bs !! i) as [b |]; [| done].
  destruct (f (rec b)) as [r' |] eqn:Hf; [| done]. simpl. intros [= <-].
  by exists b, r'.
Qed.

(** ** The free list *)

Lemma land_pow2 x i :
  0 <= i -> Z.land x (2 ^ i) = if Z.testbit x i then 2 ^ i else 0.
Proof.
  intros Hi. apply Z.bits_inj'. intros j Hj. rewrite Z.land_spec.
  rewrite Z.pow2_bits_eqb by done.
  destruct (Z.eqb_spec i j) as [-> | Hne].
  - destruct (Z.testbit x j); simpl.
    + by rewrite Z.pow2_bits_true.
    + by rewrite Z.bits_0.
  - rewrite andb_false_r. destruct (Z.testbit x i).
    + by rewrite Z.pow2_bits_false.
    + by rewrite Z.bits_0.
Qed.

Lemma mask_pow2 i : 0 <= i < 32 -> u32 (Z.shiftl 1 i) = 2 ^ i.
Proof.
  intros Hi. rewrite Z.shiftl_1_l. apply u32_small. split; [lia |].
  apply Z.pow_lt_mono_r; lia.
Qed.

Lemma mask_test cur i :
  0 <= i < 32 ->
  negb (Z.land cur (u32 (Z.shiftl 1 i)) =? 0) = Z.testbit cur i.
Proof.
  intros Hi. rewrite mask_pow2, land_pow2 by lia.
  destruct (Z.testbit cur i); simpl; [| done].
  destruct (Z.eqb_spec (2 ^ i) 0); [| done]. lia.
Qed.

(** The bump pointer at the end of the loop does not depend on the
    vector. *)
Lemma freeListLoop_cur n : forall i cur bs cur' bs',
  0 <= i -> i + Z.of_nat n <= 32 ->
  freeListLoop n i cur bs = Ok (cur', bs') -> cur' = (buckets n i cur).2.
Proof.
  induction n as [| n IH]; intros i cur bs cur' bs' Hi Hn; simpl.
  - by intros [= <- _].
  - rewrite mask_test, mask_pow2, (u32_small (i + 1)) by lia.
    destruct (Z.testbit cur i).
    + destruct (updAt 1 (writeInt32 1) bs) as [bs1 |]; [| done]. simpl.
      destruct (updAt 1 (writeInt32 cur) bs1) as [bs2 |]; [| done]. simpl.
      intros H. apply IH in H; [| lia | lia].
      by destruct (buckets n (i + 1) (u32 (cur + 2 ^ i))).
    + destruct (updAt 1 (writeInt32 0) bs) as [bs1 |]; [| done]. simpl.
      intros H. apply IH in H; [| lia | lia].
      by destruct (buckets n (i + 1) cur).
Qed.

Lemma length_buckets n : forall i cur, length (buckets n i cur).1 = n.
Proof.
  induction n as [| n IH]; intros i cur; simpl; [done |].
  destruct (Z.testbit cur i).
  - specialize (IH (i + 1) (u32 (cur + 2 ^ i))).
    destruct (buckets n (i + 1) (u32 (cur + 2 ^ i))). simpl in *. lia.
  - specialize (IH (i + 1) cur).
    destruct (buckets n (i + 1) cur). simpl in *. lia.
Qed.

Lemma length_bucketBytes l :
  (length (l ≫= bucketBytes) <= 8 * length l)%nat.
Proof.
  induction l as [| [a |] l IH]; [simpl; lia | |];
    rewrite bind_cons, length_app; simpl; lia.
Qed.

(** With room in the metadata block the loop completes, and writes the
    buckets one after the other. *)
Lemma freeListLoop_ok n : forall i cur bs b,
  0 <= i -> i + Z.of_nat n <= 32 ->
  bs !! 1%nat = Some b -> room (8 * Z.of_nat n) (rec b) ->
  freeListLoop n i cur bs =
    Ok ((buckets n i cur).2,
        <[1%nat := mkBlock (put ((buckets n i cur).1 ≫= bucketBytes) (rec b))
                           (addr b)]> bs).
Proof.
  induction n as [| n IH]; intros i cur bs b Hi Hn Hb Hr.
  - simpl. rewrite put_nil by done. rewrite list_insert_id; [done |].
    rewrite Hb. by destruct b.
  - cbn [freeListLoop buckets].
    rewrite mask_test, mask_pow2, (u32_small (i + 1)) by lia.
    assert (Hlt : (1 < length bs)%nat) by (by eapply lookup_lt_Some).
    destruct (Z.testbit cur i).
    + rewrite (updAt_ok _ _ _ b (put (be32 1) (rec b))); [| done |]; cycle 1.
      { apply writeInt32_put. eapply room_le; [done | lia]. }
      cbn [bind].
      erewrite updAt_ok; [| by apply list_lookup_insert_eq |]; cycle 1.
      { simpl. apply writeInt32_put. apply room_put; [| lia].
        eapply room_le; [done |]. rewrite length_be32. lia. }
      cbn [bind]. simpl. rewrite list_insert_insert_eq.
      erewrite IH; [| lia | lia | by apply list_lookup_insert_eq |]; cycle 1.
      { simpl. rewrite put_put by (eapply room_le; [done |]; simpl; lia).
        apply room_put; [| lia]. eapply room_le; [done |].
        rewrite length_app, !length_be32. lia. }
      pose proof (length_buckets n (i + 1) (u32 (cur + 2 ^ i))) as Hl.
      destruct (buckets n (i + 1) (u32 (cur + 2 ^ i))) as [l c].
      cbn [fst snd] in *. rewrite bind_cons. cbn [bucketBytes].
      rewrite list_insert_insert_eq. cbn [rec addr]. do 4 f_equal.
      pose proof (length_bucketBytes l).
      rewrite !put_put; [by rewrite <- !app_assoc | |]; solve_room.
    + rewrite (updAt_ok _ _ _ b (put (be32 0) (rec b))); [| done |]; cycle 1.
      { apply writeInt32_put. eapply room_le; [done | lia]. }
      cbn [bind].
      erewrite IH; [| lia | lia | by apply list_lookup_insert_eq |]; cycle 1.
      { simpl. apply room_put; [| lia]. eapply room_le; [done |].
        rewrite length_be32. lia. }
      pose proof (length_buckets n (i + 1) cur) as Hl.
      destruct (buckets n (i + 1) cur) as [l c].
      cbn [fst snd] in *. rewrite bind_cons. cbn [bucketBytes].
      rewrite list_insert_insert_eq. cbn [rec addr]. do 4 f_equal.
      pose proof (length_bucketBytes l).
      rewrite !put_put; [done |]. solve_room.
Qed.

Lemma pow2_split i : 0 <= i <= 32 -> 2 ^ 32 = 2 ^ i * 2 ^ (32 - i).
Proof. intros Hi. rewrite <- Z.pow_add_r by lia. f_equal. lia. Qed.

Lemma u32_mod_pow2 x i : 0 <= i <= 32 -> u32 x mod 2 ^ i = x mod 2 ^ i.
Proof.
  intros Hi. unfold u32. apply Z.mod_mod_divide.
  exists (2 ^ (32 - i)). rewrite (pow2_split i) by lia. lia.
Qed.

Lemma mod_pow2_succ x i :
  0 <= i ->
  x mod 2 ^ (i + 1) = x mod 2 ^ i + 2 ^ i * Z.b2z (Z.testbit x i).
Proof.
  intros Hi. rewrite Z.pow_add_r, Z.pow_1_r by lia.
  rewrite Z.rem_mul_r by lia. by rewrite Z.testbit_spec'.
Qed.

(** One step of the loop keeps the bump pointer a multiple of the size of
    the next bucket. *)
Lemma bucket_step cur i :
  0 <= i < 32 -> cur mod 2 ^ i = 0 ->
  (if Z.testbit cur i then u32 (cur + 2 ^ i) else cur) mod 2 ^ (i + 1) = 0.
Proof.
  intros Hi Hc. pose proof (mod_pow2_succ cur i ltac:(lia)) as Hs.
  assert (0 < 2 ^ i) by lia.
  destruct (Z.testbit cur i); simpl in Hs.
  - rewrite u32_mod_pow2 by lia.
    rewrite <- Zplus_mod_idemp_l, Hs, Hc.
    replace (0 + 2 ^ i * 1 + 2 ^ i) with (1 * 2 ^ (i + 1))
      by (rewrite Z.pow_add_r, Z.pow_1_r; lia).
    apply Z_mod_mult.
  - lia.
Qed.

Lemma buckets_end n : forall i cur,
  0 <= i -> i + Z.of_nat n = 32 -> 0 <= cur < 2 ^ 32 -> cur mod 2 ^ i = 0 ->
  (buckets n i cur).2 = 0.
Proof.
  induction n as [| n IH]; intros i cur Hi Hn Hc Hm; simpl.
  - replace i with 32 in Hm by lia. rewrite Z.mod_small in Hm; lia.
  - pose proof (bucket_step cur i ltac:(lia) Hm) as Hs.
    destruct (Z.testbit cur i).
    + specialize (IH (i + 1) (u32 (cur + 2 ^ i)) ltac:(lia) ltac:(lia)).
      destruct (buckets n (i + 1) (u32 (cur + 2 ^ i))). simpl in *.
      apply IH; [| done]. apply Z.mod_pos_bound. lia.
    + specialize (IH (i + 1) cur ltac:(lia) ltac:(lia)).
      destruct (buckets n (i + 1) cur). simpl in *. by apply IH.
Qed.

Lemma curAt_bit a i :
  0 <= a < 2 ^ 32 -> 0 <= i < 32 ->
  Z.testbit (curAt a i) i = Z.testbit (freeSpace a) i.
Proof.
  intros Ha Hi. unfold curAt, freeSpace, u32 at 1.
  rewrite Z.mod_pow2_bits_low by lia.
  destruct (decide (a = 0)) as [-> | Hne].
  { change (u32 (2 ^ 32 - 0)) with 0. by rewrite Zmod_0_l. }
  rewrite (u32_small (2 ^ 32 - a)) by lia.
  set (f := 2 ^ 32 - a).
  pose proof (Z.div_mod f (2 ^ i) ltac:(lia)) as Hf.
  replace (a + f mod 2 ^ i) with ((2 ^ (32 - i) - f / 2 ^ i) * 2 ^ i).
  - pose proof (Z.mul_pow2_bits_add (2 ^ (32 - i) - f / 2 ^ i) i 0 ltac:(lia))
      as E1.
    pose proof (Z.div_pow2_bits f i 0 ltac:(lia) ltac:(lia)) as E2.
    rewrite Z.add_0_r in E1. rewrite Z.add_0_l in E2.
    rewrite E1, <- E2, !Z.bit0_odd.
    rewrite Z.odd_sub. replace (32 - i) with (Z.succ (31 - i)) by lia.
    rewrite Z.pow_succ_r, Z.odd_mul by lia. done.
  - rewrite Z.mul_sub_distr_r, (Z.mul_comm (2 ^ (32 - i))), <- pow2_split by lia.
    unfold f in *. lia.
Qed.

Lemma curAt_succ a i :
  0 <= a < 2 ^ 32 -> 0 <= i < 32 ->
  curAt a (i + 1) =
    if Z.testbit (curAt a i) i then u32 (curAt a i + 2 ^ i) else curAt a i.
Proof.
  intros Ha Hi. rewrite curAt_bit by done. unfold curAt.
  rewrite (mod_pow2_succ _ i) by lia.
  destruct (Z.testbit (freeSpace a) i); simpl.
  - unfold u32. rewrite Zplus_mod_idemp_l. f_equal. lia.
  - f_equal. lia.
Qed.

Lemma buckets_lookup n : forall a i j,
  0 <= a < 2 ^ 32 -> 0 <= i -> i + Z.of_nat n <= 32 -> (j < n)%nat ->
  (buckets n i (curAt a i)).1 !! j =
    Some (if Z.testbit (freeSpace a) (i + Z.of_nat j)
          then Some (curAt a (i + Z.of_nat j)) else None).
Proof.
  induction n as [| n IH]; intros a i j Ha Hi Hn Hj; [lia |].
  cbn [buckets]. pose proof (curAt_succ a i Ha ltac:(lia)) as Hs.
  pose proof (curAt_bit a i Ha ltac:(lia)) as Hb.
  assert (Hhd : forall (l : list (option Z)) x,
    (x :: l) !! j =
      match j with O => Some x | S j' => l !! j' end) by (by destruct j).
  destruct j as [| j].
  - rewrite Z.add_0_r, <- Hb.
    destruct (Z.testbit (curAt a i) i);
      [destruct (buckets n (i + 1) (u32 (curAt a i + 2 ^ i)))
      | destruct (buckets n (i + 1) (curAt a i))]; done.
  - specialize (IH a (i + 1) j Ha ltac:(lia) ltac:(lia) ltac:(lia)).
    replace (i + Z.of_nat (S j)) with (i + 1 + Z.of_nat j) by lia.
    rewrite Hs in IH.
    destruct (Z.testbit (curAt a i) i);
      [destruct (buckets n (i + 1) (u32 (curAt a i + 2 ^ i)))
      | destruct (buckets n (i + 1) (curAt a i))]; exact IH.
Qed.

Lemma curAt_0 a : 0 <= a < 2 ^ 32 -> curAt a 0 = a.
Proof.
  intros Ha. unfold curAt. rewrite Z.pow_0_r, Z.mod_1_r, Z.add_0_r.
  by apply u32_small.
Qed.

(** ** allocateBlock *)

Lemma size_newBlock a n : 0 <= n -> size (newBlock a n) = n.
Proof. intros Hn. unfold size. simpl. rewrite length_replicate. lia. Qed.

Lemma length_allocateBlock sz a :
  length (blocks (allocateBlock sz a).2) = S (length (blocks a)).
Proof. simpl. rewrite length_app. simpl. lia. Qed.

Lemma allocateAll_blocks sizes : forall a,
  exists new, blocks (allocateAll sizes a).2 = blocks a ++ new /\
    length new = length sizes.
Proof.
  induction sizes as [| sz sizes IH]; intros a.
  - exists []. by rewrite app_nil_r.
  - cbn [allocateAll].
    destruct (allocateBlock sz a) as [id a1] eqn:E1.
    destruct (IH a1) as (new & Hnew & Hlen).
    destruct (allocateAll sizes a1) as [ids a2]. simpl in *.
    injection E1 as _ <-. simpl in Hnew.
    exists (newBlock (curAddr a) (powerOf2Ceil sz) :: new).
    rewrite Hnew, <- app_assoc. simpl. split; [done | lia].
Qed.

Lemma allocateAll_ids sizes : forall a,
  (1 <= length (blocks a))%nat ->
  Z.of_nat (length (blocks a)) + Z.of_nat (length sizes) < 2 ^ 32 ->
  (allocateAll sizes a).1 =
    seqZ (Z.of_nat (length (blocks a)) - 1) (Z.of_nat (length sizes)).
Proof.
  induction sizes as [| sz sizes IH]; intros a Ha Hlen; [done |].
  cbn [allocateAll].
  destruct (allocateBlock sz a) as [id a1] eqn:E1.
  specialize (IH a1). destruct (allocateAll sizes a1) as [ids a2].
  injection E1 as <- <-. simpl in *. rewrite length_app in *. simpl in *.
  rewrite IH by lia.
  rewrite (seqZ_cons (Z.of_nat (length (blocks a)) - 1)) by lia. f_equal.
  - rewrite u32_small; lia.
  - f_equal; lia.
Qed.

Lemma getBlock_at id a :
  0 <= id < 2 ^ 32 - 1 ->
  getBlock id a = at_ (blocks a) (id + 1).
Proof.
  intros Hid. unfold getBlock.
  destruct (Z.eqb_spec id 0xffffffff) as [-> | _]; [lia |].
  simpl. by rewrite u32_small by lia.
Qed.

Lemma at_app_length bs b new : at_ (bs ++ b :: new) (Z.of_nat (length bs)) = Ok b.
Proof.
  unfold at_. rewrite Nat2Z.id, lookup_app_r by lia.
  by rewrite Nat.sub_diag.
Qed.

(** C2 (as amended): for every valid requested size [n], from 1 to 2^31,
    [allocateBlock(n)] appends one block, whose size is the smallest power
    of two that is at least [n] and whose address is the bump pointer at
    the time of the call; the bump pointer advances by that size.  The
    address is not made a multiple of the size. *)
Theorem allocateBlock_size_and_address (n : Z) (a : BuddyAllocator) :
  1 <= n <= 2 ^ 31 ->
  exists b,
    blocks (allocateBlock n a).2 = blocks a ++ [b] /\
    isPow2Ceil n (size b) /\
    getAddr b = curAddr a /\
    curAddr (allocateBlock n a).2 = u32 (curAddr a + size b).
Proof.
  intros Hn. destruct (powerOf2Ceil_spec n Hn) as [Hp Hr].
  exists (newBlock (curAddr a) (powerOf2Ceil n)).
  rewrite size_newBlock by lia. done.
Qed.

Lemma allocateBlock_size_and_address_witness :
  exists b,
    blocks (allocateBlock 20 newBuddy).2 = blocks newBuddy ++ [b] /\
    isPow2Ceil 20 (size b) /\
    getAddr b = curAddr newBuddy /\
    curAddr (allocateBlock 20 newBuddy).2 = u32 (curAddr newBuddy + size b).
Proof. apply (allocateBlock_size_and_address 20 newBuddy). lia. Defined.

(** C2 fails as stated: the metadata block, which the constructor creates
    with [allocateBlock(2048)] after the header block, has size 2048 and
    address 32, which is not a multiple of 2048. *)
Lemma metadata_block_not_aligned :
  let a := (allocateBlock 32 (mkBuddy [] 0)).2 in
  exists b,
    blocks (allocateBlock 2048 a).2 = blocks a ++ [b] /\
    size b = 2048 /\ getAddr b = 32 /\ getAddr b mod size b <> 0.
Proof.
  exists (newBlock 32 2048). repeat split. vm_compute. discriminate.
Qed.




(** C10: the id returned by [allocateBlock] is the number of blocks
    allocated before the call, minus one; [getBlock] of that id is the
    block the call created, and still is after any later calls of
    [allocateBlock], which return the ids that follow; on a newly
    constructed allocator the first id is 1. *)
Theorem getBlock_of_allocated_id (a : BuddyAllocator) (sz : Z) (later : list Z) :
  (1 <= length (blocks a))%nat ->
  Z.of_nat (length (blocks a)) + Z.of_nat (length later) < 2 ^ 32 - 1 ->
  let '(id, a1) := allocateBlock sz a in
  let '(ids, a2) := allocateAll later a1 in
  id = Z.of_nat (length (blocks a)) - 1 /\
  getBlock id a1 = Ok (newBlock (curAddr a) (powerOf2Ceil sz)) /\
  getBlock id a2 = Ok (newBlock (curAddr a) (powerOf2Ceil sz)) /\
  ids = seqZ (id + 1) (Z.of_nat (length later)) /\
  (allocateBlock sz newBuddy).1 = 1.
Proof.
  intros Ha Hlen. unfold allocateBlock at 1. cbv zeta.
  set (a1 := mkBuddy (blocks a ++ [newBlock (curAddr a) (powerOf2Ceil sz)])
                     (u32 (curAddr a + powerOf2Ceil sz))).
  pose proof (allocateAll_ids later a1) as Hids.
  destruct (allocateAll_blocks later a1) as (new & Hnew & _).
  destruct (allocateAll later a1) as [ids a2].
  cbn [fst snd blocks a1] in *. rewrite length_app in *. cbn [length] in *.
  assert (Hid : u32 (Z.of_nat (length (blocks a) + 1) - 2)
                = Z.of_nat (length (blocks a)) - 1) by (rewrite u32_small; lia).
  rewrite Hid. split; [done |].
  rewrite !getBlock_at by lia. rewrite Hnew, <- app_assoc.
  replace (Z.of_nat (length (blocks a)) - 1 + 1)
    with (Z.of_nat (length (blocks a))) by lia.
  split; [apply (at_app_length _ _ []) |]. split; [apply at_app_length |].
  split; [| done]. rewrite Hids by lia. f_equal. lia.
Qed.

Lemma getBlock_of_allocated_id_witness :
  let '(id, a1) := allocateBlock 2048 newBuddy in
  let '(ids, a2) := allocateAll [20] a1 in
  id = Z.of_nat (length (blocks newBuddy)) - 1 /\
  getBlock id a1 = Ok (newBlock (curAddr newBuddy) (powerOf2Ceil 2048)) /\
  getBlock id a2 = Ok (newBlock (curAddr newBuddy) (powerOf2Ceil 2048)) /\
  ids = seqZ (id + 1) (Z.of_nat (length [20])) /\
  (allocateBlock 2048 newBuddy).1 = 1.
Proof.
  apply (getBlock_of_allocated_id newBuddy 2048 [20]); simpl; lia.
Defined.

(** C9: whatever 32-bit value the bump pointer holds when the loop over
    the buckets starts, adding [2^i] to it, for [i] from 0 to 31, whenever
    its bit [i] is set, leaves it at 0 modulo 2^32: if the loop completes,
    [assert(curAddr == 0)] holds; and the loop does complete when the
    metadata block has room for what it writes. *)
Theorem freeList_assertion_holds (cur : Z) (bs : list Block) :
  0 <= cur < 2 ^ 32 ->
  (forall cur' bs', freeListLoop 32 0 cur bs = Ok (cur', bs') ->
     cur' = 0 /\ assert (cur' =? 0) = Ok tt) /\
  (forall b, bs !! 1%nat = Some b -> room 256 (rec b) ->
     exists bs', freeListLoop 32 0 cur bs = Ok (0, bs')).
Proof.
  intros Hc.
  assert (He : (buckets 32 0 cur).2 = 0).
  { apply buckets_end; try lia. rewrite Z.pow_0_r. apply Z.mod_1_r. }
  split.
  - intros cur' bs' H. apply freeListLoop_cur in H; [| lia | lia].
    rewrite He in H. by subst cur'.
  - intros b Hb Hr. eexists.
    rewrite (freeListLoop_ok 32 0 cur bs b) by (done || lia). by rewrite He.
Qed.

Lemma freeList_assertion_holds_witness :
  (forall cur' bs', freeListLoop 32 0 4160 (blocks newBuddy) = Ok (cur', bs') ->
     cur' = 0 /\ assert (cur' =? 0) = Ok tt) /\
  (forall b, blocks newBuddy !! 1%nat = Some b -> room 256 (rec b) ->
     exists bs', freeListLoop 32 0 4160 (blocks newBuddy) = Ok (0, bs')).
Proof. apply (freeList_assertion_holds 4160 (blocks newBuddy)). lia. Defined.

(** C3 (as amended): the loop writes the 32 buckets one after the other
    and ends with the bump pointer at 0.  Bucket [i] gets one entry, whose
    address is the bump pointer at that time, [curAt a i], exactly when bit
    [i] of that current bump pointer is set, which is when bit [i] of the
    free space [2^32 - a] above the final bump-pointer value [a] is set,
    and no entry otherwise; an entry adds [2^i] to the bump pointer,
    modulo 2^32. *)
Theorem freeList_buckets (a : Z) (bs : list Block) (b : Block) :
  0 <= a < 2 ^ 32 -> bs !! 1%nat = Some b -> room 256 (rec b) ->
  exists l : list (option Z),
    freeListLoop 32 0 a bs =
      Ok (0, <[1%nat := mkBlock (put (l ≫= bucketBytes) (rec b)) (addr b)]> bs) /\
    length l = 32%nat /\
    curAt a 0 = a /\
    forall i, 0 <= i < 32 ->
      l !! Z.to_nat i =
        Some (if Z.testbit (curAt a i) i then Some (curAt a i) else None) /\
      Z.testbit (curAt a i) i = Z.testbit (freeSpace a) i /\
      curAt a (i + 1) =
        if Z.testbit (curAt a i) i then u32 (curAt a i + 2 ^ i) else curAt a i.
Proof.
  intros Ha Hb Hr. exists (buckets 32 0 a).1.
  rewrite (freeListLoop_ok 32 0 a bs b) by (done || lia).
  rewrite buckets_end by (rewrite ?Z.pow_0_r, ?Z.mod_1_r; lia).
  split; [done |]. split; [apply length_buckets |].
  split; [by apply curAt_0 |]. intros i Hi.
  split; [| split; [by apply curAt_bit | by apply curAt_succ]].
  rewrite <- (curAt_0 a Ha) at 1.
  rewrite buckets_lookup by lia.
  rewrite Z.add_0_l, Z2Nat.id, curAt_bit by lia. done.
Qed.

Lemma freeList_buckets_witness :
  exists l : list (option Z),
    freeListLoop 32 0 4160 [newBlock 0 32; newBlock 32 2048] =
      Ok (0, <[1%nat := mkBlock (put (l ≫= bucketBytes) (rec (newBlock 32 2048)))
                               (addr (newBlock 32 2048))]>
               [newBlock 0 32; newBlock 32 2048]) /\
    length l = 32%nat /\
    curAt 4160 0 = 4160 /\
    forall i, 0 <= i < 32 ->
      l !! Z.to_nat i =
        Some (if Z.testbit (curAt 4160 i) i then Some (curAt 4160 i) else None) /\
      Z.testbit (curAt 4160 i) i = Z.testbit (freeSpace 4160) i /\
      curAt 4160 (i + 1) =
        if Z.testbit (curAt 4160 i) i then u32 (curAt 4160 i + 2 ^ i)
        else curAt 4160 i.
Proof.
  apply (freeList_buckets 4160 [newBlock 0 32; newBlock 32 2048]
           (newBlock 32 2048)).
  - lia.
  - reflexivity.
  - unfold room. simpl. lia.
Defined.

(** C3 fails as stated: starting from the bump pointer 4160, whose bits 6
    and 12 alone are set, bucket 7 gets an entry although bit 7 of 4160 is
    clear, its address 4224 being 4160 plus 64, not less; and bucket 12
    gets no entry although bit 12 of 4160 is set.  (Buckets 0 to 5 take 4
    bytes each and buckets 6 to 11 take 8 bytes each, so that bucket 7 is
    at offset 32 and bucket 12 at offset 72.) *)
Lemma freeList_not_bits_of_bump_pointer :
  exists bs' m,
    freeListLoop 32 0 4160 [newBlock 0 32; newBlock 32 2048] = Ok (0, bs') /\
    bs' !! 1%nat = Some m /\
    Z.testbit 4160 7 = false /\
    get32 (data (rec m)) 32 = Some 1 /\
    get32 (data (rec m)) 36 = Some (4160 + 2 ^ 6) /\
    Z.testbit 4160 12 = true /\
    get32 (data (rec m)) 72 = Some 0.
Proof.
  eexists _, _. split; [vm_compute; reflexivity |].
  split; [reflexivity |]. vm_compute. done.
Qed.

(** ** Writers *)

Lemma rinv_put bs r :
  rinv r -> room (Z.of_nat (length bs)) r -> rinv (put bs r).
Proof.
  intros [Hc Hl] (H0 & H1 & H2). unfold rinv, put. simpl.
  rewrite length_splice by lia. lia.
Qed.

Lemma rinv_room_0 r : rinv r -> room 0 r.
Proof. unfold rinv, room. lia. Qed.

Lemma store_inv d i v d' :
  store d i v = Ok d' -> i < Z.of_nat (length d).
Proof. unfold store. destruct (Z.ltb_spec i (Z.of_nat (length d))); done. Qed.

Lemma store_length d i v d' :
  store d i v = Ok d' -> length d' = length d.
Proof.
  unfold store. destruct (i <? Z.of_nat (length d)); [| done].
  intros [= <-]. apply length_insert.
Qed.

Lemma bind_inv {A B} (m : result A) (k : A -> result B) b :
  (do x <- m; k x) = Ok b -> exists a, m = Ok a /\ k a = Ok b.
Proof. destruct m as [a |]; [| done]. simpl. eauto. Qed.

Lemma writer_of_first_store f bs (n : Z) :
  Z.of_nat (length bs) = n -> 0 < n ->
  (forall r, room n r -> f r = Ok (put bs r)) ->
  (forall r r', rinv r -> f r = Ok r' ->
     curOffset r + (n - 1) < Z.of_nat (length (data r))) ->
  writer f bs.
Proof.
  intros Hlen Hn Hok Hinv r Hr. rewrite Hlen. split; [apply Hok |].
  intros r' H. specialize (Hinv r r' Hr H). destruct Hr. unfold room. lia.
Qed.

Lemma writer_writeInt8 v : writer (writeInt8 v) [u8 v].
Proof.
  apply (writer_of_first_store _ _ 1); [done | lia | apply writeInt8_put |].
  intros r r' Hr H. unfold writeInt8 in H.
  apply bind_inv in H as (d & H & _). apply store_inv in H. lia.
Qed.

Lemma writer_writeInt16 v : writer (writeInt16 v) (be16 v).
Proof.
  apply (writer_of_first_store _ _ 2); [done | lia | apply writeInt16_put |].
  intros r r' [Hc Hl] H. unfold writeInt16 in H.
  apply bind_inv in H as (d & H & _). apply store_inv in H.
  rewrite u32_small in H; lia.
Qed.

Lemma writer_writeInt32 v : writer (writeInt32 v) (be32 v).
Proof.
  apply (writer_of_first_store _ _ 4); [done | lia | apply writeInt32_put |].
  intros r r' [Hc Hl] H. unfold writeInt32 in H.
  apply bind_inv in H as (d & H & _). apply store_inv in H.
  rewrite u32_small in H; lia.
Qed.

Lemma writer_bind f g b1 b2 :
  writer f b1 -> writer g b2 ->
  writer (fun r => do r' <- f r; g r') (b1 ++ b2).
Proof.
  intros Hf Hg r Hr. rewrite length_app, Nat2Z.inj_add.
  destruct (Hf r Hr) as [Hf1 Hf2]. split.
  - intros Hroom. rewrite Hf1 by (eapply room_le; [done | lia]). simpl.
    destruct (Hg (put b1 r)) as [Hg1 _].
    { apply rinv_put; [done |]. eapply room_le; [done | lia]. }
    rewrite Hg1 by (apply room_put; [done | lia]). by rewrite put_put.
  - intros r' H. apply bind_inv in H as (r1 & H1 & H2).
    pose proof (Hf2 _ H1) as Hroom1. rewrite Hf1 in H1 by done.
    injection H1 as <-.
    destruct (Hg (put b1 r)) as [_ Hg2]; [by apply rinv_put |].
    apply Hg2 in H2. destruct Hroom1 as (? & ? & ?), H2 as (_ & H2 & _).
    unfold put in H2. simpl in H2. rewrite length_splice in H2 by lia.
    unfold room. lia.
Qed.

Lemma writer_nil : writer (fun r => Ok r) [].
Proof.
  intros r Hr. split.
  - intros Hroom. by rewrite put_nil.
  - intros _ _. by apply rinv_room_0.
Qed.

Lemma writer_ext f g bs : (forall r, f r = g r) -> writer f bs -> writer g bs.
Proof.
  intros E Hf r Hr. destruct (Hf r Hr) as [H1 H2]. split.
  - intros H. rewrite <- E. by apply H1.
  - intros r' H. apply (H2 r'). by rewrite E.
Qed.

Lemma writer_writeChars cs :
  writer (writeChars cs) (cs ≫= fun c => be16 (char_to_u16 c)).
Proof.
  induction cs as [| c cs IH]; [apply writer_nil |].
  rewrite bind_cons.
  apply (writer_ext (fun r => do r' <- writeInt16 (char_to_u16 c) r;
                              writeChars cs r')); [done |].
  by apply writer_bind; [apply writer_writeInt16 |].
Qed.

Lemma storeAll_inv bs : forall d cur i d',
  0 <= cur -> 0 <= i -> cur + i <= Z.of_nat (length d) <= 2 ^ 31 ->
  storeAll d cur i bs = Ok d' ->
  cur + i + Z.of_nat (length bs) <= Z.of_nat (length d).
Proof.
  induction bs as [| b bs IH]; intros d cur i d' Hc Hi Hl H; simpl in *; [lia |].
  apply bind_inv in H as (d1 & H1 & H2).
  pose proof (store_inv _ _ _ _ H1) as Hlt.
  pose proof (store_length _ _ _ _ H1) as Hlen.
  rewrite u32_small in Hlt by lia. rewrite u32_small in H2 by lia.
  apply IH in H2; lia.
Qed.

Lemma writer_writeData bs : writer (writeData bs) (u8 <$> bs).
Proof.
  intros r [Hc Hl]. rewrite length_fmap. split; [apply writeData_put |].
  intros r' H. unfold writeData in H. apply bind_inv in H as (d & H & _).
  apply storeAll_inv in H; unfold room; lia.
Qed.

Lemma isByte_byte_of c : isByte (byte_of c).
Proof.
  unfold isByte, byte_of. pose proof (N_ascii_bounded c). lia.
Qed.

Lemma Forall_isByte_cstr s : Forall isByte (cstr s).
Proof.
  induction s as [| c s IH]; simpl; [done |].
  destruct (byte_of c =? 0); [done |]. constructor; [apply isByte_byte_of | done].
Qed.

Lemma u8_isByte b : isByte b -> u8 b = b.
Proof. apply Z.mod_small. Qed.

Lemma fmap_u8_bytes bs : Forall isByte bs -> u8 <$> bs = bs.
Proof.
  induction 1 as [| b bs Hb _ IH]; [done |].
  by rewrite fmap_cons, u8_isByte, IH.
Qed.

Lemma Forall_isByte_strBytes s : Forall isByte (strBytes s).
Proof. apply Forall_take, Forall_isByte_cstr. Qed.

Lemma writer_writeStr s : writer (writeStr s) (strBytes s).
Proof.
  intros r [Hc Hl]. unfold writeStr. fold (strBytes s).
  assert (Hlen : Z.of_nat (length (strBytes s)) <= u32 (strlen s)).
  { unfold strBytes. rewrite length_take.
    pose proof (Z.mod_pos_bound (strlen s) (2 ^ 32) ltac:(lia)). unfold u32. lia. }
  split.
  - intros (H0 & H1 & H2).
    rewrite storeAll_ok by lia. simpl.
    rewrite fmap_u8_bytes by apply Forall_isByte_strBytes.
    unfold put. rewrite Z.add_0_r. do 2 f_equal.
    assert (Z.of_nat (length (strBytes s)) = u32 (strlen s)); [| rewrite u32_small; lia].
    unfold strBytes, strlen in *. rewrite length_take in *.
    pose proof (Z.mod_pos_bound (Z.of_nat (length (cstr s))) (2 ^ 32) ltac:(lia)).
    unfold u32 in *.
    destruct (decide (Z.of_nat (length (cstr s)) < 2 ^ 32)).
    + rewrite Z.mod_small in * by lia. lia.
    + lia.
  - intros r' H. apply bind_inv in H as (d & H & _).
    apply storeAll_inv in H; unfold room; lia.
Qed.

(** ** The add-methods *)

Lemma writer_nameWriter s : writer (nameWriter s) (nameBytes s).
Proof.
  unfold nameWriter, nameBytes. cbv zeta. fold (strBytes s).
  apply (writer_bind (writeInt32 _) (writeChars _));
    [apply writer_writeInt32 | apply writer_writeChars].
Qed.

Lemma writer_addWriter c : writer (addWriter c) (entryBytes c).
Proof.
  destruct c as [f ty bytes | f ty v | f ty v]; unfold addWriter, entryBytes.
  - apply (writer_bind (nameWriter f)); [apply writer_nameWriter |].
    apply (writer_bind (writeStr ty)); [apply writer_writeStr |].
    apply (writer_bind (writeStr "blob")); [apply (writer_writeStr "blob") |].
    apply (writer_bind (writeInt32 _)); [apply writer_writeInt32 |].
    apply writer_writeData.
  - apply (writer_bind (nameWriter f)); [apply writer_nameWriter |].
    apply (writer_bind (writeStr ty)); [apply writer_writeStr |].
    apply (writer_bind (writeStr "bool")); [apply (writer_writeStr "bool") |].
    apply writer_writeInt8.
  - apply (writer_bind (nameWriter f)); [apply writer_nameWriter |].
    apply (writer_bind (writeStr ty)); [apply writer_writeStr |].
    apply (writer_bind (writeStr "shor")); [apply (writer_writeStr "shor") |].
    apply writer_writeInt32.
Qed.

Lemma bind_assoc {A B C} (m : result A) (f : A -> result B) (g : B -> result C) :
  (do y <- (do x <- m; f x); g y) = (do x <- m; do y <- f x; g y).
Proof. by destruct m. Qed.

Lemma updBlock_updBlock id f g a :
  (do a' <- updBlock id f a; updBlock id g a') =
  updBlock id (fun r => do r' <- f r; g r') a.
Proof.
  unfold updBlock, getBlock.
  destruct (assert (negb (id =? 4294967295))) as [[] |]; [| done]. simpl.
  unfold at_. destruct (blocks a !! Z.to_nat (u32 (id + 1))) as [b |] eqn:Hb;
    [| done]. simpl.
  unfold onRec. destruct (f (rec b)) as [r1 |]; [| done]. simpl.
  rewrite list_lookup_insert_eq by (by eapply lookup_lt_Some). simpl.
  destruct (g r1) as [r2 |]; [| done]. simpl.
  by rewrite list_insert_insert_eq.
Qed.

Lemma runAdd_addWriter c t :
  runAdd c t =
    do a <- updBlock (curPageId t) (addWriter c) (buddy t);
    Ok (mkBTree a (u32 (entryCount t + 1)) (curPageId t)).
Proof.
  destruct c as [f ty bytes | f ty v | f ty v];
    unfold runAdd, addBlob, addBool, addShort, writeFileName;
    cbn [buddy entryCount curPageId];
    rewrite <- (bind_assoc (updBlock _ _ _) (updBlock _ _));
    rewrite updBlock_updBlock; done.
Qed.

Lemma updBlock_ok id f a b r' :
  0 <= id < 2 ^ 32 - 1 ->
  blocks a !! Z.to_nat (id + 1) = Some b -> f (rec b) = Ok r' ->
  updBlock id f a =
    Ok (mkBuddy (<[Z.to_nat (id + 1) := mkBlock r' (addr b)]> (blocks a))
                (curAddr a)).
Proof.
  intros Hid Hb Hf. unfold updBlock. rewrite getBlock_at by done.
  unfold at_, onRec. rewrite Hb. simpl. rewrite Hf. simpl.
  by rewrite u32_small by lia.
Qed.

Lemma updBlock_inv id f a a' :
  0 <= id < 2 ^ 32 - 1 -> updBlock id f a = Ok a' ->
  exists b r', blocks a !! Z.to_nat (id + 1) = Some b /\ f (rec b) = Ok r'.
Proof.
  intros Hid H. unfold updBlock in H. rewrite getBlock_at in H by done.
  apply bind_inv in H as (b & Hb & H). apply bind_inv in H as (b' & Hf & _).
  unfold at_ in Hb. destruct (blocks a !! Z.to_nat (id + 1)) as [b0 |]; [| done].
  injection Hb as ->. unfold onRec in Hf. apply bind_inv in Hf as (r' & Hf & _).
  eauto.
Qed.

(** An add-method appends the bytes of its entry to the page and counts
    it, when there is room for them on the page, and succeeds in that case
    only. *)
Lemma runAdd_ok c t b :
  0 <= curPageId t < 2 ^ 32 - 1 ->
  blocks (buddy t) !! pageIdx t = Some b -> rinv (rec b) ->
  room (Z.of_nat (length (entryBytes c))) (rec b) ->
  runAdd c t = Ok (withPage t b (put (entryBytes c) (rec b))).
Proof.
  intros Hid Hb Hr Hroom. rewrite runAdd_addWriter.
  destruct (writer_addWriter c (rec b) Hr) as [Hw _].
  by rewrite (updBlock_ok _ _ _ b (put (entryBytes c) (rec b))) by auto.
Qed.

Lemma runAdd_inv c t b t' :
  0 <= curPageId t < 2 ^ 32 - 1 ->
  blocks (buddy t) !! pageIdx t = Some b -> rinv (rec b) ->
  runAdd c t = Ok t' ->
  room (Z.of_nat (length (entryBytes c))) (rec b).
Proof.
  intros Hid Hb Hr H. rewrite runAdd_addWriter in H.
  apply bind_inv in H as (a & H & _).
  apply updBlock_inv in H as (b' & r' & Hb' & Hf); [| done].
  unfold pageIdx in Hb. rewrite Hb in Hb'. injection Hb' as <-.
  destruct (writer_addWriter c (rec b) Hr) as [_ Hw]. by apply (Hw r').
Qed.

Lemma length_entryBytes_ge c : (9 <= length (entryBytes c))%nat.
Proof.
  destruct c; unfold entryBytes, nameBytes;
    rewrite !length_app, ?length_be32; simpl; lia.
Qed.

(** A sequence of add-methods appends the bytes of its entries, one after
    the other, when there is room for them on the page, and succeeds in
    that case only. *)
Lemma pageOf_afterAdds cs t b :
  pageOf t b -> room (Z.of_nat (length (cs ≫= entryBytes))) (rec b) ->
  pageOf (afterAdds cs t b) (mkBlock (put (cs ≫= entryBytes) (rec b)) (addr b)).
Proof.
  intros (Hid & Hb & Hr & Hn) Hroom. unfold pageOf, afterAdds. simpl.
  split; [done |]. split; [| split].
  - apply list_lookup_insert_eq. by eapply lookup_lt_Some.
  - by apply rinv_put.
  - apply Z.mod_pos_bound. lia.
Qed.

Lemma afterAdds_nil t b : pageOf t b -> afterAdds [] t b = t.
Proof.
  intros (Hid & Hb & Hr & Hn). unfold afterAdds. simpl.
  rewrite put_nil by (by apply rinv_room_0).
  rewrite list_insert_id by (by destruct b).
  rewrite Z.add_0_r, u32_small by done. by destruct t as [[bs ca] n id].
Qed.

Lemma afterAdds_cons c cs t b :
  pageOf t b -> room (Z.of_nat (length ((c :: cs) ≫= entryBytes))) (rec b) ->
  afterAdds cs (afterAdds [c] t b)
    (mkBlock (put ([c] ≫= entryBytes) (rec b)) (addr b)) =
  afterAdds (c :: cs) t b.
Proof.
  intros (Hid & Hb & Hr & Hn) Hroom. unfold afterAdds, pageIdx.
  cbn [buddy blocks curAddr entryCount curPageId rec addr].
  assert (E1 : [c] ≫= entryBytes = entryBytes c) by (simpl; apply app_nil_r).
  rewrite bind_cons in *. rewrite E1.
  rewrite list_insert_insert_eq.
  rewrite length_app, Nat2Z.inj_add in Hroom. rewrite put_put by done.
  f_equal. unfold u32. rewrite Zplus_mod_idemp_l. f_equal.
  cbn [length]. lia.
Qed.

Lemma runAdds_spec cs : forall t b,
  pageOf t b ->
  (room (Z.of_nat (length (cs ≫= entryBytes))) (rec b) ->
     runAdds cs t = Ok (afterAdds cs t b)) /\
  (forall t', runAdds cs t = Ok t' ->
     room (Z.of_nat (length (cs ≫= entryBytes))) (rec b)).
Proof.
  induction cs as [| c cs IH]; intros t b Ht.
  - split.
    + intros _. simpl. by rewrite afterAdds_nil.
    + intros _ _. destruct Ht as (_ & _ & Hr & _). by apply rinv_room_0.
  - assert (H1 : room (Z.of_nat (length (entryBytes c))) (rec b) ->
        runAdd c t = Ok (afterAdds [c] t b)).
    { intros Hroom. destruct Ht as (Hid & Hb & Hr & Hn).
      rewrite (runAdd_ok c t b) by done. unfold withPage, afterAdds. simpl.
      by rewrite app_nil_r. }
    assert (Hlen : length ((c :: cs) ≫= entryBytes) =
                   (length (entryBytes c) + length (cs ≫= entryBytes))%nat)
      by (by rewrite bind_cons, length_app).
    assert (E1 : [c] ≫= entryBytes = entryBytes c) by (simpl; apply app_nil_r).
    split.
    + intros Hroom. cbn [runAdds].
      assert (Hroom1 : room (Z.of_nat (length (entryBytes c))) (rec b))
        by (eapply room_le; [done | lia]).
      rewrite H1 by done. cbn [bind].
      destruct (IH _ _ (pageOf_afterAdds [c] t b Ht ltac:(by rewrite E1)))
        as [IH1 _].
      rewrite IH1; [by rewrite afterAdds_cons |]. cbn [rec]. rewrite E1.
      apply room_put; [| lia]. eapply room_le; [exact Hroom | lia].
    + intros t' H. cbn [runAdds] in H. apply bind_inv in H as (t1 & Ha & Hs).
      assert (Hroom1 : room (Z.of_nat (length (entryBytes c))) (rec b)).
      { destruct Ht as (Hid & Hb & Hr & Hn). by eapply runAdd_inv. }
      rewrite H1 in Ha by done. injection Ha as <-.
      destruct (IH _ _ (pageOf_afterAdds [c] t b Ht ltac:(by rewrite E1)))
        as [_ IH2].
      apply IH2 in Hs. cbn [rec] in Hs. rewrite E1 in Hs.
      destruct Hroom1 as (? & ? & ?), Hs as (_ & Hs & _).
      unfold put in Hs. simpl in Hs. rewrite length_splice in Hs by lia.
      unfold room. lia.
Qed.

Lemma length_bind_entryBytes cs :
  (9 * length cs <= length (cs ≫= entryBytes))%nat.
Proof.
  induction cs as [| c cs IH]; [simpl; lia |].
  rewrite bind_cons, length_app. pose proof (length_entryBytes_ge c).
  simpl. lia.
Qed.

(** ** Reading back what was written *)

Lemma be16_value v :
  u8 (Z.shiftr (u16 v) 8) * 2 ^ 8 + u8 (u16 v) = u16 v.
Proof.
  unfold u8, u16. rewrite Z.shiftr_div_pow2 by lia.
  pose proof (Z.mod_pos_bound v (2 ^ 16) ltac:(lia)).
  change (2 ^ 8) with 256 in *. change (2 ^ 16) with 65536 in *.
  Z.div_mod_to_equations. lia.
Qed.

Lemma be32_value v :
  u8 (Z.shiftr (u32 v) 24) * 2 ^ 24 + u8 (Z.shiftr (u32 v) 16) * 2 ^ 16
    + u8 (Z.shiftr (u32 v) 8) * 2 ^ 8 + u8 (u32 v) = u32 v.
Proof.
  unfold u8, u32. rewrite !Z.shiftr_div_pow2 by lia.
  pose proof (Z.mod_pos_bound v (2 ^ 32) ltac:(lia)).
  change (2 ^ 8) with 256 in *. change (2 ^ 16) with 65536 in *.
  change (2 ^ 24) with 16777216 in *. change (2 ^ 32) with 4294967296 in *.
  Z.div_mod_to_equations. lia.
Qed.

Lemma get16_be16 d off v rest :
  0 <= off -> drop (Z.to_nat off) d = be16 v ++ rest ->
  get16 d off = Some (u16 v).
Proof.
  intros Ho H. unfold get16. rewrite H. unfold be16. simpl.
  by rewrite be16_value.
Qed.

Lemma get32_be32 d off v rest :
  0 <= off -> drop (Z.to_nat off) d = be32 v ++ rest ->
  get32 d off = Some (u32 v).
Proof.
  intros Ho H. unfold get32. rewrite H. unfold be32. simpl.
  by rewrite be32_value.
Qed.

Lemma drop_add_app d (o : Z) (bs rest : list Z) :
  0 <= o -> drop (Z.to_nat o) d = bs ++ rest ->
  drop (Z.to_nat (o + Z.of_nat (length bs))) d = rest.
Proof.
  intros Ho H. replace (Z.to_nat (o + Z.of_nat (length bs)))
    with (Z.to_nat o + length bs)%nat by lia.
  by rewrite <- drop_drop, H, drop_app_length.
Qed.

Lemma drop_app_bound d (o : Z) (bs rest : list Z) :
  0 <= o <= Z.of_nat (length d) -> drop (Z.to_nat o) d = bs ++ rest ->
  o + Z.of_nat (length bs) <= Z.of_nat (length d).
Proof.
  intros Ho H. apply (f_equal length) in H.
  rewrite length_drop, length_app in H. lia.
Qed.

Lemma drop_cons_bound d (o : Z) b (bs : list Z) :
  0 <= o -> drop (Z.to_nat o) d = b :: bs -> o < Z.of_nat (length d).
Proof.
  intros Ho H. apply (f_equal length) in H.
  rewrite length_drop in H. simpl in H. lia.
Qed.

Lemma getBytes_app d off bs rest :
  0 <= off <= Z.of_nat (length d) -> drop (Z.to_nat off) d = bs ++ rest ->
  getBytes d off (Z.of_nat (length bs)) = Some bs.
Proof.
  intros Ho H. unfold getBytes.
  pose proof (drop_app_bound _ _ _ _ Ho H) as Hlen.
  rewrite (proj2 (Z.leb_le _ _)) by lia.
  by rewrite H, Nat2Z.id, take_app_length.
Qed.

Lemma u16_char_to_u16 b : isByte b -> u16 (char_to_u16 b) = char_to_u16 b.
Proof.
  intros Hb. unfold char_to_u16. destruct (Z.ltb_spec b 128).
  - apply Z.mod_small. unfold isByte in Hb. lia.
  - unfold u16. apply Z.mod_mod. lia.
Qed.

Lemma readChars_ok cs : forall d off rest,
  0 <= off -> Forall isByte cs ->
  drop (Z.to_nat off) d = (cs ≫= fun c => be16 (char_to_u16 c)) ++ rest ->
  readChars (length cs) d off = Some (char_to_u16 <$> cs).
Proof.
  induction cs as [| c cs IH]; intros d off rest Ho Hcs H; [done |].
  apply Forall_cons in Hcs as [Hc Hcs].
  rewrite bind_cons, <- app_assoc in H. cbn [length readChars].
  rewrite (get16_be16 _ _ _ _ Ho H). cbn [mbind option_bind].
  apply (drop_add_app _ _ (be16 _)) in H; [| done]. rewrite length_be16 in H.
  rewrite (IH d (off + 2) rest) by (done || lia). cbn [mbind option_bind].
  by rewrite fmap_cons, u16_char_to_u16.
Qed.

Lemma getBytes_cons d off bs rest :
  0 <= off -> (0 < length bs)%nat -> drop (Z.to_nat off) d = bs ++ rest ->
  getBytes d off (Z.of_nat (length bs)) = Some bs.
Proof.
  intros Ho Hbs H. apply (getBytes_app _ _ _ rest); [| done].
  destruct bs as [| b bs]; [simpl in Hbs; lia |].
  pose proof (drop_cons_bound _ _ _ _ Ho H). lia.
Qed.

Lemma strBytes_cstr s : strlen s < 2 ^ 32 -> strBytes s = cstr s.
Proof.
  intros H. unfold strBytes. rewrite u32_small by (unfold strlen in *; lia).
  apply take_ge. unfold strlen. lia.
Qed.

Lemma length_chars_bytes (cs : list Z) :
  length (cs ≫= fun c => be16 (char_to_u16 c)) = (2 * length cs)%nat.
Proof.
  induction cs as [| c cs IH]; [done |].
  rewrite bind_cons, length_app, length_be16, IH. simpl. lia.
Qed.

Lemma readName_ok f d off rest :
  0 <= off -> strlen f < 2 ^ 32 ->
  drop (Z.to_nat off) d = nameBytes f ++ rest ->
  get32 d off = Some (strlen f) /\
  readChars (Z.to_nat (strlen f)) d (off + 4) = Some (codeUnits f) /\
  drop (Z.to_nat (off + 4 + 2 * strlen f)) d = rest.
Proof.
  intros Ho Hf H. unfold nameBytes in H. rewrite strBytes_cstr in H by done.
  assert (Hs : u32 (strlen f) = strlen f)
    by (apply u32_small; unfold strlen in *; lia).
  rewrite <- app_assoc in H. split; [| split].
  - rewrite (get32_be32 _ _ _ _ Ho H). by rewrite !Hs.
  - apply (drop_add_app _ _ (be32 _)) in H; [| done]. rewrite length_be32 in H.
    unfold strlen. rewrite Nat2Z.id.
    apply (readChars_ok _ _ _ rest); [lia | apply Forall_isByte_cstr | done].
  - apply (drop_add_app _ _ (be32 _)) in H; [| done]. rewrite length_be32 in H.
    apply drop_add_app in H; [| lia]. rewrite length_chars_bytes in H.
    rewrite <- H. f_equal. unfold strlen. lia.
Qed.

Lemma readTags_ok ty tag d off rest :
  0 <= off -> strlen ty = 4 -> strlen tag = 4 ->
  drop (Z.to_nat off) d = cstr ty ++ cstr tag ++ rest ->
  getBytes d off 4 = Some (cstr ty) /\
  getBytes d (off + 4) 4 = Some (cstr tag) /\
  drop (Z.to_nat (off + 8)) d = rest /\
  off + 8 <= Z.of_nat (length d).
Proof.
  intros Ho Hty Htag H. unfold strlen in *.
  pose proof (getBytes_cons d off (cstr ty) _ Ho ltac:(lia) H) as G1.
  rewrite Hty in G1. split; [done |].
  apply drop_add_app in H; [| done]. rewrite Hty in H.
  pose proof (getBytes_cons d (off + 4) (cstr tag) _ ltac:(lia) ltac:(lia) H)
    as G2.
  rewrite Htag in G2. split; [done |].
  assert (off + 4 < Z.of_nat (length d)).
  { destruct (cstr tag) as [| b bs] eqn:E; [simpl in Htag; lia |].
    eapply drop_cons_bound; [| exact H]. lia. }
  pose proof (drop_app_bound d (off + 4) _ _ ltac:(lia) H) as Hb.
  apply drop_add_app in H; [| lia]. rewrite Htag in H. rewrite Htag in Hb.
  replace (off + 4 + 4) with (off + 8) in * by lia. split; [done | lia].
Qed.

Lemma length_nameBytes f :
  strlen f < 2 ^ 32 ->
  Z.of_nat (length (nameBytes f)) = 4 + 2 * strlen f.
Proof.
  intros Hf. unfold nameBytes.
  rewrite length_app, length_chars_bytes, length_be32, strBytes_cstr by done.
  unfold strlen. lia.
Qed.

Lemma readEntry_ok c d off rest :
  0 <= off -> wfAdd c ->
  drop (Z.to_nat off) d = entryBytes c ++ rest ->
  readEntry d off = Some (entryOf c, off + Z.of_nat (length (entryBytes c))).
Proof.
  intros Ho Hwf H. unfold readEntry.
  destruct c as [f ty bytes | f ty v | f ty v]; cbn [wfAdd entryBytes] in *.
  - destruct Hwf as (Hf & Hty & Hbytes & Hlen).
    rewrite (strBytes_cstr ty) in * by lia. rewrite fmap_u8_bytes in * by done.
    rewrite <- !app_assoc in H.
    destruct (readName_ok f d off _ Ho Hf H) as (Hg & Hc & H1).
    rewrite Hg. cbn [mbind option_bind]. rewrite Hc.
    cbn [mbind option_bind]. clear H.
    assert (Ho1 : 0 <= off + 4 + 2 * strlen f) by (unfold strlen; lia).
    destruct (readTags_ok ty "blob" d _ _ Ho1 Hty eq_refl H1)
      as (G1 & G2 & H2 & Hb).
    rewrite G1. cbn [mbind option_bind]. rewrite G2. cbn [mbind option_bind].
    rewrite decide_True by done.
    rewrite (get32_be32 d (off + 4 + 2 * strlen f + 8) _ _ ltac:(lia) H2), u32_small by lia.
    cbn [mbind option_bind].
    pose proof (drop_app_bound d (off + 4 + 2 * strlen f + 8) (be32 _) _ ltac:(lia) H2) as Hb2.
    rewrite length_be32 in Hb2.
    apply (drop_add_app _ _ (be32 _)) in H2; [| lia]. rewrite length_be32 in H2.
    rewrite (getBytes_app d (off + 4 + 2 * strlen f + 8 + 4) _ _ ltac:(lia) H2).
    cbn [mbind option_bind].
    do 2 f_equal. rewrite !length_app, !Nat2Z.inj_add, length_nameBytes by done.
    rewrite length_be32. unfold strlen in *. simpl. lia.
  - destruct Hwf as (Hf & Hty).
    rewrite (strBytes_cstr ty) in * by lia.
    rewrite <- !app_assoc in H.
    destruct (readName_ok f d off _ Ho Hf H) as (Hg & Hc & H1).
    rewrite Hg. cbn [mbind option_bind]. rewrite Hc.
    cbn [mbind option_bind]. clear H.
    assert (Ho1 : 0 <= off + 4 + 2 * strlen f) by (unfold strlen; lia).
    destruct (readTags_ok ty "bool" d _ _ Ho1 Hty eq_refl H1)
      as (G1 & G2 & H2 & Hb).
    rewrite G1. cbn [mbind option_bind]. rewrite G2. cbn [mbind option_bind].
    rewrite decide_False by done. rewrite decide_True by done.
    unfold get8. rewrite <- (Nat.add_0_r (Z.to_nat _)), <- lookup_drop, H2.
    cbn [lookup list_lookup app mbind option_bind].
    do 2 f_equal. rewrite !length_app, !Nat2Z.inj_add, length_nameBytes by done.
    unfold strlen in *. simpl. lia.
  - destruct Hwf as (Hf & Hty).
    rewrite (strBytes_cstr ty) in * by lia.
    rewrite <- !app_assoc in H.
    destruct (readName_ok f d off _ Ho Hf H) as (Hg & Hc & H1).
    rewrite Hg. cbn [mbind option_bind]. rewrite Hc.
    cbn [mbind option_bind]. clear H.
    assert (Ho1 : 0 <= off + 4 + 2 * strlen f) by (unfold strlen; lia).
    destruct (readTags_ok ty "shor" d _ _ Ho1 Hty eq_refl H1)
      as (G1 & G2 & H2 & Hb).
    rewrite G1. cbn [mbind option_bind]. rewrite G2. cbn [mbind option_bind].
    rewrite decide_False by done. rewrite decide_False by done.
    rewrite decide_True by done.
    rewrite (get32_be32 d (off + 4 + 2 * strlen f + 8) _ _ ltac:(lia) H2).
    cbn [mbind option_bind].
    assert (Hv : u32 (u16 v) = u16 v).
    { apply u32_small. pose proof (Z.mod_pos_bound v (2 ^ 16) ltac:(lia)).
      unfold u16. lia. }
    rewrite Hv. do 2 f_equal.
    rewrite !length_app, !Nat2Z.inj_add, length_nameBytes by done.
    rewrite length_be32. unfold strlen in *. simpl. lia.
Qed.

Lemma readEntries_ok cs : forall d off rest,
  0 <= off -> Forall wfAdd cs ->
  drop (Z.to_nat off) d = (cs ≫= entryBytes) ++ rest ->
  readEntries (length cs) d off = Some (entryOf <$> cs).
Proof.
  induction cs as [| c cs IH]; intros d off rest Ho Hwf H; [done |].
  apply Forall_cons in Hwf as [Hc Hwf].
  rewrite bind_cons, <- app_assoc in H. cbn [length readEntries].
  rewrite (readEntry_ok c d off _ Ho Hc H). cbn [mbind option_bind].
  apply drop_add_app in H; [| done].
  rewrite (IH d _ rest) by (done || lia). done.
Qed.

(** ** The constructor of BTree and finish *)

Lemma room_newRec k n : 0 <= k <= n -> n < 2 ^ 32 -> room k (newRec n).
Proof.
  intros Hk Hn. unfold room, newRec. simpl. rewrite length_replicate. lia.
Qed.

Lemma rinv_newRec n : 0 <= n <= 2 ^ 31 -> rinv (newRec n).
Proof.
  intros Hn. unfold rinv, newRec. simpl. rewrite length_replicate. lia.
Qed.

Lemma data_put_newRec bs n :
  data (put bs (newRec n)) = bs ++ replicate (Z.to_nat n - length bs) 0.
Proof.
  unfold put, newRec, splice. simpl. by rewrite drop_replicate.
Qed.

Lemma insert_app_last {A} (l : list A) x y :
  <[length l := y]> (l ++ [x]) = l ++ [y].
Proof.
  rewrite <- (Nat.add_0_r (length l)). by rewrite insert_app_r.
Qed.

Lemma lookup_app_last {A} (l : list A) x : (l ++ [x]) !! length l = Some x.
Proof. rewrite lookup_app_r by lia. by rewrite Nat.sub_diag. Qed.

Lemma newBTree_ok a :
  (1 <= length (blocks a))%nat -> Z.of_nat (length (blocks a)) < 2 ^ 32 - 1 ->
  newBTree a = Ok (newTree a).
Proof.
  intros H1 H2. unfold newBTree, allocateBlock.
  change (powerOf2Ceil 2048) with 2048. cbv zeta.
  rewrite length_app. cbn [length].
  replace (u32 (Z.of_nat (length (blocks a) + 1) - 2))
    with (Z.of_nat (length (blocks a)) - 1) by (rewrite u32_small; lia).
  assert (Hi : Z.to_nat (Z.of_nat (length (blocks a)) - 1 + 1) = length (blocks a))
    by lia.
  erewrite updBlock_ok; [| lia | cbn [blocks]; rewrite Hi; apply lookup_app_last |].
  - cbn [bind blocks curAddr]. rewrite Hi, insert_app_last. done.
  - cbn [rec newBlock].
    destruct (writer_bind _ _ _ _ (writer_writeInt32 0) (writer_writeInt32 0)
                (newRec 2048)) as [Hw _]; [by apply rinv_newRec |].
    apply Hw. by apply room_newRec.
Qed.

Lemma pageOf_newTree a :
  (1 <= length (blocks a))%nat -> Z.of_nat (length (blocks a)) < 2 ^ 32 - 1 ->
  pageOf (newTree a) (newPage a).
Proof.
  intros H1 H2. unfold pageOf, newTree, pageIdx, newPage. simpl.
  split; [lia |]. split; [| split; [| lia]].
  - replace (Z.to_nat (Z.of_nat (length (blocks a)) - 1 + 1))
      with (length (blocks a)) by lia. apply lookup_app_last.
  - apply rinv_put; [by apply rinv_newRec | by apply room_newRec].
Qed.

Lemma writer_master root n :
  writer (fun master =>
            do master <- writeInt32 root master;
            do master <- writeInt32 0 master;
            do master <- writeInt32 n master;
            do master <- writeInt32 1 master;
            writeInt32 4096 master) (masterBytes root n).
Proof.
  unfold masterBytes.
  repeat (apply (writer_bind (writeInt32 _)); [apply writer_writeInt32 |]).
  apply writer_writeInt32.
Qed.

Lemma finish_ok t b :
  pageOf t b -> 8 <= Z.of_nat (length (data (rec b))) ->
  Z.of_nat (length (blocks (buddy t))) < 2 ^ 32 - 1 ->
  finish t = Ok (Z.of_nat (length (blocks (buddy t))) - 1, afterFinish t b).
Proof.
  intros (Hid & Hb & [Hc Hl] & Hn) H8 Hlen. unfold finish.
  assert (1 <= length (blocks (buddy t)))%nat.
  { apply lookup_lt_Some in Hb. lia. }
  erewrite updBlock_ok; [| done | exact Hb |]; cycle 1.
  { apply writeInt32_put. unfold room, seek. simpl.
    change (u32 4) with 4. lia. }
  cbn [bind]. unfold allocateBlock. change (powerOf2Ceil 20) with 32.
  cbv zeta. cbn [blocks curAddr]. rewrite length_app, length_insert.
  cbn [length].
  replace (u32 (Z.of_nat (length (blocks (buddy t)) + 1) - 2))
    with (Z.of_nat (length (blocks (buddy t))) - 1) by (rewrite u32_small; lia).
  assert (Hi : Z.to_nat (Z.of_nat (length (blocks (buddy t))) - 1 + 1)
               = length (<[Z.to_nat (curPageId t + 1) :=
                            mkBlock (put (be32 (entryCount t)) (seek 4 (rec b)))
                                    (addr b)]> (blocks (buddy t))))
    by (rewrite length_insert; lia).
  erewrite updBlock_ok; [| lia | cbn [blocks]; rewrite Hi; apply lookup_app_last |].
  - cbn [bind blocks curAddr]. rewrite Hi, insert_app_last. done.
  - cbn [rec newBlock].
    destruct (writer_master (curPageId t) (entryCount t) (newRec 32)) as [Hw _];
      [by apply rinv_newRec |].
    apply Hw. by apply room_newRec.
Qed.

Lemma length_data_put bs r :
  room (Z.of_nat (length bs)) r -> length (data (put bs r)) = length (data r).
Proof. intros (H0 & H1 & H2). unfold put. simpl. apply length_splice. lia. Qed.

Lemma length_data_newPage a : length (data (rec (newPage a))) = 2048%nat.
Proof.
  unfold newPage. cbn [rec]. rewrite length_data_put.
  - unfold newRec. cbn [data]. by rewrite length_replicate.
  - by apply room_newRec.
Qed.

Lemma curOffset_newPage a : curOffset (rec (newPage a)) = 8.
Proof. done. Qed.

(** The bytes of the page after the calls [cs] and [finish], the entry
    count being [n]. *)
Lemma leaf_data a cs n :
  room (Z.of_nat (length (cs ≫= entryBytes))) (rec (newPage a)) ->
  data (put (be32 n) (seek 4 (put (cs ≫= entryBytes) (rec (newPage a))))) =
    be32 0 ++ be32 n ++ (cs ≫= entryBytes)
      ++ replicate (2040 - length (cs ≫= entryBytes)) 0.
Proof.
  intros Hroom. unfold newPage in *. cbn [rec] in *.
  rewrite put_put; cycle 1.
  { destruct Hroom as (H0 & H1 & H2).
    pose proof (length_data_put (be32 0 ++ be32 0) (newRec 2048)
                  ltac:(by apply room_newRec)) as HL.
    rewrite HL in H1. unfold newRec in H1. cbn [data put curOffset] in H1.
    rewrite length_replicate in H1. rewrite length_app, !length_be32 in *.
    apply room_newRec; lia. }
  unfold put at 1. cbn [data seek curOffset]. change (Z.to_nat (u32 4)) with 4%nat.
  rewrite data_put_newRec, <- !app_assoc.
  change 4%nat with (length (be32 0)) at 1.
  rewrite (splice_app (be32 0) (be32 0)) by done.
  by do 3 f_equal.
Qed.

Lemma get32_leaf_count d n rest :
  d = be32 0 ++ be32 n ++ rest -> get32 d 4 = Some (u32 n).
Proof.
  intros ->. apply (get32_be32 _ _ _ rest); [lia |].
  by rewrite (drop_app_length' (be32 0)) by done.
Qed.

(** The entries of the page after the calls [cs] and [finish] are those
    the calls were to append. *)
Lemma readLeaf_leaf d cs rest :
  Forall wfAdd cs -> Z.of_nat (length cs) < 2 ^ 32 ->
  d = be32 0 ++ be32 (Z.of_nat (length cs)) ++ (cs ≫= entryBytes) ++ rest ->
  readLeaf d = Some (entryOf <$> cs).
Proof.
  intros Hwf Hlen Hd. unfold readLeaf.
  rewrite (get32_be32 d 0 0 (be32 (Z.of_nat (length cs)) ++ (cs ≫= entryBytes) ++ rest))
    by (done || lia).
  cbn [mbind option_bind]. rewrite decide_True by done.
  rewrite (get32_leaf_count d _ _ Hd), u32_small by lia.
  cbn [mbind option_bind]. rewrite Nat2Z.id.
  apply (readEntries_ok cs d 8 rest); [lia | done |].
  rewrite Hd. rewrite !app_assoc, <- (app_assoc _ _ rest).
  by rewrite drop_app_length' by done.
Qed.

(** What the calls [cs], made on the tree newly constructed on [a], lead
    to, when they succeed. *)
Lemma runAdds_newTree a cs t :
  (1 <= length (blocks a))%nat -> Z.of_nat (length (blocks a)) < 2 ^ 32 - 1 ->
  runAdds cs (newTree a) = Ok t ->
  room (Z.of_nat (length (cs ≫= entryBytes))) (rec (newPage a)) /\
  t = afterAdds cs (newTree a) (newPage a) /\
  Z.of_nat (length cs) <= 226 /\
  entryCount t = Z.of_nat (length cs).
Proof.
  intros H1 H2 H. pose proof (pageOf_newTree a H1 H2) as Hp.
  destruct (runAdds_spec cs _ _ Hp) as [Hok Hinv].
  pose proof (Hinv _ H) as Hroom. rewrite Hok in H by done.
  injection H as <-. split; [done |]. split; [done |].
  assert (Hn : Z.of_nat (length cs) <= 226).
  { destruct Hroom as (_ & Hr & _).
    rewrite curOffset_newPage, length_data_newPage in Hr.
    pose proof (length_bind_entryBytes cs). lia. }
  split; [done |]. unfold afterAdds, newTree. cbn [entryCount].
  rewrite u32_small; lia.
Qed.

(** The page and the master block in the tree after [finish]. *)
Lemma afterFinish_blocks t b :
  pageOf t b -> Z.of_nat (length (blocks (buddy t))) < 2 ^ 32 - 1 ->
  let master := Z.of_nat (length (blocks (buddy t))) - 1 in
  let m := mkBlock (put (masterBytes (curPageId t) (entryCount t)) (newRec 32))
                   (curAddr (buddy t)) in
  getBlock (curPageId t) (buddy (afterFinish t b)) =
    Ok (mkBlock (put (be32 (entryCount t)) (seek 4 (rec b))) (addr b)) /\
  getBlock master (buddy (afterFinish t b)) = Ok m /\
  pageOf (afterFinish t b) m.
Proof.
  intros (Hid & Hb & Hr & Hn) Hlen master m.
  pose proof (lookup_lt_Some _ _ _ Hb) as Hlt. unfold pageIdx in *.
  assert (Hlast : forall x : Block,
    (<[Z.to_nat (curPageId t + 1) := x]> (blocks (buddy t)) ++ [m])
      !! Z.to_nat (master + 1) = Some m).
  { intros x. replace (Z.to_nat (master + 1))
      with (length (<[Z.to_nat (curPageId t + 1) := x]> (blocks (buddy t))))
      by (rewrite length_insert; unfold master; lia).
    apply lookup_app_last. }
  split; [| split].
  - rewrite getBlock_at by done. unfold afterFinish, at_, pageIdx.
    cbn [buddy blocks].
    rewrite lookup_app_l by (by rewrite length_insert).
    by rewrite list_lookup_insert_eq.
  - rewrite getBlock_at by (unfold master; lia). unfold afterFinish, at_, pageIdx.
    cbn [buddy blocks]. fold master. fold m. by rewrite Hlast.
  - unfold pageOf, afterFinish, pageIdx. cbn [buddy blocks curPageId entryCount].
    fold master. fold m. split; [unfold master; lia |].
    split; [apply Hlast |]. split; [| done].
    apply rinv_put; [by apply rinv_newRec | by apply room_newRec].
Qed.

(** ** createMetaDataBlock *)

Arguments buckets : simpl never.

Lemma getLog2_ok x : 0 < x < 2 ^ 32 -> getLog2 (u32 x) = Ok (Z.log2 x).
Proof.
  intros Hx. rewrite u32_small by lia. unfold getLog2, builtin_clz.
  destruct (Z.eqb_spec x 0); [lia |]. simpl. f_equal.
  pose proof (Z.log2_nonneg x).
  assert (Z.log2 x < 32) by (apply Z.log2_lt_pow2; lia).
  rewrite u32_small; lia.
Qed.

Lemma length_tableFrom n : forall bs, length (tableFrom n bs) = (4 * n)%nat.
Proof.
  induction n as [| n IH]; intros bs; [done |].
  destruct bs as [| b bs]; cbn [tableFrom];
    rewrite length_app, length_be32, IH; lia.
Qed.

(** A write through the reference to block [i]. *)
Lemma updAt_put i f w bs b :
  bs !! i = Some b -> writer f w -> rinv (rec b) ->
  room (Z.of_nat (length w)) (rec b) ->
  updAt i f bs = Ok (<[i := mkBlock (put w (rec b)) (addr b)]> bs).
Proof.
  intros Hb Hw Hr Hroom. apply updAt_ok; [done |].
  destruct (Hw _ Hr) as [H _]. by apply H.
Qed.

Lemma size_put w b a :
  room (Z.of_nat (length w)) (rec b) -> size (mkBlock (put w (rec b)) a) = size b.
Proof. intros H. unfold size. cbn [rec]. by rewrite length_data_put. Qed.

Lemma tableLoop_ok n : forall i bs m,
  0 <= i -> i + Z.of_nat n <= 256 ->
  bs !! 1%nat = Some m -> rinv (rec m) -> room (4 * Z.of_nat n) (rec m) ->
  Forall slotOk (drop (Z.to_nat (i + 1)) bs) ->
  tableLoop n i bs =
    Ok (<[1%nat := mkBlock (put (tableFrom n (drop (Z.to_nat (i + 1)) bs)) (rec m))
                           (addr m)]> bs).
Proof.
  induction n as [| n IH]; intros i bs m Hi Hn Hm Hr Hroom Hok.
  - cbn [tableLoop tableFrom]. rewrite put_nil by (by apply rinv_room_0).
    rewrite list_insert_id; [done |]. rewrite Hm. by destruct m.
  - cbn [tableLoop]. rewrite (u32_small (i + 1)) by lia.
    assert (Hlt : (1 < length bs)%nat) by (by eapply lookup_lt_Some).
    assert (Hnext : forall w,
      room (Z.of_nat (length w) + 4 * Z.of_nat n) (rec m) ->
      length w = 4%nat ->
      tableLoop n (i + 1) (<[1%nat := mkBlock (put w (rec m)) (addr m)]> bs) =
      Ok (<[1%nat := mkBlock
              (put (w ++ tableFrom n (drop (Z.to_nat (i + 1 + 1)) bs)) (rec m))
              (addr m)]> bs)).
    { intros w Hw Hlw.
      rewrite (IH (i + 1) _ (mkBlock (put w (rec m)) (addr m)));
        [| lia | lia | by apply list_lookup_insert_eq | | |].
      - rewrite list_insert_insert_eq. cbn [rec addr].
        rewrite drop_insert_lt by lia.
        rewrite put_put; [done |]. rewrite length_tableFrom.
        eapply room_le; [exact Hw | lia].
      - cbn [rec]. apply rinv_put; [done |]. eapply room_le; [exact Hw | lia].
      - cbn [rec]. apply room_put; [| lia]. eapply room_le; [exact Hw | lia].
      - rewrite drop_insert_lt by lia.
        replace (Z.to_nat (i + 1 + 1)) with (Z.to_nat (i + 1) + 1)%nat by lia.
        rewrite <- drop_drop. by apply Forall_drop. }
    destruct (Z.ltb_spec i (Z.of_nat (length bs) - 1)) as [Hin | Hout].
    + destruct (lookup_lt_is_Some_2 bs (Z.to_nat (i + 1)) ltac:(lia)) as [b Hb].
      rewrite Hb.
      assert (Hd : drop (Z.to_nat (i + 1)) bs = b :: drop (Z.to_nat (i + 1 + 1)) bs).
      { rewrite (drop_S _ _ _ Hb). do 2 f_equal. lia. }
      rewrite Hd in Hok |- *. apply Forall_cons in Hok as [[Hsz Hal] _].
      rewrite getLog2_ok by done. cbn [bind].
      destruct (Z.eqb_spec (Z.land (getAddr b) 31) 0); [| done]. cbn [assert bind].
      rewrite (updAt_put _ _ (be32 (Z.lor (getAddr b) (Z.log2 (size b)))) _ m)
        by (done || apply writer_writeInt32 || (eapply room_le; [done |]; rewrite length_be32; lia)).
      cbn [bind]. rewrite Hnext; [done | | done].
      eapply room_le; [done |]. rewrite length_be32. lia.
    + rewrite (updAt_put _ _ (be32 0) _ m)
        by (done || apply writer_writeInt32 || (eapply room_le; [done |]; rewrite length_be32; lia)).
      cbn [bind]. rewrite Hnext; [| | done].
      * rewrite !(drop_ge bs) by lia. done.
      * eapply room_le; [done |]. rewrite length_be32. lia.
Qed.

(** A method called through a reference to block [i], after the bytes [W]
    were written through it. *)
Lemma ref_step (i : nat) f w W (bs : list Block) b :
  bs !! i = Some b -> rinv (rec b) -> writer f w ->
  room (Z.of_nat (length W) + Z.of_nat (length w)) (rec b) ->
  updAt i f (<[i := mkBlock (put W (rec b)) (addr b)]> bs) =
    Ok (<[i := mkBlock (put (W ++ w) (rec b)) (addr b)]> bs).
Proof.
  intros Hb Hr Hw Hroom.
  rewrite (updAt_put i f w _ (mkBlock (put W (rec b)) (addr b))).
  - rewrite list_insert_insert_eq. cbn [rec addr]. by rewrite put_put.
  - apply list_lookup_insert_eq. by eapply lookup_lt_Some.
  - done.
  - cbn [rec]. apply rinv_put; [done |]. eapply room_le; [done | lia].
  - cbn [rec]. apply room_put; [done | lia].
Qed.

Lemma ref_start (i : nat) (bs : list Block) b :
  bs !! i = Some b -> rinv (rec b) ->
  bs = <[i := mkBlock (put [] (rec b)) (addr b)]> bs.
Proof.
  intros Hb Hr. rewrite put_nil by (by apply rinv_room_0).
  rewrite list_insert_id; [done |]. rewrite Hb. by destruct b.
Qed.

Lemma tableFrom_head n b b' l :
  getAddr b = getAddr b' -> size b = size b' ->
  tableFrom n (b :: l) = tableFrom n (b' :: l).
Proof. intros Ha Hs. destruct n; [done |]. cbn [tableFrom]. by rewrite Ha, Hs. Qed.

Lemma createMetaDataBlock_ok id a h m rest :
  blocks a = h :: m :: rest ->
  rinv (rec h) -> room 16 (rec h) -> rinv (rec m) -> room 1301 (rec m) ->
  Forall slotOk (m :: rest) -> 0 <= curAddr a < 2 ^ 32 ->
  createMetaDataBlock id a =
    Ok (mkBuddy
          (mkBlock (put (headerBytes m) (rec h)) (addr h)
           :: mkBlock (put (metaBytes id (m :: rest) (curAddr a)) (rec m)) (addr m)
           :: rest) 0).
Proof.
  intros Hbs Hrh Hroomh Hrm Hroomm Hok Hcur. unfold createMetaDataBlock.
  rewrite Hbs. cbv zeta. set (bs0 := h :: m :: rest).
  assert (Hm : bs0 !! 1%nat = Some m) by done.
  assert (Hh : bs0 !! 0%nat = Some h) by done.
  change (at_ bs0 1) with (Ok m). cbn [bind].
  replace (Z.of_nat (length bs0) - 1) with (Z.of_nat (length (m :: rest)))
    by (unfold bs0; cbn [length]; lia).
  rewrite (ref_start 1 bs0 m Hm Hrm) at 1.
  rewrite (ref_step 1 _ (be32 (Z.of_nat (length (m :: rest)))) [] bs0 m)
    by (done || apply writer_writeInt32 || solve_room). cbn [bind].
  rewrite (ref_step 1 _ (be32 0) _ bs0 m)
    by (done || apply writer_writeInt32 || solve_room). cbn [bind].
  set (W := [] ++ be32 (Z.of_nat (length (m :: rest))) ++ be32 0).
  assert (HW : length W = 8%nat) by done.
  rewrite <- app_assoc. fold W.
  set (M1 := mkBlock (put W (rec m)) (addr m)).
  rewrite (tableLoop_ok 256 0 _ M1); [| lia | lia | | | |]; cycle 1.
  { apply list_lookup_insert_eq. unfold bs0. simpl. lia. }
  { apply rinv_put; [done |]. rewrite HW. solve_room. }
  { apply room_put; [| lia]. rewrite HW. solve_room. }
  { change (drop (Z.to_nat (0 + 1)) (<[1%nat := M1]> bs0)) with (M1 :: rest).
    apply Forall_cons in Hok as [[Hs Ha] Hrest]. apply Forall_cons.
    split; [| done]. split; [| done]. unfold M1.
    rewrite size_put; [done |]. rewrite HW. solve_room. }
  cbn [bind]. rewrite list_insert_insert_eq.
  change (drop (Z.to_nat (0 + 1)) (<[1%nat := M1]> bs0)) with (M1 :: rest).
  rewrite (tableFrom_head 256 M1 m) by
    (done || (unfold M1; rewrite size_put; [done | rewrite HW; solve_room])).
  unfold M1 at 1. cbn [rec addr].
  pose proof (length_tableFrom 256 (m :: rest)) as HT.
  rewrite put_put by (rewrite HW, HT; solve_room).
  rewrite (ref_step 1 _ (be32 1) _ bs0 m)
    by (done || apply writer_writeInt32
        || (rewrite length_app, HW, HT, length_be32; solve_room)).
  cbn [bind].
  rewrite (ref_step 1 _ [u8 4] _ bs0 m)
    by (done || apply writer_writeInt8
        || (rewrite !length_app, HW, HT, length_be32; simpl; solve_room)).
  cbn [bind].
  rewrite (ref_step 1 _ (strBytes "DSDB") _ bs0 m)
    by (done || apply writer_writeStr
        || (rewrite !length_app, HW, HT, length_be32; simpl; solve_room)).
  cbn [bind].
  rewrite (ref_step 1 _ (be32 id) _ bs0 m)
    by (done || apply writer_writeInt32
        || (rewrite !length_app, HW, HT, !length_be32; simpl; solve_room)).
  cbn [bind].
  set (W2 := ((((W ++ tableFrom 256 (m :: rest)) ++ be32 1) ++ [u8 4])
               ++ strBytes "DSDB") ++ be32 id).
  assert (HW2 : length W2 = 1045%nat).
  { unfold W2. rewrite !length_app, HW, HT, !length_be32. done. }
  rewrite (freeListLoop_ok 32 0 (curAddr a) _ (mkBlock (put W2 (rec m)) (addr m)));
    [| lia | lia | apply list_lookup_insert_eq; unfold bs0; simpl; lia |];
    cycle 1.
  { cbn [rec]. apply room_put; [| lia]. rewrite HW2. solve_room. }
  cbn [bind]. rewrite buckets_end by (rewrite ?Z.pow_0_r, ?Z.mod_1_r; lia).
  cbn [assert Z.eqb bind]. rewrite list_insert_insert_eq. cbn [rec addr].
  pose proof (length_bucketBytes (buckets 32 0 (curAddr a)).1) as HB.
  rewrite length_buckets in HB.
  rewrite put_put by (rewrite HW2; solve_room).
  set (Mf := mkBlock _ (addr m)).
  change (at_ (<[1%nat := Mf]> bs0) 0) with (Ok h).
  change (at_ (<[1%nat := Mf]> bs0) 1) with (Ok Mf). cbn [bind].
  assert (HMf : getAddr Mf = getAddr m /\ size Mf = size m).
  { split; [done |]. unfold Mf. rewrite size_put; [done |].
    rewrite length_app, HW2. solve_room. }
  destruct HMf as [-> ->].
  assert (Hh' : (<[1%nat := Mf]> bs0) !! 0%nat = Some h) by done.
  rewrite (ref_start 0 (<[1%nat := Mf]> bs0) h Hh' Hrh) at 1.
  rewrite (ref_step 0 _ (strBytes "Bud1") [] _ h)
    by (done || apply writer_writeStr || (simpl; solve_room)).
  cbn [bind].
  rewrite (ref_step 0 _ (be32 (getAddr m)) _ _ h)
    by (done || apply writer_writeInt32 || (simpl; solve_room)).
  cbn [bind].
  rewrite (ref_step 0 _ (be32 (size m)) _ _ h)
    by (done || apply writer_writeInt32
        || (rewrite !length_app, !length_be32; simpl; solve_room)).
  cbn [bind].
  rewrite (ref_step 0 _ (be32 (getAddr m)) _ _ h)
    by (done || apply writer_writeInt32
        || (rewrite !length_app, !length_be32; simpl; solve_room)).
  cbn [bind]. unfold bs0. cbn [insert list_insert].
  assert (E1 : ((([] ++ strBytes "Bud1") ++ be32 (getAddr m)) ++ be32 (size m))
                 ++ be32 (getAddr m) = headerBytes m).
  { unfold headerBytes. change (strBytes "Bud1") with (cstr "Bud1").
    rewrite app_nil_l, <- !app_assoc. reflexivity. }
  assert (E2 : W2 ++ ((buckets 32 0 (curAddr a)).1 ≫= bucketBytes)
               = metaBytes id (m :: rest) (curAddr a)).
  { unfold metaBytes, W2, W. change (strBytes "DSDB") with (cstr "DSDB").
    change (u8 4) with 4. rewrite app_nil_l, <- !app_assoc. reflexivity. }
  unfold Mf. rewrite E1, E2. reflexivity.
Qed.

(** ** The table of the metadata block *)

Lemma land_small k : 0 <= k < 32 -> Z.land k 31 = k.
Proof.
  intros Hk. change 31 with (Z.ones 5). rewrite Z.land_ones by lia.
  apply Z.mod_small. change (2 ^ 5) with 32. lia.
Qed.

Lemma testbit_small k i : 0 <= k < 32 -> 5 <= i -> Z.testbit k i = false.
Proof.
  intros Hk Hi. destruct (decide (k = 0)) as [-> | Hne]; [apply Z.bits_0 |].
  apply Z.bits_above_log2; [lia |].
  assert (Z.log2 k < 5); [| lia]. apply Z.log2_lt_pow2; [lia |].
  change (2 ^ 5) with 32. lia.
Qed.

Lemma testbit_31 i : 0 <= i -> Z.testbit 31 i = (i <? 5).
Proof.
  intros Hi. change 31 with (Z.ones 5).
  destruct (Z.ltb_spec i 5).
  - apply Z.ones_spec_low. lia.
  - apply Z.ones_spec_high. lia.
Qed.

Lemma decodeSlot_lor a k :
  0 <= a < 2 ^ 32 -> Z.land a 31 = 0 -> 0 <= k <= 31 ->
  decodeSlot (u32 (Z.lor a k)) = (a, 2 ^ k).
Proof.
  intros Ha Hal Hk. unfold decodeSlot.
  assert (Hbits : forall i, 0 <= i < 5 -> Z.testbit a i = false).
  { intros i Hi. apply (f_equal (fun x => Z.testbit x i)) in Hal.
    rewrite Z.land_spec, testbit_31, Z.bits_0 in Hal by lia.
    destruct (Z.ltb_spec i 5); [| lia]. by rewrite andb_true_r in Hal. }
  assert (Hlor : 0 <= Z.lor a k < 2 ^ 32).
  { split; [apply Z.lor_nonneg; lia |].
    destruct (decide (Z.lor a k = 0)) as [-> | Hne]; [lia |].
    apply Z.log2_lt_pow2; [pose proof (Z.lor_nonneg a k); lia |].
    rewrite Z.log2_lor by lia.
    destruct (decide (a = 0)) as [-> | Hna].
    - change (Z.log2 0) with 0. pose proof (Z.log2_nonneg k).
      assert (Z.log2 k < 32); [| lia].
      destruct (decide (k = 0)) as [-> | Hnk]; [done |].
      apply Z.log2_lt_pow2; lia.
    - assert (Z.log2 a < 32) by (apply Z.log2_lt_pow2; lia).
      assert (Z.log2 k < 32).
      { destruct (decide (k = 0)) as [-> | Hnk]; [done |].
        apply Z.log2_lt_pow2; lia. }
      lia. }
  rewrite u32_small by done. f_equal.
  - apply Z.bits_inj'. intros i Hi.
    rewrite Z.land_spec, Z.lor_spec, Z.lnot_spec, testbit_31 by done.
    destruct (Z.ltb_spec i 5).
    + rewrite Hbits by lia. by rewrite andb_false_r.
    + rewrite (testbit_small k) by lia. by rewrite orb_false_r, andb_true_r.
  - f_equal. rewrite Z.land_lor_distr_l, Hal, Z.lor_0_l. apply land_small. lia.
Qed.

Lemma readSlots_ok bs : forall n d off rest,
  0 <= off -> (length bs <= n)%nat ->
  Forall (fun b => blockShape b /\ Z.land (getAddr b) 0x1f = 0) bs ->
  drop (Z.to_nat off) d = tableFrom n bs ++ rest ->
  readSlots (length bs) d off = Some (extent <$> bs).
Proof.
  induction bs as [| b bs IH]; intros n d off rest Ho Hn Hok H; [done |].
  destruct n as [| n]; [simpl in Hn; lia |].
  apply Forall_cons in Hok as [[[Ha (k & Hk & Hs)] Hal] Hok].
  cbn [tableFrom length readSlots] in *. rewrite <- app_assoc in H.
  rewrite (get32_be32 _ _ _ _ Ho H). cbn [mbind option_bind].
  apply (drop_add_app _ _ (be32 _)) in H; [| done]. rewrite length_be32 in H.
  rewrite (IH n d (off + 4) rest) by (done || lia). cbn [mbind option_bind].
  rewrite fmap_cons. do 2 f_equal. rewrite Hs, Z.log2_pow2 by lia.
  unfold extent. rewrite Hs. apply decodeSlot_lor; [done | done | lia].
Qed.

Lemma get32_tableFrom_zero n : forall bs d off rest i,
  0 <= off -> drop (Z.to_nat off) d = tableFrom n bs ++ rest ->
  (length bs <= i < n)%nat ->
  get32 d (off + 4 * Z.of_nat i) = Some 0.
Proof.
  induction n as [| n IH]; intros bs d off rest i Ho H Hi; [lia |].
  destruct i as [| i].
  - destruct bs as [| b bs]; [| simpl in Hi; lia]. cbn [tableFrom] in H.
    rewrite <- app_assoc in H. rewrite Z.mul_0_r, Z.add_0_r.
    by rewrite (get32_be32 _ _ _ _ Ho H).
  - assert (exists x, tableFrom (S n) bs = be32 x ++ tableFrom n (tail bs))
      as [x Hx] by (destruct bs; cbn [tableFrom tail]; eauto).
    rewrite Hx, <- app_assoc in H.
    apply (drop_add_app _ _ (be32 _)) in H; [| done]. rewrite length_be32 in H.
    replace (off + 4 * Z.of_nat (S i)) with (off + 4 + 4 * Z.of_nat i) by lia.
    apply (IH (tail bs) d (off + 4) rest); [lia | done |].
    destruct bs; simpl in *; lia.
Qed.

(** Allocations of valid sizes keep the blocks in shape. *)
Lemma blockShape_newBlock a n :
  0 <= a < 2 ^ 32 -> 1 <= n <= 2 ^ 31 ->
  blockShape (newBlock a (powerOf2Ceil n)).
Proof.
  intros Ha Hn. destruct (powerOf2Ceil_spec n Hn) as [[(k & Hk & Hp) _] Hr].
  split; [done |]. rewrite size_newBlock by lia. exists k. split; [| done].
  split; [done |]. rewrite Hp in Hr.
  destruct (decide (k <= 31)); [done |].
  assert (2 ^ 31 < 2 ^ k) by (apply Z.pow_lt_mono_r; lia). lia.
Qed.

Lemma allocateAll_cons_2 sz sizes a :
  (allocateAll (sz :: sizes) a).2 = (allocateAll sizes (allocateBlock sz a).2).2.
Proof.
  cbn [allocateAll]. destruct (allocateBlock sz a) as [id a1]. cbn [snd].
  by destruct (allocateAll sizes a1).
Qed.

Lemma allocateAll_shape sizes : forall a,
  Forall (fun n => 1 <= n <= 2 ^ 31) sizes ->
  Forall blockShape (blocks a) -> 0 <= curAddr a < 2 ^ 32 ->
  Forall blockShape (blocks (allocateAll sizes a).2) /\
  0 <= curAddr (allocateAll sizes a).2 < 2 ^ 32.
Proof.
  induction sizes as [| sz sizes IH]; intros a Hsz Hsh Hcur; [done |].
  apply Forall_cons in Hsz as [Hn Hsz]. rewrite allocateAll_cons_2.
  apply IH; [done | |]; unfold allocateBlock; cbn [snd blocks curAddr].
  - apply Forall_app. split; [done |]. apply Forall_singleton.
    by apply blockShape_newBlock.
  - apply Z.mod_pos_bound. lia.
Qed.

Lemma extent_put_eq w b a :
  room (Z.of_nat (length w)) (rec b) ->
  extent (mkBlock (put w (rec b)) a) = (a, size b).
Proof. intros H. unfold extent. by rewrite size_put. Qed.

(** C4 (as amended): after any sequence of valid allocations on a newly
    constructed allocator that leaves at most 256 blocks besides the
    header block, each at an address that is a multiple of 32 (which
    [createMetaDataBlock] asserts), [createMetaDataBlock] completes, and
    decoding the table it writes into the metadata block (the count, then
    entry [i] holding [address | log2(size)]) reproduces the address and
    the size of each block of the allocator except the header block, that
    is, of the blocks of ids 0, 1, ...; the slots that are left hold
    zero. *)
Theorem table_decodes_to_blocks (sizes : list Z) (id : Z) :
  Forall (fun n => 1 <= n <= 2 ^ 31) sizes ->
  (length sizes < 256)%nat ->
  Forall (fun b => Z.land (getAddr b) 0x1f = 0)
         (blocks (allocateAll sizes newBuddy).2) ->
  exists a' metaData,
    createMetaDataBlock id (allocateAll sizes newBuddy).2 = Ok a' /\
    getBlock 0 a' = Ok metaData /\
    decodeTable (data (rec metaData)) =
      Some (extent <$> drop 1 (blocks (allocateAll sizes newBuddy).2)) /\
    extent <$> drop 1 (blocks a') =
      extent <$> drop 1 (blocks (allocateAll sizes newBuddy).2) /\
    forall i, Z.of_nat (length sizes) + 1 <= i < 256 ->
      get32 (data (rec metaData)) (8 + 4 * i) = Some 0.
Proof.
  intros Hsz Hlen Hal.
  destruct (allocateAll_blocks sizes newBuddy) as (rest & Hbs & Hrest).
  destruct (allocateAll_shape sizes newBuddy Hsz) as [Hsh Hcur].
  { change (blocks newBuddy) with [newBlock 0 32; newBlock 32 2048].
    apply Forall_cons. split; [| apply Forall_singleton].
    - split; [simpl; lia |]. exists 5. split; [lia | reflexivity].
    - split; [simpl; lia |]. exists 11. split; [lia | reflexivity]. }
  { change (curAddr newBuddy) with 2080. lia. }
  remember (allocateAll sizes newBuddy).2 as a eqn:Ea. clear Ea.
  change (blocks newBuddy) with [newBlock 0 32; newBlock 32 2048] in Hbs.
  cbn [app] in Hbs.
  pose proof (rinv_newRec 32 ltac:(lia)) as Hrh.
  pose proof (room_newRec 16 32 ltac:(lia) ltac:(lia)) as Hroomh.
  pose proof (rinv_newRec 2048 ltac:(lia)) as Hrm.
  pose proof (room_newRec 1301 2048 ltac:(lia) ltac:(lia)) as Hroom.
  assert (Hdata : forall W,
    data (put W (rec (newBlock 32 2048))) =
      W ++ replicate (2048 - length W) 0).
  { intros W. cbn [rec newBlock]. by rewrite data_put_newRec. }
  change (newRec 32) with (rec (newBlock 0 32)) in Hrh, Hroomh.
  change (newRec 2048) with (rec (newBlock 32 2048)) in Hrm, Hroom.
  remember (newBlock 0 32) as h eqn:Eh. clear Eh.
  remember (newBlock 32 2048) as m eqn:Em. clear Em.
  assert (Hok : Forall (fun b => blockShape b /\ Z.land (getAddr b) 31 = 0)
                  (m :: rest)).
  { rewrite Hbs in Hsh, Hal. apply Forall_cons in Hsh as [_ Hsh].
    apply Forall_cons in Hal as [_ Hal].
    apply Forall_and. by split. }
  rewrite (createMetaDataBlock_ok id a h m rest Hbs Hrh Hroomh Hrm Hroom);
    [| | exact Hcur]; cycle 1.
  { eapply Forall_impl; [exact Hok |]. intros b [[_ (k & Hk & Hs)] Hb].
    split; [| exact Hb]. rewrite Hs. split; [lia |].
    apply Z.pow_lt_mono_r; lia. }
  remember (metaBytes id (m :: rest) (curAddr a)) as W eqn:EW.
  assert (HW : (length W <= 1301)%nat).
  { rewrite EW. unfold metaBytes.
    rewrite !length_app, !length_be32, length_tableFrom.
    pose proof (length_bucketBytes (buckets 32 0 (curAddr a)).1) as HB.
    rewrite length_buckets in HB. cbn [length]. 
    change (length (cstr "DSDB")) with 4%nat. lia. }
  assert (HroomW : room (Z.of_nat (length W)) (rec m))
    by (eapply room_le; [exact Hroom | lia]).
  exists (mkBuddy (mkBlock (put (headerBytes m) (rec h)) (addr h)
                   :: mkBlock (put W (rec m)) (addr m) :: rest) 0),
         (mkBlock (put W (rec m)) (addr m)).
  split; [reflexivity |]. split; [reflexivity |]. cbn [rec blocks].
  assert (Hd : data (put W (rec m)) =
    be32 (Z.of_nat (length (m :: rest))) ++ be32 0 ++ tableFrom 256 (m :: rest)
      ++ (be32 1 ++ [4] ++ cstr "DSDB" ++ be32 id
            ++ ((buckets 32 0 (curAddr a)).1 ≫= bucketBytes))
      ++ replicate (2048 - length W) 0).
  { rewrite Hdata. rewrite EW at 1. unfold metaBytes.
    rewrite <- !app_assoc. reflexivity. }
  assert (Hd8 : drop (Z.to_nat 8) (data (put W (rec m))) =
    tableFrom 256 (m :: rest)
      ++ (be32 1 ++ [4] ++ cstr "DSDB" ++ be32 id
            ++ ((buckets 32 0 (curAddr a)).1 ≫= bucketBytes))
      ++ replicate (2048 - length W) 0).
  { rewrite Hd. rewrite (app_assoc (be32 _) (be32 0)).
    rewrite drop_app_length'; [reflexivity |]. reflexivity. }
  split; [| split].
  - unfold decodeTable.
    rewrite (get32_be32 _ 0 _ _ ltac:(lia) Hd), u32_small
      by (cbn [length]; lia).
    cbn [mbind option_bind]. rewrite Nat2Z.id, Hbs. cbn [drop].
    eapply (readSlots_ok _ 256 _ 8); [lia | cbn [length]; lia | exact Hok | exact Hd8].
  - rewrite Hbs. cbn [drop]. rewrite !fmap_cons. f_equal.
    by rewrite extent_put_eq.
  - intros i Hi. replace i with (Z.of_nat (Z.to_nat i)) by lia.
    eapply (get32_tableFrom_zero 256 (m :: rest) _ 8); [lia | exact Hd8 |].
    cbn [length]. lia.
Qed.

Lemma table_decodes_to_blocks_witness :
  exists a' metaData,
    createMetaDataBlock 2 (allocateAll [2048; 20] newBuddy).2 = Ok a' /\
    getBlock 0 a' = Ok metaData /\
    decodeTable (data (rec metaData)) =
      Some (extent <$> drop 1 (blocks (allocateAll [2048; 20] newBuddy).2)) /\
    extent <$> drop 1 (blocks a') =
      extent <$> drop 1 (blocks (allocateAll [2048; 20] newBuddy).2) /\
    forall i, Z.of_nat (length [2048; 20]) + 1 <= i < 256 ->
      get32 (data (rec metaData)) (8 + 4 * i) = Some 0.
Proof.
  apply (table_decodes_to_blocks [2048; 20] 2).
  - repeat constructor; lia.
  - simpl. lia.
  - repeat constructor.
Defined.

(** C4 fails as stated.  The table does not describe the header block:
    on a newly constructed allocator, whose blocks are the header block
    (address 0, size 32) and the metadata block (address 32, size 2048),
    the table decodes to the metadata block alone.  And after
    [allocateBlock(1)] twice the second block is at address 2081, which
    is not a multiple of 32, and [createMetaDataBlock] stops at its
    assertion. *)
Lemma table_omits_header_block :
  (exists a' metaData,
     createMetaDataBlock 0 newBuddy = Ok a' /\
     getBlock 0 a' = Ok metaData /\
     decodeTable (data (rec metaData)) = Some [(32, 2048)] /\
     extent <$> blocks newBuddy = [(0, 32); (32, 2048)]) /\
  createMetaDataBlock 0 (allocateAll [1; 1] newBuddy).2 = Fail AssertionFailed.
Proof.
  split; [| vm_compute; reflexivity].
  eexists _, _. split; [vm_compute; reflexivity |].
  split; [vm_compute; reflexivity |]. split; vm_compute; reflexivity.
Qed.

(** ** createAliasFile *)

Lemma Forall_isByte_splice d o bs :
  Forall isByte d -> Forall isByte bs -> Forall isByte (splice d o bs).
Proof.
  intros Hd Hbs. unfold splice. rewrite !Forall_app.
  split; [by apply Forall_take |]. split; [done | by apply Forall_drop].
Qed.

Lemma isByte_u8 v : isByte (u8 v).
Proof. apply Z.mod_pos_bound. lia. Qed.

Lemma Forall_isByte_be16 v : Forall isByte (be16 v).
Proof. repeat constructor; apply isByte_u8. Qed.

Lemma Forall_isByte_be32 v : Forall isByte (be32 v).
Proof. repeat constructor; apply isByte_u8. Qed.

Lemma memcpy_ok d off bs :
  0 <= off -> off + Z.of_nat (length bs) <= Z.of_nat (length d) ->
  memcpy d off bs = Ok (splice d (Z.to_nat off) bs).
Proof.
  intros Ho H. unfold memcpy. by rewrite (proj2 (Z.leb_le _ _)) by lia.
Qed.

(** A write into the fixed part of the record. *)
Lemma memcpy_low d n T off bs :
  building d n T -> Forall isByte bs ->
  0 <= off -> off + Z.of_nat (length bs) <= 150 ->
  exists d', memcpy d off bs = Ok d' /\ building d' n T.
Proof.
  intros (Hl & Hb & HT) Hbs Ho H. exists (splice d (Z.to_nat off) bs).
  split; [apply memcpy_ok; lia |]. split; [| split].
  - rewrite length_splice; lia.
  - by apply Forall_isByte_splice.
  - rewrite drop_splice_ge; [done | lia].
Qed.

Lemma store_low d n T off v :
  building d n T -> 0 <= off < 150 ->
  exists d', store d off v = Ok d' /\ building d' n T.
Proof.
  intros (Hl & Hb & HT) Ho. exists (splice d (Z.to_nat off) [u8 v]).
  split; [apply store_ok; lia |]. split; [| split].
  - rewrite length_splice by (cbn [length]; lia). lia.
  - apply Forall_isByte_splice; [done |]. apply Forall_singleton, isByte_u8.
  - rewrite drop_splice_ge; [done | cbn [length]; lia].
Qed.

(** A write into the extra data. *)
Lemma memcpy_high d n T (o : nat) off bs :
  building d n T -> Forall isByte bs ->
  off = 150 + Z.of_nat o -> (o + length bs <= n)%nat ->
  exists d', memcpy d off bs = Ok d' /\ building d' n (splice T o bs).
Proof.
  intros (Hl & Hb & HT) Hbs -> H. exists (splice d (Z.to_nat (150 + Z.of_nat o)) bs).
  split; [apply memcpy_ok; lia |]. split; [| split].
  - rewrite length_splice; lia.
  - by apply Forall_isByte_splice.
  - rewrite drop_splice_le by lia. rewrite HT. f_equal. lia.
Qed.

Lemma store_high d n T (o : nat) off v :
  building d n T -> off = 150 + Z.of_nat o -> (o < n)%nat ->
  exists d', store d off v = Ok d' /\ building d' n (splice T o [u8 v]).
Proof.
  intros (Hl & Hb & HT) -> H. exists (splice d (Z.to_nat (150 + Z.of_nat o)) [u8 v]).
  split; [apply store_ok; lia |]. split; [| split].
  - rewrite length_splice by (cbn [length]; lia). lia.
  - apply Forall_isByte_splice; [done |]. apply Forall_singleton, isByte_u8.
  - rewrite drop_splice_le by (cbn [length]; lia). rewrite HT. f_equal. lia.
Qed.

(** Writing over zeros, [g] bytes after what was written so far. *)
Lemma splice_zeros P (k g : nat) bs :
  (g + length bs <= k)%nat ->
  splice (P ++ replicate k 0) (length P + g) bs =
    P ++ replicate g 0 ++ bs ++ replicate (k - g - length bs) 0.
Proof.
  intros H.
  replace k with (g + (length bs + (k - g - length bs)))%nat at 1 by lia.
  rewrite !replicate_add, (app_assoc P).
  replace (length P + g)%nat with (length (P ++ replicate g 0))
    by (rewrite length_app, length_replicate; lia).
  rewrite splice_app by (by rewrite length_replicate).
  by rewrite <- app_assoc.
Qed.

Lemma land_1_odd n : negb (Z.land n 1 =? 0) = Z.odd n.
Proof.
  change 1 with (Z.ones 1) at 1. rewrite Z.land_ones by lia.
  rewrite <- Z.bit0_odd, <- (Z.b2z_inj (Z.testbit n 0) (negb (n mod 2 ^ 1 =? 0)));
    [done |].
  rewrite Z.bit0_mod. change (2 ^ 1) with 2.
  pose proof (Z.mod_pos_bound n 2 ltac:(lia)).
  destruct (Z.eqb_spec (n mod 2) 0) as [-> | Hne]; [done |]. simpl. lia.
Qed.

Lemma splice_zeros' P (k o g : nat) bs :
  o = (length P + g)%nat -> (g + length bs <= k)%nat ->
  splice (P ++ replicate k 0) o bs =
    (P ++ replicate g 0 ++ bs) ++ replicate (k - g - length bs) 0.
Proof. intros -> H. rewrite splice_zeros by done. by rewrite <- !app_assoc. Qed.

Lemma strlen_nonneg s : 0 <= strlen s.
Proof. unfold strlen. lia. Qed.

Lemma paddedLen_cases v f :
  (paddedLen v f = pathLen v f /\ filler v f = []) \/
  (paddedLen v f = pathLen v f + 1 /\ filler v f = [0]).
Proof. unfold paddedLen, filler. destruct (Z.odd (pathLen v f)); auto. Qed.

Ltac low B :=
  match goal with
  | |- context [memcpy ?d ?off ?bs] =>
      let E := fresh "E" in
      let d' := fresh "d" in
      destruct (memcpy_low d _ _ off bs B) as (d' & E & ?);
      [ | | | rewrite E; cbn [bind]; clear E B ]
  | |- context [store ?d ?off ?v] =>
      let E := fresh "E" in
      let d' := fresh "d" in
      destruct (store_low d _ _ off v B) as (d' & E & ?);
      [ | rewrite E; cbn [bind]; clear E B ]
  end.

Lemma createAliasFile_ok v f :
  strlen v <= 27 -> strlen f <= 63 ->
  exists d,
    createAliasFile v f = Ok d /\
    Z.of_nat (length d) = 158 + paddedLen v f /\
    Forall isByte d /\
    drop 150 d =
      be16 2 ++ be16 (paddedLen v f) ++ pathBytes v f ++ filler v f
        ++ [255; 255] ++ [0; 0].
Proof.
  intros Hv Hf. pose proof (strlen_nonneg v). pose proof (strlen_nonneg f).
  unfold createAliasFile. cbv zeta.
  rewrite (u32_small (strlen v)), (u32_small (strlen f)) by lia.
  fold (pathLen v f). rewrite (u32_small (pathLen v f)) by (unfold pathLen; lia).
  rewrite land_1_odd.
  replace (if Z.odd (pathLen v f) then u32 (pathLen v f + 1) else pathLen v f)
    with (paddedLen v f)
    by (unfold paddedLen; destruct (Z.odd _);
        [rewrite u32_small; unfold pathLen; lia | done]).
  assert (Hpad : pathLen v f <= paddedLen v f <= pathLen v f + 1)
    by (destruct (paddedLen_cases v f) as [[-> _] | [-> _]]; lia).
  assert (HL : pathLen v f = strlen v + strlen f + 1) by done.
  unfold AliasFile.sizeof, AliasFile.extraData, AliasFile.recordSize,
    AliasFile.recordVersion, AliasFile.volumeLenAndName, AliasFile.volumeSig,
    AliasFile.parentInode, AliasFile.fileLenAndName, AliasFile.fileInode,
    AliasFile.fileFrom, AliasFile.fileTo.
  rewrite (u32_small (150 + 8 + paddedLen v f)) by lia.
  rewrite !(take_ge (cstr _)) by (unfold strlen in *; lia).
  remember (Z.to_nat (8 + paddedLen v f)) as n eqn:Hn.
  assert (B : building (replicate (Z.to_nat (150 + 8 + paddedLen v f)) 0) n
                       ([] ++ replicate n 0)).
  { unfold building. rewrite length_replicate, drop_replicate.
    split; [lia |]. split; [by apply Forall_replicate |].
    cbn [app]. f_equal. lia. }
  pose proof (Forall_isByte_cstr v) as HBv.
  pose proof (Forall_isByte_cstr f) as HBf.
  assert (Hlv : Z.of_nat (length (cstr v)) = strlen v) by done.
  assert (Hlf : Z.of_nat (length (cstr f)) = strlen f) by done.
  low B; [apply Forall_isByte_be16 | lia | rewrite length_be16; lia |].
  low H1; [apply Forall_isByte_be16 | lia | rewrite length_be16; lia |].
  low H2; [lia |].
  low H1; [done | lia | lia |].
  low H2; [apply Forall_isByte_be16 | lia | rewrite length_be16; lia |].
  low H1; [apply Forall_isByte_be32 | lia | rewrite length_be32; lia |].
  low H2; [lia |].
  low H1; [done | lia | lia |].
  low H2; [repeat constructor; unfold isByte; lia | lia | cbn [length]; lia |].
  low H1; [apply Forall_isByte_be16 | lia | rewrite length_be16; lia |].
  low H2; [apply Forall_isByte_be16 | lia | rewrite length_be16; lia |].
  destruct (memcpy_high _ _ _ 0 150 (be16 2) H1) as (e1 & -> & B1);
    [apply Forall_isByte_be16 | lia | rewrite length_be16; lia |].
  cbn [bind]. clear H1.
  destruct (memcpy_high _ _ _ 2 (150 + 2) (be16 (paddedLen v f)) B1)
    as (e2 & -> & B2);
    [apply Forall_isByte_be16 | lia | rewrite length_be16; lia |].
  cbn [bind]. clear B1.
  destruct (memcpy_high _ _ _ 4 (150 + 4) (cstr v) B2) as (e3 & -> & B3);
    [done | lia | lia |].
  cbn [bind]. clear B2.
  destruct (store_high _ _ _ (4 + length (cstr v)) (150 + (4 + strlen v)) 58 B3)
    as (e4 & -> & B4); [lia | lia |].
  cbn [bind]. clear B3.
  destruct (memcpy_high _ _ _ (5 + length (cstr v)) (150 + (5 + strlen v))
              (cstr f) B4) as (e5 & -> & B5); [done | lia | lia |].
  cbn [bind]. clear B4.
  destruct (store_high _ _ _ (Z.to_nat (4 + paddedLen v f))
              (150 + (4 + paddedLen v f)) 255 B5) as (e6 & -> & B6);
    [lia | lia |].
  cbn [bind]. clear B5.
  destruct (store_high _ _ _ (Z.to_nat (5 + paddedLen v f))
              (150 + (5 + paddedLen v f)) 255 B6) as (e7 & -> & B7);
    [lia | lia |].
  cbn [bind]. clear B6.
  exists e7. destruct B7 as (Hlen & Hbytes & Hdrop).
  split; [done |]. split; [lia |]. split; [done |]. rewrite Hdrop.
  change (u8 58) with 58. change (u8 255) with 255.
  rewrite (splice_zeros' [] n 0 0 (be16 2))
    by (rewrite ?length_be16; cbn [length]; lia).
  rewrite (splice_zeros' _ _ 2 0 (be16 (paddedLen v f)))
    by (rewrite ?length_app, ?length_be16, ?length_replicate; cbn [length]; lia).
  rewrite (splice_zeros' _ _ 4 0 (cstr v))
    by (rewrite ?length_app, ?length_be16, ?length_replicate; cbn [length]; lia).
  rewrite (splice_zeros' _ _ (4 + length (cstr v)) 0 [58])
    by (rewrite ?length_app, ?length_be16, ?length_replicate; cbn [length]; lia).
  rewrite (splice_zeros' _ _ (5 + length (cstr v)) 0 (cstr f))
    by (rewrite ?length_app, ?length_be16, ?length_replicate; cbn [length]; lia).
  destruct (paddedLen_cases v f) as [[Ep Ef] | [Ep Ef]]; rewrite Ef.
  - rewrite (splice_zeros' _ _ (Z.to_nat (4 + paddedLen v f)) 0 [255])
      by (rewrite ?length_app, ?length_be16, ?length_replicate; cbn [length]; lia).
    rewrite (splice_zeros' _ _ (Z.to_nat (5 + paddedLen v f)) 0 [255])
      by (rewrite ?length_app, ?length_be16, ?length_replicate; cbn [length]; lia).
    unfold pathBytes. cbn [replicate]. rewrite ?app_nil_l, ?app_nil_r.
    rewrite <- !app_assoc. cbn [app]. do 6 f_equal.
    rewrite ?length_app, ?length_be16, ?length_replicate. cbn [length].
    replace (n - 0 - 2 - 0 - 2 - 0 - length (cstr v) - 0 - 1 - 0
               - length (cstr f) - 0 - 1 - 0 - 1)%nat with 2%nat by lia.
    done.
  - rewrite (splice_zeros' _ _ (Z.to_nat (4 + paddedLen v f)) 1 [255])
      by (rewrite ?length_app, ?length_be16, ?length_replicate; cbn [length]; lia).
    rewrite (splice_zeros' _ _ (Z.to_nat (5 + paddedLen v f)) 0 [255])
      by (rewrite ?length_app, ?length_be16, ?length_replicate; cbn [length]; lia).
    unfold pathBytes. cbn [replicate]. rewrite ?app_nil_l, ?app_nil_r.
    rewrite <- !app_assoc. cbn [app]. do 7 f_equal.
    rewrite ?length_app, ?length_be16, ?length_replicate. cbn [length].
    replace (n - 0 - 2 - 0 - 2 - 0 - length (cstr v) - 0 - 1 - 0
               - length (cstr f) - 1 - 1 - 0 - 1)%nat with 2%nat by lia.
    done.
Qed.

Lemma cstr_no_nul s : Forall (fun b => b <> 0) (cstr s).
Proof.
  induction s as [| c s IH]; simpl; [done |].
  destruct (Z.eqb_spec (byte_of c) 0); [done |]. by constructor.
Qed.

Lemma upToNul_app P rest :
  Forall (fun b => b <> 0) P -> upToNul (P ++ rest) = P ++ upToNul rest.
Proof.
  induction 1 as [| b P Hb _ IH]; [done |]. simpl.
  destruct (Z.eqb_spec b 0); [done |]. by rewrite IH.
Qed.

Lemma length_pathBytes v f :
  Z.of_nat (length (pathBytes v f ++ filler v f)) = paddedLen v f.
Proof.
  unfold pathBytes, filler, paddedLen, pathLen, strlen.
  rewrite !length_app. destruct (Z.odd _); simpl; lia.
Qed.

(** C8: for names that fit the fields of the header, the record built by
    [createAliasFile] ends, from offset 150 on, with the tag 2 of an
    absolute path on two bytes, a length on two bytes, the bytes of
    [volumeName], [":"] and [fileName], one filler byte when their number
    is odd, the sentinel [ff ff], and two zero bytes.  The length field
    holds the even length, filler included; read as the tag, the length
    and that many bytes, the path being the bytes up to the filler, the
    trailer yields the path, and ["MyDisk:bg.png"] for ["MyDisk"] and
    ["bg.png"]. *)
Theorem alias_trailer (volumeName fileName : string) :
  strlen volumeName <= 27 -> strlen fileName <= 63 ->
  (exists d,
     createAliasFile volumeName fileName = Ok d /\
     drop 150 d =
       be16 2 ++ be16 (paddedLen volumeName fileName)
         ++ pathBytes volumeName fileName ++ filler volumeName fileName
         ++ [255; 255] ++ [0; 0] /\
     readExtra d =
       Some (2, paddedLen volumeName fileName,
             pathBytes volumeName fileName ++ filler volumeName fileName) /\
     decodeTrailer d = Some (pathBytes volumeName fileName)) /\
  (exists d,
     createAliasFile "MyDisk" "bg.png" = Ok d /\
     decodeTrailer d = Some (cstr "MyDisk:bg.png")).
Proof.
  intros Hv Hf. split; [| eexists; split; vm_compute; reflexivity].
  destruct (createAliasFile_ok volumeName fileName Hv Hf)
    as (d & Hd & Hlen & Hbytes & Hdrop).
  pose proof (strlen_nonneg volumeName). pose proof (strlen_nonneg fileName).
  assert (Hpad : 0 <= paddedLen volumeName fileName < 2 ^ 16).
  { destruct (paddedLen_cases volumeName fileName) as [[-> _] | [-> _]];
      unfold pathLen; lia. }
  exists d. split; [done |]. split; [done |].
  assert (Hread : readExtra d =
    Some (2, paddedLen volumeName fileName,
          pathBytes volumeName fileName ++ filler volumeName fileName)).
  { unfold readExtra, AliasFile.extraData.
    rewrite (get16_be16 d 150 2 _ ltac:(lia) Hdrop). cbn [mbind option_bind].
    pose proof (drop_add_app d 150 (be16 2) _ ltac:(lia) Hdrop) as H2.
    rewrite length_be16 in H2.
    rewrite (get16_be16 d (150 + 2) _ _ ltac:(lia) H2). cbn [mbind option_bind].
    pose proof (drop_add_app d (150 + 2) (be16 _) _ ltac:(lia) H2) as H4.
    rewrite length_be16 in H4. rewrite !app_assoc, <- (app_assoc _ _ [0; 0]) in H4.
    assert (Hu : u16 (paddedLen volumeName fileName)
                 = paddedLen volumeName fileName) by (by apply Z.mod_small).
    rewrite !Hu.
    assert (G : getBytes d (150 + 4) (paddedLen volumeName fileName) =
      Some (pathBytes volumeName fileName ++ filler volumeName fileName)).
    { rewrite <- length_pathBytes.
      apply (getBytes_app d (150 + 4) _ [255; 255; 0; 0]); [lia | exact H4]. }
    rewrite G. reflexivity. }
  split; [done |]. unfold decodeTrailer. rewrite Hread.
  cbn [mbind option_bind]. rewrite decide_True by done. f_equal.
  unfold pathBytes. rewrite upToNul_app.
  - unfold filler. destruct (Z.odd _); simpl; by rewrite app_nil_r.
  - rewrite !Forall_app. split; [apply cstr_no_nul |].
    split; [by repeat constructor | apply cstr_no_nul].
Qed.

Lemma alias_trailer_witness :
  (exists d,
     createAliasFile "Vol" "bg.png" = Ok d /\
     drop 150 d =
       be16 2 ++ be16 (paddedLen "Vol" "bg.png")
         ++ pathBytes "Vol" "bg.png" ++ filler "Vol" "bg.png"
         ++ [255; 255] ++ [0; 0] /\
     readExtra d =
       Some (2, paddedLen "Vol" "bg.png",
             pathBytes "Vol" "bg.png" ++ filler "Vol" "bg.png") /\
     decodeTrailer d = Some (pathBytes "Vol" "bg.png")) /\
  (exists d,
     createAliasFile "MyDisk" "bg.png" = Ok d /\
     decodeTrailer d = Some (cstr "MyDisk:bg.png")).
Proof. apply (alias_trailer "Vol" "bg.png"); vm_compute; discriminate. Defined.

(** * Further properties *)

(** ** The methods of [Record]: outcomes *)

Lemma store_fail d i v e : store d i v = Fail e -> e = Undefined.
Proof. unfold store. case_match; congruence. Qed.

Lemma bind_fail {A B} (m : result A) (k : A -> result B) e :
  (do x <- m; k x) = Fail e ->
  m = Fail e \/ exists a, m = Ok a /\ k a = Fail e.
Proof. destruct m as [a | e']; simpl; [eauto | intros [= ->]; auto]. Qed.

Lemma storeAll_fail bs : forall d cur i e,
  storeAll d cur i bs = Fail e -> e = Undefined.
Proof.
  induction bs as [| b bs IH]; intros d cur i e H; [done |].
  cbn [storeAll] in H. apply bind_fail in H as [H | (d' & _ & H)].
  - by apply store_fail in H.
  - by apply IH in H.
Qed.

Ltac fail_undefined H :=
  repeat (apply bind_fail in H as [H | (? & _ & H)];
          [by apply store_fail in H |]);
  try done.

Lemma writeInt8_fail v r e : writeInt8 v r = Fail e -> e = Undefined.
Proof. unfold writeInt8. intros H. fail_undefined H. Qed.

Lemma writeInt16_fail v r e : writeInt16 v r = Fail e -> e = Undefined.
Proof. unfold writeInt16. cbv zeta. intros H. fail_undefined H. Qed.

Lemma writeInt32_fail v r e : writeInt32 v r = Fail e -> e = Undefined.
Proof. unfold writeInt32. cbv zeta. intros H. fail_undefined H. Qed.

Lemma writeStr_fail s r e : writeStr s r = Fail e -> e = Undefined.
Proof.
  unfold writeStr. cbv zeta. intros H.
  apply bind_fail in H as [H | (? & _ & H)]; [| done].
  by apply storeAll_fail in H.
Qed.

Lemma writeData_fail bs r e : writeData bs r = Fail e -> e = Undefined.
Proof.
  unfold writeData. intros H.
  apply bind_fail in H as [H | (? & _ & H)]; [| done].
  by apply storeAll_fail in H.
Qed.

Lemma writes_of_writer f bs :
  writer f bs -> (forall r e, f r = Fail e -> e = Undefined) -> writes f bs.
Proof.
  intros Hw Hf r Hr. destruct (Hw r Hr) as [Hok Hinv].
  destruct (f r) as [r' | e] eqn:E.
  - left. split; [by eapply Hinv |]. rewrite <- E. symmetry. rewrite E.
    specialize (Hok (Hinv r' eq_refl)). congruence.
  - right. split; [| by rewrite (Hf r e E)].
    intros Hroom. specialize (Hok Hroom). congruence.
Qed.

(** X1: each writing method of [Record] either finds room for its bytes
    between the cursor and the end of the vector, and then overwrites
    exactly those bytes and advances the cursor past them, or it indexes
    the vector out of its bounds (undefined behaviour): no method resizes
    the vector.  The bytes are the big-endian bytes of the value for the
    integers, the characters up to the first NUL, without it, for a string,
    and the bytes themselves for a vector. *)
Theorem record_write_outcome (v : Z) (s : string) (bs : list Z) :
  writes (writeInt8 v) [u8 v] /\
  writes (writeInt16 v) (be16 v) /\
  writes (writeInt32 v) (be32 v) /\
  writes (writeStr s) (strBytes s) /\
  writes (writeData bs) (u8 <$> bs).
Proof.
  split; [| split; [| split; [| split]]]; apply writes_of_writer.
  - apply writer_writeInt8.
  - apply writeInt8_fail.
  - apply writer_writeInt16.
  - apply writeInt16_fail.
  - apply writer_writeInt32.
  - apply writeInt32_fail.
  - apply writer_writeStr.
  - apply writeStr_fail.
  - apply writer_writeData.
  - apply writeData_fail.
Qed.

(** ** The methods of [Record]: reading back *)

Lemma lookup_splice_other (d : list Z) o bs (i : nat) :
  (o + length bs <= length d)%nat ->
  (i < o \/ o + length bs <= i)%nat ->
  splice d o bs !! i = d !! i.
Proof.
  intros Hd Hi. unfold splice. destruct Hi as [Hi | Hi].
  - rewrite lookup_app_l by (rewrite length_take; lia).
    by rewrite lookup_take_lt.
  - rewrite lookup_app_r by (rewrite length_take; lia).
    rewrite length_take, lookup_app_r by lia.
    rewrite lookup_drop. f_equal. lia.
Qed.

Lemma drop_splice_here (d : list Z) o bs :
  (o + length bs <= length d)%nat ->
  drop o (splice d o bs) = bs ++ drop (o + length bs) d.
Proof.
  intros Hd. unfold splice.
  rewrite drop_app_length'; [done |]. rewrite length_take. lia.
Qed.

Lemma overwrote_put bs r :
  room (Z.of_nat (length bs)) r -> overwrote (Z.of_nat (length bs)) r (put bs r).
Proof.
  intros Hroom. split; [done |]. split; [by apply length_data_put |].
  intros i Hi. destruct Hroom as (H0 & H1 & H2). unfold put. cbn [data].
  apply lookup_splice_other; lia.
Qed.

Lemma drop_data_put bs r :
  room (Z.of_nat (length bs)) r ->
  drop (Z.to_nat (curOffset r)) (data (put bs r)) =
    bs ++ drop (Z.to_nat (curOffset r) + length bs) (data r).
Proof.
  intros (H0 & H1 & H2). unfold put. cbn [data]. apply drop_splice_here. lia.
Qed.

(** X2: on a record with room for four bytes at its cursor, the three
    integer writes succeed; a value written is read back, at the place of
    the cursor before the call and in big-endian byte order, as the value
    cut to 8, 16 and 32 bits; the cursor advances by 1, 2 and 4, the vector
    keeps its length and no other byte changes. *)
Theorem int_writes_read_back (v : Z) (r : Rec) :
  rinv r -> room 4 r ->
  (exists r', writeInt8 v r = Ok r' /\
     get8 (data r') (curOffset r) = Some (u8 v) /\ overwrote 1 r r') /\
  (exists r', writeInt16 v r = Ok r' /\
     get16 (data r') (curOffset r) = Some (u16 v) /\ overwrote 2 r r') /\
  (exists r', writeInt32 v r = Ok r' /\
     get32 (data r') (curOffset r) = Some (u32 v) /\ overwrote 4 r r').
Proof.
  intros Hr Hroom. pose proof Hroom as (H0 & H1 & H2).
  assert (Hroom1 : room 1 r) by (apply (room_le 4); [done | lia]).
  assert (Hroom2 : room 2 r) by (apply (room_le 4); [done | lia]).
  split; [| split].
  - exists (put [u8 v] r). split; [by apply writeInt8_put |].
    split; [| by apply (overwrote_put [u8 v])].
    pose proof (drop_data_put [u8 v] r Hroom1) as Hd.
    unfold get8. rewrite <- (Nat.add_0_r (Z.to_nat (curOffset r))).
    rewrite <- lookup_drop, Hd. done.
  - exists (put (be16 v) r). split; [by apply writeInt16_put |].
    split; [| by apply (overwrote_put (be16 v))].
    eapply get16_be16; [lia |]. by apply (drop_data_put (be16 v)).
  - exists (put (be32 v) r). split; [by apply writeInt32_put |].
    split; [| by apply (overwrote_put (be32 v))].
    eapply get32_be32; [lia |]. by apply (drop_data_put (be32 v)).
Qed.

Lemma int_writes_read_back_witness :
  (exists r', writeInt8 0x1234 (seek 4 (newRec 16)) = Ok r' /\
     get8 (data r') (curOffset (seek 4 (newRec 16))) = Some (u8 0x1234) /\
     overwrote 1 (seek 4 (newRec 16)) r') /\
  (exists r', writeInt16 0x1234 (seek 4 (newRec 16)) = Ok r' /\
     get16 (data r') (curOffset (seek 4 (newRec 16))) = Some (u16 0x1234) /\
     overwrote 2 (seek 4 (newRec 16)) r') /\
  (exists r', writeInt32 0x1234 (seek 4 (newRec 16)) = Ok r' /\
     get32 (data r') (curOffset (seek 4 (newRec 16))) = Some (u32 0x1234) /\
     overwrote 4 (seek 4 (newRec 16)) r').
Proof.
  apply (int_writes_read_back 0x1234 (seek 4 (newRec 16)));
    vm_compute; repeat split; discriminate.
Defined.

(** X3: [writeStr] writes the characters of the C string, up to its first
    NUL and without the NUL: with room for them, they are read back at the
    place of the cursor, the cursor stands behind the last one, and the
    byte that follows is not touched. *)
Theorem writeStr_read_back (s : string) (r : Rec) :
  rinv r -> room (strlen s) r ->
  exists r',
    writeStr s r = Ok r' /\
    getBytes (data r') (curOffset r) (strlen s) = Some (cstr s) /\
    Forall (fun b => b <> 0) (cstr s) /\
    overwrote (strlen s) r r'.
Proof.
  intros Hr Hroom. pose proof Hroom as (H0 & H1 & H2).
  assert (Hs : strlen s < 2 ^ 32) by (pose proof (strlen_nonneg s); lia).
  pose proof (strBytes_cstr s Hs) as Hb.
  assert (Hroom' : room (Z.of_nat (length (strBytes s))) r)
    by (rewrite Hb; exact Hroom).
  exists (put (strBytes s) r). split.
  { destruct (writer_writeStr s r Hr) as [Hok _]. by apply Hok. }
  rewrite Hb in *. split; [| split; [apply cstr_no_nul |]].
  - apply (getBytes_app _ _ _ (drop (Z.to_nat (curOffset r) + length (cstr s))
                                   (data r))).
    + rewrite length_data_put by done. unfold strlen in H1. lia.
    + by apply drop_data_put.
  - by apply (overwrote_put (cstr s)).
Qed.

Lemma writeStr_read_back_witness :
  exists r',
    writeStr "DSDB" (newRec 8) = Ok r' /\
    getBytes (data r') (curOffset (newRec 8)) (strlen "DSDB") = Some (cstr "DSDB") /\
    Forall (fun b => b <> 0) (cstr "DSDB") /\
    overwrote (strlen "DSDB") (newRec 8) r'.
Proof.
  apply (writeStr_read_back "DSDB" (newRec 8));
    vm_compute; repeat split; discriminate.
Defined.

(** ** powerOf2Ceil: rounding and its limits *)

(** X4: for a valid size [n] (from 1 to 2^31) [powerOf2Ceil] rounds up by
    less than a factor of two, and it leaves a power of two as it is: it is
    idempotent. *)
Theorem powerOf2Ceil_rounding (n : Z) :
  1 <= n <= 2 ^ 31 ->
  n <= powerOf2Ceil n < 2 * n /\
  (forall k, n = 2 ^ k -> powerOf2Ceil n = n) /\
  powerOf2Ceil (powerOf2Ceil n) = powerOf2Ceil n.
Proof.
  intros Hn.
  destruct (powerOf2Ceil_spec n Hn) as [([k [Hk Hp]] & Hle & Hmin) Hrange].
  assert (Hfix : forall m, 1 <= m <= 2 ^ 31 ->
            forall j, m = 2 ^ j -> powerOf2Ceil m = m).
  { intros m Hm j Hj.
    destruct (powerOf2Ceil_spec m Hm) as [(_ & Hle' & Hmin') _].
    assert (0 <= j).
    { destruct (Z.le_gt_cases 0 j) as [| Hneg]; [done |].
      rewrite Z.pow_neg_r in Hj by lia. lia. }
    specialize (Hmin' j ltac:(lia) ltac:(lia)). lia. }
  split; [| split].
  - split; [done |]. destruct (decide (k = 0)) as [-> | Hk0].
    + rewrite Hp. simpl. lia.
    + destruct (Z.le_gt_cases n (2 ^ (k - 1))) as [Hsmall | Hbig].
      * specialize (Hmin (k - 1) ltac:(lia) Hsmall).
        assert (2 ^ (k - 1) < 2 ^ k) by (apply Z.pow_lt_mono_r; lia). lia.
      * rewrite Hp. replace k with (k - 1 + 1) at 1 by lia.
        rewrite Z.pow_add_r by lia. lia.
  - apply (Hfix n Hn).
  - apply (Hfix _ Hrange k Hp).
Qed.

Lemma powerOf2Ceil_rounding_witness :
  20 <= powerOf2Ceil 20 < 2 * 20 /\
  (forall k, 20 = 2 ^ k -> powerOf2Ceil 20 = 20) /\
  powerOf2Ceil (powerOf2Ceil 20) = powerOf2Ceil 20.
Proof. apply (powerOf2Ceil_rounding 20). lia. Defined.

Lemma powerOf2Ceil_high n : 2 ^ 31 < n <= 2 ^ 32 -> powerOf2Ceil n = 0.
Proof.
  intros Hn. unfold powerOf2Ceil.
  rewrite (u32_small (n - 1)) by lia.
  remember (n - 1) as v eqn:Ev.
  assert (Hv : 2 ^ 31 <= v < 2 ^ 32) by lia.
  assert (Hl : Z.log2 v = 31).
  { apply Z.log2_unique; [lia |]. change (Z.succ 31) with 32. lia. }
  pose proof (filled_init v ltac:(lia)) as H. rewrite Hl in H.
  apply (filled_step _ 1) in H; [| lia].
  apply (filled_step _ 2) in H; [| lia].
  apply (filled_step _ 4) in H; [| lia].
  apply (filled_step _ 8) in H; [| lia].
  apply (filled_step _ 16) in H; [| lia].
  apply filled_ones in H; [| lia]. cbv zeta. rewrite H. done.
Qed.

(** X5: [powerOf2Ceil] wraps around to 0 for the size 0 and for every size
    above 2^31: [allocateBlock] then hands out an id for a block of no
    bytes and leaves the bump pointer where it was, so that the next block
    gets the same address; and [createMetaDataBlock] runs into the undefined
    [__builtin_clz(0)] when it comes to that block. *)
Theorem allocateBlock_size_wraps (n id : Z) (a : BuddyAllocator) :
  n = 0 \/ 2 ^ 31 < n < 2 ^ 32 ->
  0 <= curAddr a < 2 ^ 32 ->
  powerOf2Ceil n = 0 /\
  allocateBlock n a =
    (u32 (Z.of_nat (length (blocks a)) - 1),
     mkBuddy (blocks a ++ [newBlock (curAddr a) 0]) (curAddr a)) /\
  size (newBlock (curAddr a) 0) = 0 /\
  createMetaDataBlock id (allocateBlock n newBuddy).2 = Fail Undefined.
Proof.
  intros Hn Ha.
  assert (Hp : powerOf2Ceil n = 0).
  { destruct Hn as [-> | Hn]; [done |]. apply powerOf2Ceil_high. lia. }
  split; [done |]. unfold allocateBlock. cbv zeta. rewrite Hp.
  split; [| split; [done |]].
  - rewrite length_app, Z.add_0_r, (u32_small (curAddr a)) by done.
    do 2 f_equal. cbn [length]. lia.
  - cbn [snd]. by vm_compute.
Qed.

Lemma allocateBlock_size_wraps_witness :
  powerOf2Ceil 0 = 0 /\
  allocateBlock 0 newBuddy =
    (u32 (Z.of_nat (length (blocks newBuddy)) - 1),
     mkBuddy (blocks newBuddy ++ [newBlock (curAddr newBuddy) 0])
             (curAddr newBuddy)) /\
  size (newBlock (curAddr newBuddy) 0) = 0 /\
  createMetaDataBlock 7 (allocateBlock 0 newBuddy).2 = Fail Undefined.
Proof.
  apply (allocateBlock_size_wraps 0 7 newBuddy); [by left | by vm_compute].
Defined.

(** ** Block ids and the layout of the file *)

Lemma length_blocks_allocateAll sizes a :
  length (blocks (allocateAll sizes a).2) = (length (blocks a) + length sizes)%nat.
Proof.
  destruct (allocateAll_blocks sizes a) as (new & -> & <-). apply length_app.
Qed.

(** X6: after any sequence of [n] user allocations on a new allocator,
    [getBlock] finds a block for the ids 0 to [n] and for no other: an id
    that was not handed out makes [blocks.at] throw. *)
Theorem getBlock_unallocated_id (sizes : list Z) (id : Z) :
  0 <= id < 2 ^ 32 - 1 ->
  ((exists b, getBlock id (allocateAll sizes newBuddy).2 = Ok b) <->
     id <= Z.of_nat (length sizes)) /\
  (Z.of_nat (length sizes) < id ->
     getBlock id (allocateAll sizes newBuddy).2 = Fail OutOfRange).
Proof.
  intros Hid. rewrite getBlock_at by done. unfold at_.
  pose proof (length_blocks_allocateAll sizes newBuddy) as Hlen.
  change (length (blocks newBuddy)) with 2%nat in Hlen.
  destruct (blocks (allocateAll sizes newBuddy).2 !! Z.to_nat (id + 1))
    as [b |] eqn:E.
  - apply lookup_lt_Some in E. split; [| lia].
    split; [lia | by exists b].
  - apply lookup_ge_None in E. split; [| done].
    split; [by intros [b Hb] | lia].
Qed.

Lemma getBlock_unallocated_id_witness :
  ((exists b, getBlock 3 (allocateAll [2048; 20] newBuddy).2 = Ok b) <->
     3 <= Z.of_nat (length [2048; 20])) /\
  (Z.of_nat (length [2048; 20]) < 3 ->
     getBlock 3 (allocateAll [2048; 20] newBuddy).2 = Fail OutOfRange).
Proof. apply (getBlock_unallocated_id [2048; 20] 3). lia. Defined.

Lemma writeFile_bytes a f : writeFile a f = f ++ be32 1 ++ allBytes (blocks a).
Proof.
  unfold writeFile, allBytes. cbv zeta. rewrite (app_assoc f).
  generalize (f ++ be32 1). induction (blocks a) as [| b bs IH]; intros g.
  - cbn. by rewrite app_nil_r.
  - cbn [foldl]. rewrite IH, bind_cons. by rewrite <- app_assoc.
Qed.

Lemma length_allBytes bs : Z.of_nat (length (allBytes bs)) = totalSize bs.
Proof.
  unfold allBytes. induction bs as [| b bs IH]; [done |].
  rewrite bind_cons, length_app. cbn [totalSize foldr]. unfold size at 1.
  unfold totalSize in IH. lia.
Qed.

Lemma totalSize_nonneg bs : 0 <= totalSize bs.
Proof. rewrite <- length_allBytes. lia. Qed.

Lemma totalSize_app bs bs' : totalSize (bs ++ bs') = totalSize bs + totalSize bs'.
Proof.
  unfold totalSize. induction bs as [| b bs IH]; [done |].
  cbn [app foldr]. rewrite IH. lia.
Qed.

Lemma contiguous_app bs : forall start bs',
  contiguous start (bs ++ bs') <->
  contiguous start bs /\ contiguous (start + totalSize bs) bs'.
Proof.
  induction bs as [| b bs IH]; intros start bs'.
  - cbn. rewrite Z.add_0_r. tauto.
  - cbn [app contiguous]. rewrite IH. cbn [totalSize foldr].
    fold (totalSize bs). rewrite Z.add_assoc. tauto.
Qed.

Lemma contiguous_extent bs : forall bs' start,
  extent <$> bs = extent <$> bs' -> contiguous start bs -> contiguous start bs'.
Proof.
  induction bs as [| b bs IH]; intros [| b' bs'] start He; try done.
  rewrite !fmap_cons in He. injection He as Ha Hs Hrest. cbn [contiguous]. intros [H1 H2].
  split; [congruence |]. rewrite <- Hs. by apply IH.
Qed.

Lemma totalSize_extent bs : forall bs',
  extent <$> bs = extent <$> bs' -> totalSize bs = totalSize bs'.
Proof.
  induction bs as [| b bs IH]; intros [| b' bs'] He; try done.
  rewrite !fmap_cons in He. injection He as Ha Hs Hrest. cbn [totalSize foldr]. fold (totalSize bs).
  fold (totalSize bs'). rewrite (IH bs' Hrest). lia.
Qed.

Lemma powerOf2Ceil_range n : 0 <= powerOf2Ceil n < 2 ^ 32.
Proof. unfold powerOf2Ceil. cbv zeta. apply Z.mod_pos_bound. lia. Qed.

Lemma claimed_nonneg sizes : 0 <= claimed sizes.
Proof.
  induction sizes as [| n sizes IH]; [done |]. cbn [claimed foldr].
  fold (claimed sizes). pose proof (powerOf2Ceil_range n). lia.
Qed.

Lemma allocateAll_contiguous sizes : forall a,
  contiguous 0 (blocks a) -> curAddr a = totalSize (blocks a) ->
  curAddr a + claimed sizes < 2 ^ 32 ->
  contiguous 0 (blocks (allocateAll sizes a).2) /\
  totalSize (blocks (allocateAll sizes a).2) = curAddr a + claimed sizes.
Proof.
  induction sizes as [| n sizes IH]; intros a Hc Hcur Hlt.
  - cbn. split; [done | lia].
  - rewrite allocateAll_cons_2. cbn [claimed foldr] in Hlt |- *.
    fold (claimed sizes) in Hlt |- *.
    pose proof (powerOf2Ceil_range n) as Hp.
    pose proof (claimed_nonneg sizes) as Hs.
    pose proof (totalSize_nonneg (blocks a)) as Ht.
    assert (Hb : size (newBlock (curAddr a) (powerOf2Ceil n)) = powerOf2Ceil n)
      by (apply size_newBlock; lia).
    destruct (IH (allocateBlock n a).2) as [H1 H2].
    + cbn [allocateBlock snd blocks]. apply contiguous_app. split; [done |].
      cbn [contiguous]. split; [| done]. cbn. lia.
    + cbn [allocateBlock snd blocks curAddr]. rewrite totalSize_app.
      cbn [totalSize foldr]. rewrite Hb, u32_small by lia. lia.
    + cbn [allocateBlock snd curAddr]. rewrite u32_small by lia. lia.
    + split; [done |]. rewrite H2. cbn [allocateBlock snd curAddr].
      rewrite u32_small by lia. lia.
Qed.

Lemma curAddr_allocateAll sizes : forall a,
  0 <= curAddr a -> curAddr a + claimed sizes < 2 ^ 32 ->
  curAddr (allocateAll sizes a).2 = curAddr a + claimed sizes.
Proof.
  induction sizes as [| n sizes IH]; intros a H0 Hlt; [cbn; lia |].
  rewrite allocateAll_cons_2. cbn [claimed foldr] in Hlt |- *.
  fold (claimed sizes) in Hlt |- *.
  pose proof (powerOf2Ceil_range n). pose proof (claimed_nonneg sizes).
  rewrite IH; cbn [allocateBlock snd curAddr]; rewrite u32_small; lia.
Qed.

Lemma drop_allBytes bs : forall start (k : nat) b,
  contiguous start bs -> bs !! k = Some b ->
  start <= getAddr b /\
  getAddr b - start + size b <= totalSize bs /\
  exists rest,
    drop (Z.to_nat (getAddr b - start)) (allBytes bs) = data (rec b) ++ rest.
Proof.
  induction bs as [| b0 bs IH]; intros start k b Hc Hk; [done |].
  destruct Hc as [Ha Hc]. cbn [totalSize foldr]. fold (totalSize bs).
  pose proof (totalSize_nonneg bs) as Ht.
  assert (Hs0 : 0 <= size b0) by (unfold size; lia).
  destruct k as [| k].
  - injection Hk as ->. split; [lia |]. split; [lia |].
    exists (allBytes bs). rewrite Ha, Z.sub_diag. done.
  - cbn in Hk. destruct (IH _ _ _ Hc Hk) as (H1 & H2 & rest & H3).
    split; [lia |]. split; [lia |]. exists rest.
    unfold allBytes. rewrite bind_cons. fold (allBytes bs).
    replace (Z.to_nat (getAddr b - start))
      with (length (data (rec b0)) + Z.to_nat (getAddr b - (start + size b0)))%nat
      by (unfold size in *; lia).
    by rewrite drop_app_add'.
Qed.

(** X7: the user allocations [sizes] made on a new allocator, within an
    address space of 32 bits, leave the blocks one behind the other from
    address 0 on; whatever was written into the blocks since, [writeFile]
    puts the bytes of every block at the offset 4 + its address of the
    file, and the length of the file is 4 + the bump pointer. *)
Theorem block_at_its_address (sizes : list Z) (a : BuddyAllocator) (k : nat)
    (b : Block) :
  2080 + claimed sizes < 2 ^ 32 ->
  extent <$> blocks a = extent <$> blocks (allocateAll sizes newBuddy).2 ->
  blocks a !! k = Some b ->
  getBytes (writeFile a []) (4 + getAddr b) (size b) = Some (data (rec b)) /\
  curAddr (allocateAll sizes newBuddy).2 = 2080 + claimed sizes /\
  Z.of_nat (length (writeFile a [])) = 4 + (2080 + claimed sizes).
Proof.
  intros Hlt He Hk.
  destruct (allocateAll_contiguous sizes newBuddy) as [Hc Ht];
    [by vm_compute | by vm_compute | done |].
  change (curAddr newBuddy) with 2080 in Ht.
  symmetry in He. pose proof (contiguous_extent _ _ 0 He Hc) as Hc'.
  rewrite (totalSize_extent _ _ He) in Ht.
  destruct (drop_allBytes _ _ _ _ Hc' Hk) as (H1 & H2 & rest & H3).
  rewrite Z.sub_0_r in H2, H3.
  rewrite writeFile_bytes, app_nil_l. split; [| split].
  - unfold size. apply (getBytes_app _ _ _ rest).
    + rewrite length_app, Nat2Z.inj_add, length_allBytes, length_be32.
      unfold size in H2. lia.
    + replace (Z.to_nat (4 + getAddr b))
        with (length (be32 1) + Z.to_nat (getAddr b))%nat
        by (rewrite length_be32; lia).
      by rewrite drop_app_add'.
  - apply (curAddr_allocateAll sizes newBuddy); [by vm_compute | done].
  - rewrite length_app, Nat2Z.inj_add, length_allBytes, length_be32, Ht. lia.
Qed.

Lemma block_at_its_address_witness :
  getBytes (writeFile (allocateAll [2048; 20] newBuddy).2 []) (4 + getAddr (newBlock 2080 2048))
           (size (newBlock 2080 2048)) = Some (data (rec (newBlock 2080 2048))) /\
  curAddr (allocateAll [2048; 20] newBuddy).2 = 2080 + claimed [2048; 20] /\
  Z.of_nat (length (writeFile (allocateAll [2048; 20] newBuddy).2 [])) =
    4 + (2080 + claimed [2048; 20]).
Proof.
  apply (block_at_its_address [2048; 20] (allocateAll [2048; 20] newBuddy).2 2);
    [by vm_compute | reflexivity | reflexivity].
Defined.

(** ** createMetaDataBlock: the header block, the directory, the file *)

Lemma slotOk_metaData : slotOk (newBlock 32 2048).
Proof. by vm_compute. Qed.

Lemma createMetaDataBlock_new id a rest :
  blocks a = newBlock 0 32 :: newBlock 32 2048 :: rest ->
  Forall slotOk rest -> 0 <= curAddr a < 2 ^ 32 ->
  createMetaDataBlock id a =
    Ok (mkBuddy
          (mkBlock (put (headerBytes (newBlock 32 2048)) (newRec 32)) 0
           :: mkBlock (put (metaBytes id (newBlock 32 2048 :: rest) (curAddr a))
                           (newRec 2048)) 32
           :: rest) 0).
Proof.
  intros Hbs Hrest Hcur.
  apply (createMetaDataBlock_ok id a (newBlock 0 32) (newBlock 32 2048) rest).
  - exact Hbs.
  - apply rinv_newRec. lia.
  - apply room_newRec; lia.
  - apply rinv_newRec. lia.
  - apply room_newRec; lia.
  - apply Forall_cons. split; [apply slotOk_metaData | done].
  - exact Hcur.
Qed.

Lemma length_metaBytes id bs cur :
  (1045 <= length (metaBytes id bs cur) <= 1301)%nat.
Proof.
  unfold metaBytes. rewrite !length_app, !length_be32, length_tableFrom.
  pose proof (length_bucketBytes (buckets 32 0 cur).1) as HB.
  rewrite length_buckets in HB.
  change (length [4]) with 1%nat. change (length (cstr "DSDB")) with 4%nat.
  assert (32 <= length ((buckets 32 0 cur).1 ≫= bucketBytes))%nat; [| lia].
  rewrite <- (length_buckets 32 0 cur) at 1.
  generalize (buckets 32 0 cur).1. intros l.
  induction l as [| [x |] l IH]; [done | |];
    rewrite bind_cons, length_app; cbn [bucketBytes length];
    rewrite ?length_app, ?length_be32; lia.
Qed.

(** X8: on an allocator whose header and metadata blocks are as the
    constructor made them, whose other blocks have sizes from 1 byte on and
    addresses that are multiples of 32, [createMetaDataBlock] succeeds and
    makes the header block the tag [Bud1], the address 32 of the metadata
    block, its size 2048 and the address 32 again, as big-endian words,
    and 16 zero bytes; [writeFile] then writes the word 1 and the bytes of
    all the blocks in the order of their allocation. *)
Theorem header_block_and_file (id : Z) (a : BuddyAllocator) (rest : list Block) :
  blocks a = newBlock 0 32 :: newBlock 32 2048 :: rest ->
  Forall slotOk rest -> 0 <= curAddr a < 2 ^ 32 ->
  exists a' h m,
    createMetaDataBlock id a = Ok a' /\
    blocks a' = h :: m :: rest /\
    data (rec h) =
      cstr "Bud1" ++ be32 32 ++ be32 2048 ++ be32 32 ++ replicate 16 0 /\
    extent h = (0, 32) /\ extent m = (32, 2048) /\
    writeFile a' [] =
      be32 1 ++ data (rec h) ++ data (rec m) ++ allBytes rest.
Proof.
  intros Hbs Hrest Hcur. eexists _, _, _.
  split; [by apply createMetaDataBlock_new |]. cbn [blocks].
  split; [reflexivity |].
  split; [cbn [rec]; by rewrite data_put_newRec |].
  split; [by vm_compute |].
  split.
  - apply (extent_put_eq _ (newBlock 32 2048) 32). cbn [rec newBlock].
    pose proof (length_metaBytes id (newBlock 32 2048 :: rest) (curAddr a)).
    apply room_newRec; lia.
  - rewrite writeFile_bytes. cbn [blocks]. unfold allBytes.
    by rewrite !bind_cons.
Qed.

Lemma header_block_and_file_witness :
  exists a' h m,
    createMetaDataBlock 2 (allocateAll [2048; 20] newBuddy).2 = Ok a' /\
    blocks a' = h :: m :: [newBlock 2080 2048; newBlock 4128 32] /\
    data (rec h) =
      cstr "Bud1" ++ be32 32 ++ be32 2048 ++ be32 32 ++ replicate 16 0 /\
    extent h = (0, 32) /\ extent m = (32, 2048) /\
    writeFile a' [] =
      be32 1 ++ data (rec h) ++ data (rec m)
        ++ allBytes [newBlock 2080 2048; newBlock 4128 32].
Proof.
  apply (header_block_and_file 2 (allocateAll [2048; 20] newBuddy).2
           [newBlock 2080 2048; newBlock 4128 32]).
  - reflexivity.
  - repeat constructor; by vm_compute.
  - by vm_compute.
Defined.

(** ** Reading behind a prefix *)

Lemma get32_skip (P d : list Z) n off :
  Z.of_nat (length P) = n -> n <= off ->
  get32 (P ++ d) off = get32 d (off - n).
Proof.
  intros <- Hle. unfold get32. rewrite drop_app_ge by lia.
  by replace (Z.to_nat off - length P)%nat
    with (Z.to_nat (off - Z.of_nat (length P))) by lia.
Qed.

Lemma get8_skip (P d : list Z) n off :
  Z.of_nat (length P) = n -> n <= off ->
  get8 (P ++ d) off = get8 d (off - n).
Proof.
  intros <- Hle. unfold get8. rewrite lookup_app_r by lia. f_equal. lia.
Qed.

Lemma getBytes_skip (P d : list Z) n off k :
  Z.of_nat (length P) = n -> n <= off ->
  getBytes (P ++ d) off k = getBytes d (off - n) k.
Proof.
  intros <- Hle. unfold getBytes. rewrite length_app, Nat2Z.inj_add.
  rewrite drop_app_ge by lia.
  replace (Z.to_nat off - length P)%nat
    with (Z.to_nat (off - Z.of_nat (length P))) by lia.
  destruct (Z.leb_spec (off + k) (Z.of_nat (length P) + Z.of_nat (length d)));
    destruct (Z.leb_spec (off - Z.of_nat (length P) + k) (Z.of_nat (length d)));
    (done || lia).
Qed.

Lemma get32_head v (d : list Z) : get32 (be32 v ++ d) 0 = Some (u32 v).
Proof. by apply (get32_be32 _ 0 v d). Qed.

Lemma get16_head v (d : list Z) : get16 (be16 v ++ d) 0 = Some (u16 v).
Proof. by apply (get16_be16 _ 0 v d). Qed.

Lemma getBytes_head (bs d : list Z) n :
  Z.of_nat (length bs) = n -> getBytes (bs ++ d) 0 n = Some bs.
Proof.
  intros <-. unfold getBytes. rewrite length_app.
  destruct (Z.leb_spec (0 + Z.of_nat (length bs))
              (Z.of_nat (length bs + length d))); [| lia].
  change (Z.to_nat 0) with 0%nat.
  by rewrite drop_0, Nat2Z.id, take_app_length.
Qed.

(** ** The directory of the metadata block *)

Lemma metaBytes_fields id bs cur (rest : list Z) :
  Z.of_nat (length bs) < 2 ^ 32 ->
  get32 (metaBytes id bs cur ++ rest) 0 = Some (Z.of_nat (length bs)) /\
  get32 (metaBytes id bs cur ++ rest) 4 = Some 0 /\
  get32 (metaBytes id bs cur ++ rest) 1032 = Some 1 /\
  get8 (metaBytes id bs cur ++ rest) 1036 = Some 4 /\
  getBytes (metaBytes id bs cur ++ rest) 1037 4 = Some (cstr "DSDB") /\
  get32 (metaBytes id bs cur ++ rest) 1041 = Some (u32 id).
Proof.
  intros Hlen. unfold metaBytes. rewrite <- !app_assoc.
  pose proof (length_tableFrom 256 bs) as HT.
  generalize dependent (tableFrom 256 bs). intros T HT.
  assert (HT' : Z.of_nat (length T) = 1024) by (rewrite HT; done).
  generalize ((buckets 32 0 cur).1 ≫= bucketBytes). intros B.
  split.
  { rewrite get32_head, u32_small; [done | lia]. }
  split.
  { rewrite (get32_skip _ _ 4) by done. apply get32_head. }
  rewrite !(get32_skip (be32 _) _ 4), !(get8_skip (be32 _) _ 4),
    !(getBytes_skip (be32 _) _ 4) by done.
  rewrite !(get32_skip T _ 1024), (get8_skip T _ 1024),
    (getBytes_skip T _ 1024) by done.
  split; [apply get32_head |].
  rewrite (get32_skip (be32 _) _ 4), (get8_skip (be32 _) _ 4),
    (getBytes_skip (be32 _) _ 4) by done.
  split; [reflexivity |].
  rewrite !(get32_skip [4] _ 1), (getBytes_skip [4] _ 1) by done.
  split; [by apply getBytes_head |].
  rewrite (get32_skip (cstr "DSDB") _ 4) by done. apply get32_head.
Qed.

(** X9: on an allocator whose header and metadata blocks are as the
    constructor made them, whose other blocks have sizes from 1 byte on and
    addresses that are multiples of 32, [createMetaDataBlock] writes, into
    the metadata block (block id 0): at offset 0 the number of the blocks
    but the header block, then a zero word; behind the 256 slots of the
    table, at offset 1032, the one entry of the directory, that is the
    count 1, the length byte 4, the name [DSDB] and, at offset 1041, the
    block id of the master block of the B-tree it was called with; and it
    leaves the bump pointer at 0. *)
Theorem metadata_directory (id : Z) (a : BuddyAllocator) (rest : list Block) :
  blocks a = newBlock 0 32 :: newBlock 32 2048 :: rest ->
  Forall slotOk rest -> 0 <= curAddr a < 2 ^ 32 ->
  Z.of_nat (length rest) < 2 ^ 32 - 1 ->
  exists a' m,
    createMetaDataBlock id a = Ok a' /\
    getBlock 0 a' = Ok m /\ curAddr a' = 0 /\
    get32 (data (rec m)) 0 = Some (Z.of_nat (length rest) + 1) /\
    get32 (data (rec m)) 4 = Some 0 /\
    get32 (data (rec m)) 1032 = Some 1 /\
    get8 (data (rec m)) 1036 = Some 4 /\
    getBytes (data (rec m)) 1037 4 = Some (cstr "DSDB") /\
    get32 (data (rec m)) 1041 = Some (u32 id).
Proof.
  intros Hbs Hrest Hcur Hlen. eexists _, _.
  split; [by apply createMetaDataBlock_new |].
  split; [reflexivity |]. split; [reflexivity |].
  cbn [rec]. rewrite data_put_newRec.
  destruct (metaBytes_fields id (newBlock 32 2048 :: rest) (curAddr a)
              (replicate (Z.to_nat 2048 - length (metaBytes id
                 (newBlock 32 2048 :: rest) (curAddr a))) 0))
    as (H0 & H4 & H1032 & H1036 & H1037 & H1041); [cbn [length]; lia |].
  rewrite H0. split; [f_equal; cbn [length]; lia | done].
Qed.

Lemma metadata_directory_witness :
  exists a' m,
    createMetaDataBlock 2 (allocateAll [2048; 20] newBuddy).2 = Ok a' /\
    getBlock 0 a' = Ok m /\ curAddr a' = 0 /\
    get32 (data (rec m)) 0 =
      Some (Z.of_nat (length [newBlock 2080 2048; newBlock 4128 32]) + 1) /\
    get32 (data (rec m)) 4 = Some 0 /\
    get32 (data (rec m)) 1032 = Some 1 /\
    get8 (data (rec m)) 1036 = Some 4 /\
    getBytes (data (rec m)) 1037 4 = Some (cstr "DSDB") /\
    get32 (data (rec m)) 1041 = Some (u32 2).
Proof.
  apply (metadata_directory 2 (allocateAll [2048; 20] newBuddy).2
           [newBlock 2080 2048; newBlock 4128 32]).
  - reflexivity.
  - repeat constructor; by vm_compute.
  - by vm_compute.
  - by vm_compute.
Defined.

(** ** createMetaDataBlock: an address the table cannot hold *)

Lemma tableLoop_misaligned n : forall i bs m pre b post,
  0 <= i -> i + Z.of_nat n <= 256 ->
  bs !! 1%nat = Some m -> rinv (rec m) -> room (4 * Z.of_nat n) (rec m) ->
  drop (Z.to_nat (i + 1)) bs = pre ++ b :: post ->
  Forall slotOk pre -> (length pre < n)%nat ->
  0 < size b < 2 ^ 32 -> Z.land (getAddr b) 0x1f <> 0 ->
  tableLoop n i bs = Fail AssertionFailed.
Proof.
  induction n as [| n IH]; intros i bs m pre b post Hi Hn Hm Hr Hroom Hd Hpre
    Hlen Hsz Hal; [lia |].
  cbn [tableLoop]. rewrite (u32_small (i + 1)) by lia.
  assert (Hlt : (1 < length bs)%nat) by (by eapply lookup_lt_Some).
  assert (Hex : exists x, bs !! Z.to_nat (i + 1) = Some x /\
            drop (Z.to_nat (i + 1)) bs = x :: drop (Z.to_nat (i + 1 + 1)) bs).
  { destruct (bs !! Z.to_nat (i + 1)) as [x |] eqn:E.
    - exists x. split; [done |]. rewrite (drop_S _ _ _ E). do 2 f_equal. lia.
    - apply lookup_ge_None in E. rewrite drop_ge in Hd by done.
      by destruct pre. }
  destruct Hex as (x & Hx & Hdx).
  assert (Hin : i < Z.of_nat (length bs) - 1).
  { apply lookup_lt_Some in Hx. lia. }
  destruct (Z.ltb_spec i (Z.of_nat (length bs) - 1)); [| lia].
  rewrite Hx. rewrite Hdx in Hd. destruct pre as [| p pre].
  - injection Hd as -> Hpost. rewrite getLog2_ok by done. cbn [bind].
    by destruct (Z.eqb_spec (Z.land (getAddr b) 31) 0).
  - injection Hd as -> Hd. apply Forall_cons in Hpre as [[Hs Ha] Hpre].
    rewrite getLog2_ok by done. cbn [bind].
    destruct (Z.eqb_spec (Z.land (getAddr p) 31) 0); [| done].
    cbn [assert bind].
    rewrite (updAt_put _ _ (be32 (Z.lor (getAddr p) (Z.log2 (size p)))) _ m)
      by (done || apply writer_writeInt32
          || (eapply room_le; [done |]; rewrite length_be32; lia)).
    cbn [bind].
    apply (IH (i + 1) _ (mkBlock (put (be32 (Z.lor (getAddr p) (Z.log2 (size p))))
                                     (rec m)) (addr m)) pre b post).
    + lia.
    + lia.
    + by apply list_lookup_insert_eq.
    + cbn [rec]. apply rinv_put; [done |].
      eapply room_le; [done |]. rewrite length_be32. lia.
    + cbn [rec]. apply room_put; [| lia].
      eapply room_le; [done |]. rewrite length_be32. lia.
    + rewrite drop_insert_lt by lia. done.
    + done.
    + cbn [length] in Hlen. lia.
    + done.
    + done.
Qed.

Lemma createMetaDataBlock_stops id a h m pre b post :
  blocks a = h :: m :: pre ++ b :: post ->
  rinv (rec m) -> room 1301 (rec m) -> slotOk m ->
  Forall slotOk pre -> (length pre < 255)%nat ->
  0 < size b < 2 ^ 32 -> Z.land (getAddr b) 0x1f <> 0 ->
  createMetaDataBlock id a = Fail AssertionFailed.
Proof.
  intros Hbs Hrm Hroomm Hokm Hpre Hlen Hsz Hal. unfold createMetaDataBlock.
  rewrite Hbs. cbv zeta.
  set (rest := pre ++ b :: post). set (bs0 := h :: m :: rest).
  assert (Hm : bs0 !! 1%nat = Some m) by done.
  change (at_ bs0 1) with (Ok m). cbn [bind].
  replace (Z.of_nat (length bs0) - 1) with (Z.of_nat (length (m :: rest)))
    by (unfold bs0; cbn [length]; lia).
  rewrite (ref_start 1 bs0 m Hm Hrm) at 1.
  rewrite (ref_step 1 _ (be32 (Z.of_nat (length (m :: rest)))) [] bs0 m)
    by (done || apply writer_writeInt32 || solve_room). cbn [bind].
  rewrite (ref_step 1 _ (be32 0) _ bs0 m)
    by (done || apply writer_writeInt32 || solve_room). cbn [bind].
  set (W := ([] ++ be32 (Z.of_nat (length (m :: rest)))) ++ be32 0).
  assert (HW : length W = 8%nat) by done.
  set (M1 := mkBlock (put W (rec m)) (addr m)).
  rewrite (tableLoop_misaligned 256 0 _ M1 (M1 :: pre) b post);
    [done | | | | | | | | | |].
  - lia.
  - lia.
  - apply list_lookup_insert_eq. unfold bs0. simpl. lia.
  - apply rinv_put; [done |]. rewrite HW. solve_room.
  - apply room_put; [| lia]. rewrite HW. solve_room.
  - reflexivity.
  - apply Forall_cons. split; [| done]. unfold M1. destruct Hokm as [Hs Ha].
    split; [| done]. rewrite size_put by (rewrite HW; solve_room). done.
  - cbn [length]. lia.
  - done.
  - done.
Qed.

(** X10: when one of the first 256 blocks behind the header block has an
    address that is not a multiple of 32, the blocks before it being good
    for the table, [createMetaDataBlock] stops on its assertion
    [(addr & 0x1f) == 0]: the allocator hands out such addresses (after a
    block of fewer than 32 bytes), and only here are they found out. *)
Theorem createMetaDataBlock_misaligned (id : Z) (a : BuddyAllocator)
    (pre : list Block) (b : Block) (post : list Block) :
  blocks a = newBlock 0 32 :: newBlock 32 2048 :: pre ++ b :: post ->
  Forall slotOk pre -> (length pre < 255)%nat ->
  0 < size b < 2 ^ 32 -> Z.land (getAddr b) 0x1f <> 0 ->
  createMetaDataBlock id a = Fail AssertionFailed.
Proof.
  intros Hbs Hpre Hlen Hsz Hal.
  apply (createMetaDataBlock_stops id a _ _ pre b post Hbs);
    [apply rinv_newRec; lia | apply room_newRec; lia | apply slotOk_metaData
    | exact Hpre | exact Hlen | exact Hsz | exact Hal].
Qed.

Lemma createMetaDataBlock_misaligned_witness :
  createMetaDataBlock 0 (allocateAll [1; 1] newBuddy).2 = Fail AssertionFailed.
Proof.
  apply (createMetaDataBlock_misaligned 0 (allocateAll [1; 1] newBuddy).2
           [newBlock 2080 1] (newBlock 2081 1) []).
  - reflexivity.
  - repeat constructor; by vm_compute.
  - simpl. lia.
  - by vm_compute.
  - by vm_compute.
Defined.

(** ** BTree: the leaf page read back, the master block, the capacity *)

Lemma room_newPage a n : 0 <= n <= 2040 -> room n (rec (newPage a)).
Proof.
  intros Hn. unfold room. rewrite curOffset_newPage, length_data_newPage. lia.
Qed.

(** X11: the entries added to a new tree are read back from its page
    after [finish()], in the order of the calls: for calls whose record
    types have four characters and whose entries take 2040 bytes at most
    together, the constructor, the calls and [finish()] succeed, and the
    page decodes to the entries of the calls, names as UTF-16 code units,
    values by their tags [blob], [bool] and [shor]. *)
Theorem leaf_round_trip (a : BuddyAllocator) (cs : list add) :
  (1 <= length (blocks a))%nat ->
  Z.of_nat (length (blocks a)) < 2 ^ 32 - 2 ->
  Forall wfAdd cs ->
  Z.of_nat (length (cs ≫= entryBytes)) <= 2040 ->
  exists t0 t master t' leaf,
    newBTree a = Ok t0 /\
    runAdds cs t0 = Ok t /\
    finish t = Ok (master, t') /\
    getBlock (curPageId t0) (buddy t') = Ok leaf /\
    readLeaf (data (rec leaf)) = Some (entryOf <$> cs).
Proof.
  intros H1 H2 Hwf Hfit.
  assert (Hroom : room (Z.of_nat (length (cs ≫= entryBytes))) (rec (newPage a)))
    by (apply room_newPage; lia).
  pose proof (pageOf_newTree a H1 ltac:(lia)) as Hp0.
  destruct (runAdds_spec cs _ _ Hp0) as [Hok _]. specialize (Hok Hroom).
  destruct (runAdds_newTree a cs _ H1 ltac:(lia) Hok) as (_ & _ & Hn & Hcount).
  pose proof (pageOf_afterAdds cs _ _ Hp0 Hroom) as Hp.
  set (T := afterAdds cs (newTree a) (newPage a)) in *.
  set (b := mkBlock (put (cs ≫= entryBytes) (rec (newPage a))) (addr (newPage a)))
    in *.
  assert (HlenB : length (blocks (buddy T)) = S (length (blocks a))).
  { unfold T, afterAdds, newTree. cbn [buddy blocks].
    rewrite length_insert, length_app. simpl. lia. }
  destruct (afterFinish_blocks T b Hp ltac:(lia)) as (Hleaf & _ & _).
  eexists (newTree a), T, _, (afterFinish T b), _.
  split; [apply newBTree_ok; lia |]. split; [exact Hok |].
  split.
  { apply finish_ok; [exact Hp | | lia].
    unfold b. cbn [rec]. rewrite length_data_put, length_data_newPage by done.
    lia. }
  split; [exact Hleaf |].
  cbn [rec]. rewrite Hcount. unfold b. cbn [rec].
  rewrite (leaf_data a cs _ Hroom).
  by apply (readLeaf_leaf _ cs (replicate (2040 - length (cs ≫= entryBytes)) 0));
    [| lia |].
Qed.

Lemma leaf_round_trip_witness :
  exists t0 t master t' leaf,
    newBTree newBuddy = Ok t0 /\
    runAdds [AddBlob "." "BKGD" [1; 2; 3]; AddBool "." "ICVO" 1;
             AddShort "." "icvt" 16] t0 = Ok t /\
    finish t = Ok (master, t') /\
    getBlock (curPageId t0) (buddy t') = Ok leaf /\
    readLeaf (data (rec leaf)) =
      Some (entryOf <$> [AddBlob "." "BKGD" [1; 2; 3]; AddBool "." "ICVO" 1;
                         AddShort "." "icvt" 16]).
Proof.
  apply (leaf_round_trip newBuddy
           [AddBlob "." "BKGD" [1; 2; 3]; AddBool "." "ICVO" 1;
            AddShort "." "icvt" 16]).
  - simpl. lia.
  - by vm_compute.
  - repeat constructor; by vm_compute.
  - by vm_compute.
Defined.

(** X12: [finish()] on a tree of [n] entries returns the id that follows
    the id of the page, that of the master block it allocates: a block of
    32 bytes that holds, as big-endian words, the block id of the page, the
    depth 0, the entry count [n], the node count 1 and the page size 4096,
    and 12 zero bytes; the page itself is a block of 2048 bytes, not
    4096. *)
Theorem master_block_fields (a : BuddyAllocator) (cs : list add) (t : BTree) :
  (1 <= length (blocks a))%nat ->
  Z.of_nat (length (blocks a)) < 2 ^ 32 - 2 ->
  (do t0 <- newBTree a; runAdds cs t0) = Ok t ->
  exists t0 master t' m leaf,
    newBTree a = Ok t0 /\
    finish t = Ok (master, t') /\
    master = curPageId t0 + 1 /\
    getBlock master (buddy t') = Ok m /\
    size m = 32 /\
    data (rec m) =
      be32 (curPageId t0) ++ be32 0 ++ be32 (Z.of_nat (length cs)) ++ be32 1
        ++ be32 4096 ++ replicate 12 0 /\
    getBlock (curPageId t0) (buddy t') = Ok leaf /\
    size leaf = 2048.
Proof.
  intros H1 H2 H. rewrite newBTree_ok in H by lia. cbn [bind] in H.
  destruct (runAdds_newTree a cs t H1 ltac:(lia) H) as (Hroom & -> & Hn & Hcount).
  pose proof (pageOf_newTree a H1 ltac:(lia)) as Hp0.
  pose proof (pageOf_afterAdds cs _ _ Hp0 Hroom) as Hp.
  set (T := afterAdds cs (newTree a) (newPage a)) in *.
  set (b := mkBlock (put (cs ≫= entryBytes) (rec (newPage a))) (addr (newPage a)))
    in *.
  assert (HlenB : length (blocks (buddy T)) = S (length (blocks a))).
  { unfold T, afterAdds, newTree. cbn [buddy blocks].
    rewrite length_insert, length_app. simpl. lia. }
  assert (Hsb : length (data (rec b)) = 2048%nat).
  { unfold b. cbn [rec]. by rewrite length_data_put, length_data_newPage. }
  destruct (afterFinish_blocks T b Hp ltac:(lia)) as (Hleaf & Hmaster & _).
  eexists (newTree a), _, (afterFinish T b), _, _.
  split; [apply newBTree_ok; lia |].
  split; [apply finish_ok; [exact Hp | lia | lia] |].
  split; [rewrite HlenB; cbn [newTree curPageId]; lia |].
  split; [exact Hmaster |].
  split.
  { unfold size. cbn [rec]. rewrite length_data_put by (by apply room_newRec).
    done. }
  split.
  { cbn [rec]. rewrite data_put_newRec, Hcount. unfold masterBytes.
    rewrite <- !app_assoc. done. }
  split; [exact Hleaf |].
  unfold size. cbn [rec]. rewrite length_data_put.
  - unfold seek. cbn [data]. rewrite Hsb. done.
  - unfold room, seek. cbn [data curOffset]. rewrite Hsb.
    change (u32 4) with 4. change (Z.of_nat (length (be32 (entryCount T)))) with 4.
    lia.
Qed.

Lemma master_block_fields_witness :
  let a := newBuddy in
  let cs := [AddBlob "." "BKGD" [1; 2; 3]; AddBool "." "ICVO" 1] in
  let t := match (do t0 <- newBTree a; runAdds cs t0) with
           | Ok t => t
           | Fail _ => mkBTree a 0 0
           end in
  exists t0 master t' m leaf,
    newBTree a = Ok t0 /\
    finish t = Ok (master, t') /\
    master = curPageId t0 + 1 /\
    getBlock master (buddy t') = Ok m /\
    size m = 32 /\
    data (rec m) =
      be32 (curPageId t0) ++ be32 0 ++ be32 (Z.of_nat (length cs)) ++ be32 1
        ++ be32 4096 ++ replicate 12 0 /\
    getBlock (curPageId t0) (buddy t') = Ok leaf /\
    size leaf = 2048.
Proof.
  intros a cs t.
  apply (master_block_fields a cs t); [simpl; lia | by vm_compute | by vm_compute].
Defined.

(** ** BTree: a page that is full *)

Lemma writeChars_fail cs : forall r e, writeChars cs r = Fail e -> e = Undefined.
Proof.
  induction cs as [| c cs IH]; intros r e H; [done |].
  cbn [writeChars] in H. apply bind_fail in H as [H | (r' & _ & H)].
  - by apply writeInt16_fail in H.
  - by apply IH in H.
Qed.

Lemma nameWriter_fail s r e : nameWriter s r = Fail e -> e = Undefined.
Proof.
  unfold nameWriter. cbv zeta. intros H.
  apply bind_fail in H as [H | (r' & _ & H)].
  - by apply writeInt32_fail in H.
  - by apply writeChars_fail in H.
Qed.

Lemma addWriter_fail c r e : addWriter c r = Fail e -> e = Undefined.
Proof.
  unfold addWriter. intros H.
  apply bind_fail in H as [H | (r1 & _ & H)]; [by apply nameWriter_fail in H |].
  destruct c as [f ty bytes | f ty v | f ty v];
    (apply bind_fail in H as [H | (r2 & _ & H)]; [by apply writeStr_fail in H |]);
    (apply bind_fail in H as [H | (r3 & _ & H)]; [by apply writeStr_fail in H |]).
  - apply bind_fail in H as [H | (r4 & _ & H)]; [by apply writeInt32_fail in H |].
    by apply writeData_fail in H.
  - by apply writeInt8_fail in H.
  - by apply writeInt32_fail in H.
Qed.

Lemma runAdd_fail c t b e :
  pageOf t b -> runAdd c t = Fail e -> e = Undefined.
Proof.
  intros (Hid & Hb & Hr & Hn) H. rewrite runAdd_addWriter in H.
  apply bind_fail in H as [H | (a' & _ & H)]; [| done].
  unfold updBlock in H. rewrite getBlock_at in H by done.
  unfold at_, pageIdx in *. rewrite Hb in H. cbn [bind] in H.
  apply bind_fail in H as [H | (b' & _ & H)]; [| done].
  unfold onRec in H. apply bind_fail in H as [H | (r' & _ & H)]; [| done].
  by apply addWriter_fail in H.
Qed.

Lemma runAdds_fail cs : forall t b e,
  pageOf t b -> runAdds cs t = Fail e -> e = Undefined.
Proof.
  induction cs as [| c cs IH]; intros t b e Hp H; [done |].
  cbn [runAdds] in H. apply bind_fail in H as [H | (t' & Ht' & H)].
  - by eapply runAdd_fail.
  - assert (Hroom : room (Z.of_nat (length (entryBytes c))) (rec b)).
    { destruct Hp as (Hid & Hb & Hr & Hn). by eapply runAdd_inv. }
    assert (E1 : [c] ≫= entryBytes = entryBytes c) by (simpl; apply app_nil_r).
    pose proof (pageOf_afterAdds [c] t b Hp ltac:(by rewrite E1)) as Hp'.
    destruct (runAdds_spec [c] t b Hp) as [Hok _].
    rewrite E1 in Hok. specialize (Hok Hroom). cbn [runAdds] in Hok.
    rewrite Ht' in Hok. cbn [bind] in Hok. injection Hok as ->.
    by eapply IH.
Qed.

(** X13: the page of a tree holds 2040 bytes of entries, and no call
    checks it: calls whose entries take 2040 bytes at most together all
    succeed and are counted; as soon as they take more, the call that goes
    over the end of the page writes outside the vector (undefined
    behaviour), whatever the calls that follow. *)
Theorem page_capacity (a : BuddyAllocator) (cs : list add) :
  (1 <= length (blocks a))%nat ->
  Z.of_nat (length (blocks a)) < 2 ^ 32 - 1 ->
  (Z.of_nat (length (cs ≫= entryBytes)) <= 2040 ->
     exists t, (do t0 <- newBTree a; runAdds cs t0) = Ok t /\
       entryCount t = Z.of_nat (length cs)) /\
  (2040 < Z.of_nat (length (cs ≫= entryBytes)) ->
     (do t0 <- newBTree a; runAdds cs t0) = Fail Undefined).
Proof.
  intros H1 H2. rewrite newBTree_ok by done. cbn [bind].
  pose proof (pageOf_newTree a H1 H2) as Hp0.
  destruct (runAdds_spec cs _ _ Hp0) as [Hok Hinv]. split.
  - intros Hfit. eexists. split; [apply Hok, room_newPage; lia |].
    cbn [afterAdds entryCount newTree]. rewrite u32_small; [lia |].
    pose proof (length_bind_entryBytes cs). lia.
  - intros Hbig. destruct (runAdds cs (newTree a)) as [t | e] eqn:E.
    + specialize (Hinv t eq_refl). destruct Hinv as (_ & Hr & _).
      rewrite curOffset_newPage, length_data_newPage in Hr. lia.
    + by rewrite (runAdds_fail cs _ _ e Hp0 E).
Qed.

Lemma page_capacity_witness :
  (Z.of_nat (length ([AddBool "." "ICVO" 1] ≫= entryBytes)) <= 2040 ->
     exists t, (do t0 <- newBTree newBuddy; runAdds [AddBool "." "ICVO" 1] t0) = Ok t /\
       entryCount t = Z.of_nat (length [AddBool "." "ICVO" 1])) /\
  (2040 < Z.of_nat (length ([AddBool "." "ICVO" 1] ≫= entryBytes)) ->
     (do t0 <- newBTree newBuddy; runAdds [AddBool "." "ICVO" 1] t0) = Fail Undefined).
Proof.
  apply (page_capacity newBuddy [AddBool "." "ICVO" 1]); [simpl; lia | by vm_compute].
Defined.

(** ** BTree: the characters of a name *)

Lemma be16_char c :
  isByte c -> be16 (char_to_u16 c) = [if c <? 128 then 0 else 255; c].
Proof.
  intros Hc. unfold isByte in Hc. unfold char_to_u16, be16.
  destruct (Z.ltb_spec c 128) as [Hlt | Hge].
  - assert (E : u16 c = c) by (apply Z.mod_small; lia). rewrite E.
    rewrite Z.shiftr_div_pow2 by lia. rewrite (Z.div_small c) by lia.
    f_equal. f_equal. apply Z.mod_small. lia.
  - assert (E : u16 (u16 (c - 256)) = 65280 + c).
    { unfold u16. rewrite Z.mod_mod by lia. symmetry.
      apply (Z.mod_unique _ _ (-1)); lia. }
    rewrite E. rewrite Z.shiftr_div_pow2 by lia.
    assert (E2 : (65280 + c) / 2 ^ 8 = 255).
    { symmetry. apply (Z.div_unique _ _ _ c); lia. }
    rewrite E2. f_equal. f_equal. unfold u8. symmetry.
    apply (Z.mod_unique _ _ 255); lia.
Qed.

Lemma bind_be16_char cs :
  Forall isByte cs ->
  (cs ≫= fun c => be16 (char_to_u16 c)) =
  (cs ≫= fun c => [if c <? 128 then 0 else 255; c]).
Proof.
  induction 1 as [| c cs Hc _ IH]; [done |].
  by rewrite !bind_cons, IH, be16_char.
Qed.

(** X14: [writeFileName] writes the length of the name, as a big-endian
    word, and then each character as a big-endian 16-bit unit: the high
    byte is 0 for an ASCII character and, [char] being signed and the
    conversion to [uint16_t] extending the sign, 0xff for a byte from 128
    on, so that only ASCII names come out as UTF-16. *)
Theorem writeFileName_bytes (s : string) (t : BTree) (b : Block) :
  pageOf t b -> strlen s < 2 ^ 32 ->
  room (4 + 2 * strlen s) (rec b) ->
  writeFileName s t =
    Ok (mkBuddy
          (<[pageIdx t :=
               mkBlock (put (be32 (strlen s)
                               ++ (cstr s ≫= fun c => [if c <? 128 then 0 else 255; c]))
                            (rec b)) (addr b)]> (blocks (buddy t)))
          (curAddr (buddy t))).
Proof.
  intros (Hid & Hb & Hr & Hn) Hs Hroom. unfold writeFileName.
  fold (nameWriter s).
  destruct (writer_nameWriter s (rec b) Hr) as [Hw _].
  rewrite length_nameBytes in Hw by done. specialize (Hw Hroom).
  rewrite (updBlock_ok _ _ _ b _ Hid Hb Hw). unfold pageIdx, nameBytes.
  rewrite strBytes_cstr by done.
  rewrite bind_be16_char by apply Forall_isByte_cstr.
  rewrite u32_small by (pose proof (strlen_nonneg s); lia). done.
Qed.

Lemma writeFileName_bytes_witness :
  writeFileName "icon.png" (newTree newBuddy) =
    Ok (mkBuddy
          (<[pageIdx (newTree newBuddy) :=
               mkBlock (put (be32 (strlen "icon.png")
                               ++ (cstr "icon.png" ≫=
                                     fun c => [if c <? 128 then 0 else 255; c]))
                            (rec (newPage newBuddy))) (addr (newPage newBuddy))]>
             (blocks (buddy (newTree newBuddy))))
          (curAddr (buddy (newTree newBuddy)))).
Proof.
  apply (writeFileName_bytes "icon.png" (newTree newBuddy) (newPage newBuddy)).
  - repeat split; by vm_compute.
  - by vm_compute.
  - repeat split; by vm_compute.
Defined.

(** ** getInt *)

Lemma skipSpaces_split bs :
  exists ws, bs = ws ++ skipSpaces bs /\
    Forall (fun b => isspace b = true) ws /\
    match skipSpaces bs with b :: _ => isspace b = false | [] => True end.
Proof.
  induction bs as [| b bs (ws & E & Hws & Hhd)]; [by exists [] |].
  cbn [skipSpaces]. destruct (isspace b) eqn:Hb.
  - exists (b :: ws). split; [cbn; by rewrite <- E |]. split; [| done].
    by constructor.
  - by exists [].
Qed.

Lemma skipSpaces_app ws rest :
  Forall (fun b => isspace b = true) ws ->
  match rest with b :: _ => isspace b = false | [] => True end ->
  skipSpaces (ws ++ rest) = rest.
Proof.
  intros Hws Hrest. induction Hws as [| b ws Hb _ IH].
  - destruct rest as [| b rest]; [done |]. cbn. by rewrite Hrest.
  - cbn. by rewrite Hb.
Qed.

Lemma digits_split bs : forall acc,
  exists ds rest,
    bs = ds ++ rest /\ Forall (fun b => isdigit b = true) ds /\
    digits acc bs = (foldl (fun acc d => acc * 10 + (d - 48)) acc ds, rest) /\
    match rest with b :: _ => isdigit b = false | [] => True end.
Proof.
  induction bs as [| b bs IH]; intros acc; [by exists [], [] |].
  cbn [digits]. destruct (isdigit b) eqn:Hb.
  - destruct (IH (acc * 10 + (b - 48))) as (ds & rest & E & Hds & Hd & Hhd).
    exists (b :: ds), rest. split; [cbn; by rewrite <- E |].
    split; [by constructor |]. done.
  - by exists [], (b :: bs).
Qed.

Lemma digits_all ds : forall acc,
  Forall (fun b => isdigit b = true) ds ->
  digits acc ds = (foldl (fun acc d => acc * 10 + (d - 48)) acc ds, []).
Proof.
  induction ds as [| d ds IH]; intros acc Hds; [done |].
  apply Forall_cons in Hds as [Hd Hds]. cbn [digits foldl]. rewrite Hd.
  by apply IH.
Qed.

Lemma isdigit_not_space b : isdigit b = true -> isspace b = false.
Proof. unfold isdigit, isspace. lia. Qed.

Lemma isdigit_not_sign b : isdigit b = true -> b <> 45 /\ b <> 43.
Proof. unfold isdigit. lia. Qed.

Lemma strtol10_numeral bs ws sg ds :
  numeral bs ws sg ds -> strtol10 bs = (signed sg (decimal ds), []).
Proof.
  intros (-> & Hws & Hsg & Hne & Hds). unfold strtol10.
  destruct ds as [| d ds]; [done |]. pose proof Hds as Hds'.
  apply Forall_cons in Hds' as [Hd _].
  destruct (isdigit_not_sign d Hd) as [H45 H43].
  rewrite skipSpaces_app; [| done |]; cycle 1.
  { destruct Hsg as [-> | [-> | ->]]; [by apply isdigit_not_space | done | done]. }
  unfold signed, decimal.
  destruct Hsg as [-> | [-> | ->]]; cbn [app].
  - destruct (decide (d = 45)) as [-> | _]; [done |].
    destruct (decide (d = 43)) as [-> | _]; [done |].
    assert (E : match d with 45 => (true, ds) | 43 => (false, ds)
                | _ => (false, d :: ds) end = (false, d :: ds)).
    { destruct d as [| p | p]; try done.
      do 6 (destruct p as [p | p |]; try done). }
    rewrite E, Hd, digits_all by done. by rewrite decide_False.
  - rewrite Hd, digits_all by done. by rewrite decide_False.
  - rewrite Hd, digits_all by done. by rewrite decide_True.
Qed.

(** X15: [getInt] accepts a numeral, that is white space, an optional sign
    and decimal digits up to the end of the string, and returns the number
    it denotes, kept within the range of [long] as [strtol] does and then
    cut to 32 bits: a negative number and a number from 2^32 on wrap
    around. *)
Theorem getInt_numeral (f : string) (ws sg ds : list Z) :
  numeral (cstr f) ws sg ds ->
  getInt f = Ok (u32 (signed sg (decimal ds))).
Proof. intros H. unfold getInt. by rewrite (strtol10_numeral _ _ _ _ H). Qed.

Lemma getInt_numeral_witness :
  getInt " -12" = Ok (u32 (signed [45] (decimal [49; 50]))) /\
  u32 (signed [45] (decimal [49; 50])) = 4294967284.
Proof.
  split; [| reflexivity].
  apply (getInt_numeral " -12" [32] [45] [49; 50]).
  unfold numeral. split; [reflexivity |].
  split; [by repeat constructor |]. split; [by right; right |].
  split; [done | by repeat constructor].
Defined.

(** X16: [getInt] returns for a numeral and for the empty string only, the
    empty string giving 0: for every other string, as one with a character
    behind the digits, with no digit at all, or of white space only, it
    prints its message and exits with status 1. *)
Theorem getInt_accepts (f : string) :
  (forall v, getInt f = Ok v ->
     (cstr f = [] /\ v = 0) \/
     exists ws sg ds,
       numeral (cstr f) ws sg ds /\ v = u32 (signed sg (decimal ds))) /\
  (forall e, getInt f = Fail e -> e = Exit 1) /\
  (cstr f = [] -> getInt f = Ok 0).
Proof.
  split; [| split].
  - intros v H. unfold getInt in H.
    destruct (strtol10 (cstr f)) as [x endPtr] eqn:E.
    destruct endPtr as [| c endPtr]; [| done]. injection H as <-.
    unfold strtol10 in E.
    destruct (skipSpaces_split (cstr f)) as (ws & Hbs & Hws & _).
    set (s := skipSpaces (cstr f)) in *.
    assert (Hcase : forall neg s' sg,
      s = sg ++ s' -> isSign sg -> (neg = true <-> sg = [45]) ->
      match s' with
      | b :: _ =>
          if isdigit b then
            let '(v, rest) := digits 0 s' in
            (if neg : bool then Z.max LONG_MIN (- v) else Z.min LONG_MAX v, rest)
          else (0, cstr f)
      | [] => (0, cstr f)
      end = (x, []) ->
      (cstr f = [] /\ u32 x = 0) \/
      exists ws sg ds,
        numeral (cstr f) ws sg ds /\ u32 x = u32 (signed sg (decimal ds))).
    { intros neg s' sg Hs Hsg Hneg H.
      destruct s' as [| b s']; [injection H as <- ->; by left |].
      destruct (isdigit b) eqn:Hb; [| injection H as <- ->; by left].
      destruct (digits_split (b :: s') 0) as (ds & rest & Hd & Hds & Hdig & _).
      rewrite Hdig in H. injection H as <- ->. rewrite app_nil_r in Hd.
      right. exists ws, sg, ds. split.
      - split; [by rewrite Hbs at 1; rewrite Hs, Hd |]. split; [done |].
        split; [done |]. split; [by rewrite <- Hd | done].
      - unfold signed, decimal. destruct neg.
        + by rewrite decide_True by (by apply Hneg).
        + rewrite decide_False; [done |]. intros Hsg'. by apply Hneg in Hsg'. }
    destruct s as [| b s'] eqn:Es.
    + apply (Hcase false [] []); [done | by left | done | done].
    + destruct (decide (b = 45)) as [-> | H45].
      { apply (Hcase true s' [45]); [done | by right; right | done | done]. }
      destruct (decide (b = 43)) as [-> | H43].
      { apply (Hcase false s' [43]); [done | by right; left | done | done]. }
      apply (Hcase false (b :: s') []); [done | by left | done |].
      rewrite <- E. destruct b as [| p | p]; try done.
      do 6 (destruct p as [p | p |]; try done).
  - intros e H. unfold getInt in H.
    destruct (strtol10 (cstr f)) as [x [| c endPtr]]; [done |].
    by injection H as <-.
  - intros Hf. unfold getInt. by rewrite Hf.
Qed.

Lemma getInt_rejections :
  getInt "12abc" = Fail (Exit 1) /\ getInt "abc" = Fail (Exit 1) /\
  getInt " " = Fail (Exit 1) /\ getInt "1.5" = Fail (Exit 1) /\
  getInt "-" = Fail (Exit 1) /\ getInt "" = Ok 0.
Proof. repeat split. Qed.

(** ** createAliasFile: the fixed part of the record *)

Lemma get16_skip (P d : list Z) n off :
  Z.of_nat (length P) = n -> n <= off ->
  get16 (P ++ d) off = get16 d (off - n).
Proof.
  intros <- Hle. unfold get16. rewrite drop_app_ge by lia.
  by replace (Z.to_nat off - length P)%nat
    with (Z.to_nat (off - Z.of_nat (length P))) by lia.
Qed.

Lemma take_splice_low (d : list Z) (o k : nat) bs :
  (o + length bs <= k)%nat -> (k <= length d)%nat ->
  take k (splice d o bs) = splice (take k d) o bs.
Proof.
  intros Ho Hk. unfold splice.
  rewrite take_app_ge by (rewrite length_take; lia).
  rewrite length_take, Nat.min_l by lia.
  rewrite take_app_ge by lia.
  rewrite take_take, Nat.min_l by lia.
  rewrite take_drop_commute.
  by replace (o + length bs + (k - o - length bs))%nat with k by lia.
Qed.

Lemma take_splice_high (d : list Z) (o k : nat) bs :
  (k <= o)%nat -> (o <= length d)%nat ->
  take k (splice d o bs) = take k d.
Proof.
  intros Ho Hk. unfold splice.
  rewrite take_app_le by (rewrite length_take; lia).
  rewrite take_take. f_equal. lia.
Qed.

Lemma memcpy_head d n H off bs :
  heading d n H -> 0 <= off -> off + Z.of_nat (length bs) <= 150 ->
  exists d', memcpy d off bs = Ok d' /\
    heading d' n (splice H (Z.to_nat off) bs).
Proof.
  intros (Hl & HH) Ho Hb. exists (splice d (Z.to_nat off) bs).
  split; [apply memcpy_ok; lia |]. split.
  - rewrite length_splice; lia.
  - rewrite take_splice_low by lia. by rewrite HH.
Qed.

Lemma store_head d n H off v :
  heading d n H -> 0 <= off < 150 ->
  exists d', store d off v = Ok d' /\
    heading d' n (splice H (Z.to_nat off) [u8 v]).
Proof.
  intros (Hl & HH) Ho. exists (splice d (Z.to_nat off) [u8 v]).
  split; [apply store_ok; lia |]. split.
  - rewrite length_splice by (cbn [length]; lia). lia.
  - rewrite take_splice_low by (cbn [length]; lia). by rewrite HH.
Qed.

Lemma memcpy_tail d n H off bs :
  heading d n H -> 150 <= off ->
  off + Z.of_nat (length bs) <= 150 + Z.of_nat n ->
  exists d', memcpy d off bs = Ok d' /\ heading d' n H.
Proof.
  intros (Hl & HH) Ho Hb. exists (splice d (Z.to_nat off) bs).
  split; [apply memcpy_ok; lia |]. split.
  - rewrite length_splice; lia.
  - rewrite take_splice_high by lia. done.
Qed.

Lemma store_tail d n H off v :
  heading d n H -> 150 <= off < 150 + Z.of_nat n ->
  exists d', store d off v = Ok d' /\ heading d' n H.
Proof.
  intros (Hl & HH) Ho. exists (splice d (Z.to_nat off) [u8 v]).
  split; [apply store_ok; lia |]. split.
  - rewrite length_splice by (cbn [length]; lia). lia.
  - rewrite take_splice_high by lia. done.
Qed.

Lemma splice_zeros3 P (k o g k' : nat) bs :
  o = (length P + g)%nat -> k = (g + length bs + k')%nat ->
  splice (P ++ replicate k 0) o bs = (P ++ replicate g 0 ++ bs) ++ replicate k' 0.
Proof.
  intros Ho ->. rewrite (splice_zeros' P _ o g bs Ho) by lia.
  do 2 f_equal. lia.
Qed.

Ltac head B B' :=
  match goal with
  | |- context [memcpy ?d ?off ?bs] =>
      let E := fresh "E" in
      let d' := fresh "d" in
      destruct (memcpy_head d _ _ off bs B) as (d' & E & B');
      [ | | rewrite E; cbn [bind]; clear E B ]
  | |- context [store ?d ?off ?v] =>
      let E := fresh "E" in
      let d' := fresh "d" in
      destruct (store_head d _ _ off v B) as (d' & E & B');
      [ | rewrite E; cbn [bind]; clear E B ]
  end.

Ltac tail B B' :=
  match goal with
  | |- context [memcpy ?d ?off ?bs] =>
      let E := fresh "E" in
      let d' := fresh "d" in
      destruct (memcpy_tail d _ _ off bs B) as (d' & E & B');
      [ | | rewrite E; cbn [bind]; clear E B ]
  | |- context [store ?d ?off ?v] =>
      let E := fresh "E" in
      let d' := fresh "d" in
      destruct (store_tail d _ _ off v B) as (d' & E & B');
      [ | rewrite E; cbn [bind]; clear E B ]
  end.

Lemma createAliasFile_head v f :
  strlen v <= 27 -> strlen f <= 63 ->
  exists d,
    createAliasFile v f = Ok d /\
    take 150 d =
      replicate 4 0 ++ be16 (158 + paddedLen v f) ++ be16 2 ++ replicate 2 0
        ++ [strlen v] ++ cstr v ++ replicate (Z.to_nat (27 - strlen v)) 0
        ++ replicate 4 0 ++ be16 0x482b ++ replicate 2 0 ++ be32 2
        ++ [strlen f] ++ cstr f ++ replicate (Z.to_nat (63 - strlen f)) 0
        ++ replicate 16 0 ++ be16 0xffff ++ be16 0xffff ++ replicate 16 0.
Proof.
  intros Hv Hf. pose proof (strlen_nonneg v). pose proof (strlen_nonneg f).
  unfold createAliasFile. cbv zeta.
  rewrite (u32_small (strlen v)), (u32_small (strlen f)) by lia.
  fold (pathLen v f). rewrite (u32_small (pathLen v f)) by (unfold pathLen; lia).
  rewrite land_1_odd.
  replace (if Z.odd (pathLen v f) then u32 (pathLen v f + 1) else pathLen v f)
    with (paddedLen v f)
    by (unfold paddedLen; destruct (Z.odd _);
        [rewrite u32_small; unfold pathLen; lia | done]).
  assert (Hpad : pathLen v f <= paddedLen v f <= pathLen v f + 1)
    by (destruct (paddedLen_cases v f) as [[-> _] | [-> _]]; lia).
  assert (HL : pathLen v f = strlen v + strlen f + 1) by done.
  unfold AliasFile.sizeof, AliasFile.extraData, AliasFile.recordSize,
    AliasFile.recordVersion, AliasFile.volumeLenAndName, AliasFile.volumeSig,
    AliasFile.parentInode, AliasFile.fileLenAndName, AliasFile.fileInode,
    AliasFile.fileFrom, AliasFile.fileTo.
  rewrite (u32_small (150 + 8 + paddedLen v f)) by lia.
  rewrite !(take_ge (cstr _)) by (unfold strlen in *; lia).
  remember (Z.to_nat (8 + paddedLen v f)) as n eqn:Hn.
  assert (B0 : heading (replicate (Z.to_nat (150 + 8 + paddedLen v f)) 0) n
                       ([] ++ replicate 150 0)).
  { unfold heading. rewrite length_replicate, take_replicate.
    split; [lia |]. cbn [app]. f_equal. lia. }
  assert (Hlv : Z.of_nat (length (cstr v)) = strlen v) by done.
  assert (Hlf : Z.of_nat (length (cstr f)) = strlen f) by done.
  head B0 B1; [lia | rewrite length_be16; lia |].
  head B1 B2; [lia | rewrite length_be16; lia |].
  head B2 B3; [lia |].
  head B3 B4; [lia | lia |].
  head B4 B5; [lia | rewrite length_be16; lia |].
  head B5 B6; [lia | rewrite length_be32; lia |].
  head B6 B7; [lia |].
  head B7 B8; [lia | lia |].
  head B8 B9; [lia | cbn [length]; lia |].
  head B9 B10; [lia | rewrite length_be16; lia |].
  head B10 B11; [lia | rewrite length_be16; lia |].
  tail B11 B12; [lia | rewrite length_be16; lia |].
  tail B12 B13; [lia | rewrite length_be16; lia |].
  tail B13 B14; [lia | lia |].
  tail B14 B15; [lia |].
  tail B15 B16; [lia | lia |].
  tail B16 B17; [lia |].
  tail B17 B18; [lia |].
  eexists. split; [reflexivity |]. destruct B18 as [_ ->].
  rewrite (u8_isByte (strlen v)), (u8_isByte (strlen f)) by (unfold isByte; lia).
  rewrite (splice_zeros3 [] _ _ 4 144 (be16 _)) by
    (rewrite ?length_app, ?length_be16, ?length_be32, ?length_replicate;
        cbn [length]; lia).
  rewrite (splice_zeros3 _ _ _ 0 142 (be16 2)) by
    (rewrite ?length_app, ?length_be16, ?length_be32, ?length_replicate;
        cbn [length]; lia).
  rewrite (splice_zeros3 _ _ _ 2 139 [strlen v]) by
    (rewrite ?length_app, ?length_be16, ?length_be32, ?length_replicate;
        cbn [length]; lia).
  rewrite (splice_zeros3 _ _ _ 0 (Z.to_nat (27 - strlen v) + 112) (cstr v)) by
    (rewrite ?length_app, ?length_be16, ?length_be32, ?length_replicate;
        cbn [length]; lia).
  rewrite (splice_zeros3 _ _ _ (Z.to_nat (27 - strlen v) + 4) 106 (be16 18475)) by
    (rewrite ?length_app, ?length_be16, ?length_be32, ?length_replicate;
        cbn [length]; lia).
  rewrite (splice_zeros3 _ _ _ 2 100 (be32 2)) by
    (rewrite ?length_app, ?length_be16, ?length_be32, ?length_replicate;
        cbn [length]; lia).
  rewrite (splice_zeros3 _ _ _ 0 99 [strlen f]) by
    (rewrite ?length_app, ?length_be16, ?length_be32, ?length_replicate;
        cbn [length]; lia).
  rewrite (splice_zeros3 _ _ _ 0 (Z.to_nat (63 - strlen f) + 36) (cstr f)) by
    (rewrite ?length_app, ?length_be16, ?length_be32, ?length_replicate;
        cbn [length]; lia).
  rewrite (splice_zeros3 _ _ _ (Z.to_nat (63 - strlen f)) 32 [0; 0; 0; 0]) by
    (rewrite ?length_app, ?length_be16, ?length_be32, ?length_replicate;
        cbn [length]; lia).
  rewrite (splice_zeros3 _ _ _ 12 18 (be16 65535)) by
    (rewrite ?length_app, ?length_be16, ?length_be32, ?length_replicate;
        cbn [length]; lia).
  rewrite (splice_zeros3 _ _ _ 0 16 (be16 65535)) by
    (rewrite ?length_app, ?length_be16, ?length_be32, ?length_replicate;
        cbn [length]; lia).
  rewrite !replicate_add. cbn [replicate]. rewrite <- !app_assoc. cbn [app].
  replace (150 + 8 + paddedLen v f) with (158 + paddedLen v f) by lia.
  reflexivity.
Qed.

(** X17: for a volume name of 27 bytes at most and a file name of 63 at
    most, the 150 bytes of the fixed part of the alias record are: a zero
    creator code, the size of the whole record and the version 2 as
    big-endian 16-bit words, a zero alias kind; the volume name as a length
    byte and the characters, in a field of 28 bytes; a zero date, the
    signature [H+], a zero drive type, the parent inode 2; the file name as
    a length byte and the characters, in a field of 64 bytes; 16 zero bytes
    (inode, date, type, creator); [ff ff] twice; and 16 zero bytes.  The
    record size written is the length of the record. *)
Theorem alias_fixed_part (volumeName fileName : string) :
  strlen volumeName <= 27 -> strlen fileName <= 63 ->
  exists d,
    createAliasFile volumeName fileName = Ok d /\
    take 150 d =
      replicate 4 0 ++ be16 (158 + paddedLen volumeName fileName) ++ be16 2
        ++ replicate 2 0
        ++ [strlen volumeName] ++ cstr volumeName
        ++ replicate (Z.to_nat (27 - strlen volumeName)) 0
        ++ replicate 4 0 ++ be16 0x482b ++ replicate 2 0 ++ be32 2
        ++ [strlen fileName] ++ cstr fileName
        ++ replicate (Z.to_nat (63 - strlen fileName)) 0
        ++ replicate 16 0 ++ be16 0xffff ++ be16 0xffff ++ replicate 16 0 /\
    get16 d 4 = Some (Z.of_nat (length d)).
Proof.
  intros Hv Hf. destruct (createAliasFile_head _ _ Hv Hf) as (d & Hd & Hhead).
  destruct (createAliasFile_ok _ _ Hv Hf) as (d' & Hd' & Hlen & _).
  rewrite Hd in Hd'. injection Hd' as <-.
  exists d. split; [done |]. split; [done |].
  assert (Hpad : 0 <= paddedLen volumeName fileName <= 92).
  { pose proof (strlen_nonneg volumeName). pose proof (strlen_nonneg fileName).
    destruct (paddedLen_cases volumeName fileName) as [[-> _] | [-> _]];
      unfold pathLen; lia. }
  rewrite Hlen, <- (take_drop 150 d), Hhead.
  change (replicate 4 0) with [0; 0; 0; 0]. rewrite <- !app_assoc.
  rewrite (get16_skip [0; 0; 0; 0] _ 4) by done.
  rewrite get16_head. f_equal. apply Z.mod_small. lia.
Qed.

Lemma alias_fixed_part_witness :
  exists d,
    createAliasFile "Vol" "bg.png" = Ok d /\
    take 150 d =
      replicate 4 0 ++ be16 (158 + paddedLen "Vol" "bg.png") ++ be16 2
        ++ replicate 2 0
        ++ [strlen "Vol"] ++ cstr "Vol"
        ++ replicate (Z.to_nat (27 - strlen "Vol")) 0
        ++ replicate 4 0 ++ be16 0x482b ++ replicate 2 0 ++ be32 2
        ++ [strlen "bg.png"] ++ cstr "bg.png"
        ++ replicate (Z.to_nat (63 - strlen "bg.png")) 0
        ++ replicate 16 0 ++ be16 0xffff ++ be16 0xffff ++ replicate 16 0 /\
    get16 d 4 = Some (Z.of_nat (length d)).
Proof. apply (alias_fixed_part "Vol" "bg.png"); by vm_compute. Defined.

(** ** main *)

Lemma runAdds_app cs1 : forall cs2 t,
  runAdds (cs1 ++ cs2) t = do t' <- runAdds cs1 t; runAdds cs2 t'.
Proof.
  induction cs1 as [| c cs1 IH]; intros cs2 t; [done |].
  cbn [app runAdds]. rewrite bind_assoc.
  destruct (runAdd c t) as [t' |]; [| done]. cbn [bind]. apply IH.
Qed.

Lemma triples_ind (P : list string -> Prop) :
  P [] -> (forall a, P [a]) -> (forall a b, P [a; b]) ->
  (forall a b c rest, P rest -> P (a :: b :: c :: rest)) ->
  forall l, P l.
Proof.
  intros H0 H1 H2 H3 l.
  assert (H : P l /\ (forall a, P (a :: l)) /\ (forall a b, P (a :: b :: l))).
  { induction l as [| c l (IH0 & IH1 & IH2)]; [done |].
    split; [apply IH1 |]. split; [intros a; apply IH2 |].
    intros a b. by apply H3. }
  apply H.
Qed.

Lemma ilocRecord_ok cx cy :
  (do r <- writeInt32 cx (newRec 16);
   do r <- writeInt32 cy r;
   do r <- writeInt16 0xffff r;
   do r <- writeInt16 0xffff r;
   do r <- writeInt16 0xffff r;
   Ok (data r)) = Ok (iloc cx cy).
Proof. reflexivity. Qed.

Lemma fileLoop_runAdds files : forall fs t,
  fileAdds files = Some fs -> fileLoop files t = runAdds fs t.
Proof.
  induction files as [| a | a b | fileName x y rest IH] using triples_ind;
    intros fs t H; try (injection H as <-; done).
  cbn [fileAdds] in H. cbn [fileLoop].
  destruct (getInt x) as [cx |]; [| done].
  destruct (getInt y) as [cy |]; [| done]. cbn [bind].
  destruct (fileAdds rest) as [cs |] eqn:E; [| done].
  injection H as <-. cbn [runAdds runAdd].
  pose proof (ilocRecord_ok cx cy) as Hi.
  destruct (writeInt32 cx (newRec 16)) as [r1 |]; [| done]. cbn [bind] in *.
  destruct (writeInt32 cy r1) as [r2 |]; [| done]. cbn [bind] in *.
  destruct (writeInt16 65535 r2) as [r3 |]; [| done]. cbn [bind] in *.
  destruct (writeInt16 65535 r3) as [r4 |]; [| done]. cbn [bind] in *.
  destruct (writeInt16 65535 r4) as [r5 |]; [| done]. cbn [bind] in *.
  injection Hi as ->.
  destruct (addBlob fileName "Iloc" (iloc cx cy) t) as [t' |]; [| done].
  cbn [bind]. by apply IH.
Qed.

Lemma wfAdd_fileAdds files : forall fs,
  fileAdds files = Some fs ->
  Forall (fun s => strlen s < 2 ^ 32) files -> Forall wfAdd fs.
Proof.
  induction files as [| a | a b | fileName x y rest IH] using triples_ind;
    intros fs H Hn; try (injection H as <-; done).
  cbn [fileAdds] in H.
  destruct (getInt x) as [cx |]; [| done].
  destruct (getInt y) as [cy |]; [| done].
  destruct (fileAdds rest) as [cs |] eqn:E; [| done].
  injection H as <-. apply Forall_cons in Hn as [Hname Hn].
  apply Forall_cons in Hn as [_ Hn]. apply Forall_cons in Hn as [_ Hn].
  constructor; [| by apply IH]. cbn [wfAdd].
  split; [exact Hname |]. split; [reflexivity |]. split; [| by vm_compute].
  unfold iloc. apply Forall_app_2; [apply Forall_isByte_be32 |].
  apply Forall_app_2; [apply Forall_isByte_be32 |].
  apply Forall_app_2; repeat constructor; unfold isByte; lia.
Qed.

Lemma wfAdd_fixedAdds alias W H S T :
  Forall isByte alias -> Z.of_nat (length alias) < 2 ^ 32 ->
  Forall wfAdd (fixedAdds alias W H S T).
Proof.
  intros Hb Hl. unfold fixedAdds.
  assert (Hz : forall n, Forall isByte (replicate n 0)).
  { intros n. apply Forall_replicate. unfold isByte. lia. }
  assert (Hdot : strlen "." < 2 ^ 32) by done.
  apply Forall_cons_2; [| apply Forall_cons_2; [| apply Forall_cons_2;
    [| apply Forall_cons_2; [| apply Forall_cons_2; [| apply Forall_cons_2;
    [| apply Forall_nil_2]]]]]];
    cbn [wfAdd]; (split; [exact Hdot |]);
    first [reflexivity | split; [reflexivity |]].
  - split; [| done]. unfold pctB. apply Forall_app_2; [apply Forall_isByte_cstr |].
    apply Forall_app_2; [apply Forall_isByte_be32 | done].
  - split; [| done]. unfold finderWindow.
    repeat (apply Forall_app_2;
            [first [apply Forall_isByte_be16 | apply Forall_isByte_cstr] |]).
    done.
  - split; [| done]. unfold iconView.
    repeat (apply Forall_app_2;
            [first [apply Forall_isByte_be16 | apply Forall_isByte_cstr] |]).
    done.
  - done.
Qed.

(** [main] up to the calls of the add-methods: the checks of the
    arguments and the records forged. *)
Lemma forge_unfold prog out bg w h vol isz tsz files W H S T alias fs :
  Z.rem (Z.of_nat (length files)) 3 = 0 ->
  createAliasFile vol bg = Ok alias ->
  getInt w = Ok W -> getInt h = Ok H -> getInt isz = Ok S -> getInt tsz = Ok T ->
  fileAdds files = Some fs ->
  forge (prog :: out :: bg :: w :: h :: vol :: isz :: tsz :: files) =
    do t <- runAdds (fixedAdds alias W H S T ++ fs) (newTree newBuddy);
    do '(id, t') <- finish t;
    do a <- createMetaDataBlock id (buddy t');
    Ok (out, a).
Proof.
  intros Hrem Halias Hw Hh Hs Ht Hfs. unfold forge.
  replace (Z.of_nat (length (prog :: out :: bg :: w :: h :: vol :: isz :: tsz
                               :: files)))
    with (8 + Z.of_nat (length files)) by (cbn [length]; lia).
  replace (8 + Z.of_nat (length files) - 8) with (Z.of_nat (length files)) by lia.
  rewrite Hrem. destruct (Z.ltb_spec (8 + Z.of_nat (length files)) 8); [lia |].
  cbn [orb negb Z.eqb]. cbv zeta. rewrite Halias. cbn [bind].
  rewrite newBTree_ok by (vm_compute; (lia || discriminate || reflexivity)).
  cbn [bind]. rewrite Hh, Hw, Hs, Ht. cbn [bind].
  repeat
    match goal with
    | |- context [memcpy ?d ?o ?b] =>
        change (memcpy d o b) with (Ok (splice d (Z.to_nat o) b)); cbn [bind]
    end.
  match goal with
  | |- context [addBlob "." "BKGD" ?b] =>
      change b with (pctB (Z.of_nat (length alias)))
  end.
  match goal with
  | |- context [addBlob "." "fwi0" ?b] => change b with (finderWindow W H)
  end.
  match goal with
  | |- context [addBlob "." "icvo" ?b] => change b with (iconView S)
  end.
  rewrite runAdds_app, !bind_assoc. unfold fixedAdds.
  cbn [runAdds runAdd].
  do 6 (rewrite ?bind_assoc;
        match goal with
        | |- (do _ <- ?m; _) = _ =>
            destruct m as [? |]; [| reflexivity]; cbn [bind]
        end).
  by rewrite (fileLoop_runAdds _ _ _ Hfs).
Qed.

Lemma forge_ok prog out bg w h vol isz tsz files W H S T alias fs :
  Z.rem (Z.of_nat (length files)) 3 = 0 ->
  createAliasFile vol bg = Ok alias ->
  getInt w = Ok W -> getInt h = Ok H -> getInt isz = Ok S -> getInt tsz = Ok T ->
  fileAdds files = Some fs ->
  Z.of_nat (length ((fixedAdds alias W H S T ++ fs) ≫= entryBytes)) <= 2040 ->
  forge (prog :: out :: bg :: w :: h :: vol :: isz :: tsz :: files) =
    Ok (out, forged (fixedAdds alias W H S T ++ fs)).
Proof.
  intros Hrem Halias Hw Hh Hs Ht Hfs Hfit.
  rewrite (forge_unfold _ _ _ _ _ _ _ _ _ _ _ _ _ _ _ Hrem Halias Hw Hh Hs Ht Hfs).
  remember (fixedAdds alias W H S T ++ fs) as cs eqn:Ecs. clear Ecs.
  assert (Hroom : room (Z.of_nat (length (cs ≫= entryBytes)))
                       (rec (newPage newBuddy)))
    by (apply room_newPage; lia).
  assert (Hp0 : pageOf (newTree newBuddy) (newPage newBuddy))
    by (apply pageOf_newTree; [simpl; lia | by vm_compute]).
  destruct (runAdds_spec cs _ _ Hp0) as [Hok _]. rewrite (Hok Hroom).
  cbn [bind].
  pose proof (pageOf_afterAdds cs _ _ Hp0 Hroom) as Hp.
  assert (Hcnt : entryCount (afterAdds cs (newTree newBuddy) (newPage newBuddy))
                 = Z.of_nat (length cs)).
  { cbn [afterAdds entryCount newTree]. rewrite u32_small; [lia |].
    pose proof (length_bind_entryBytes cs). lia. }
  assert (Hsz : length (data (rec (mkBlock (put (cs ≫= entryBytes)
                  (rec (newPage newBuddy))) (addr (newPage newBuddy)))))
                = 2048%nat).
  { cbn [rec]. by rewrite length_data_put, length_data_newPage. }
  assert (HlenB : length (blocks (buddy (afterAdds cs (newTree newBuddy)
                     (newPage newBuddy)))) = 3%nat) by done.
  rewrite (finish_ok _ _ Hp) by (rewrite ?Hsz, ?HlenB; lia).
  cbn [bind]. rewrite HlenB. change (Z.of_nat 3 - 1) with 2.
  remember (afterAdds cs (newTree newBuddy) (newPage newBuddy)) as T0 eqn:ET.
  remember (put (cs ≫= entryBytes) (rec (newPage newBuddy))) as r eqn:Er.
  assert (Hr : length (data r) = 2048%nat) by exact Hsz.
  assert (Hbs : blocks (buddy (afterFinish T0
                  (mkBlock r (addr (newPage newBuddy))))) =
                newBlock 0 32 :: newBlock 32 2048
                  :: [mkBlock (put (be32 (entryCount T0)) (seek 4 r)) 2080;
                      mkBlock (put (masterBytes 1 (entryCount T0)) (newRec 32))
                              4128]).
  { rewrite ET. reflexivity. }
  assert (Hcur : curAddr (buddy (afterFinish T0
                   (mkBlock r (addr (newPage newBuddy))))) = 4160).
  { rewrite ET. reflexivity. }
  assert (Hroom4 : room 4 (seek 4 r)).
  { unfold room, seek. cbn [curOffset data]. rewrite Hr.
    change (u32 4) with 4. lia. }
  rewrite (createMetaDataBlock_new _ _ _ Hbs); [| | rewrite Hcur; lia].
  - cbn [bind]. rewrite Hcur, Hcnt, Er. reflexivity.
  - apply Forall_cons_2; [| apply Forall_cons_2; [| apply Forall_nil_2]].
    + split; [| by vm_compute]. unfold size. cbn [rec].
      rewrite length_data_put by exact Hroom4. unfold seek. cbn [data].
      rewrite Hr. lia.
    + split; [| by vm_compute]. unfold size. cbn [rec].
      rewrite length_data_put by (by apply room_newRec). by vm_compute.
Qed.

Lemma forged_leaf cs :
  Forall wfAdd cs -> Z.of_nat (length (cs ≫= entryBytes)) <= 2040 ->
  length (data (rec (leafBlock cs))) = 2048%nat /\
  readLeaf (data (rec (leafBlock cs))) = Some (entryOf <$> cs).
Proof.
  intros Hwf Hfit.
  assert (Hroom : room (Z.of_nat (length (cs ≫= entryBytes)))
                       (rec (newPage newBuddy)))
    by (apply room_newPage; lia).
  pose proof (length_bind_entryBytes cs) as Hn.
  unfold leafBlock. cbn [rec]. rewrite (leaf_data newBuddy cs _ Hroom). split.
  - rewrite !length_app, !length_be32, length_replicate. lia.
  - by apply (readLeaf_leaf _ cs (replicate (2040 - length (cs ≫= entryBytes)) 0));
      [| lia |].
Qed.

Lemma length_meta_forged id bs cur :
  length (data (put (metaBytes id bs cur) (newRec 2048))) = 2048%nat.
Proof.
  pose proof (length_metaBytes id bs cur).
  rewrite length_data_put by (apply room_newRec; lia). done.
Qed.



(** X19: the file that [main] writes, when the names of the background
    image and the volume fit the alias record, the numbers are integers
    and the entries fit on the page.  If the output file opens, it is left
    with 4164 bytes, whatever the arguments: the word 1; the header block
    of 32 bytes, that is [Bud1], 32, 2048, 32 and zeros; the metadata
    block of 2048 bytes; the page of 2048 bytes; and the master block of
    32 bytes.  If it does not open, the null pointer goes to [fwrite]
    unchecked (undefined behaviour). *)
Theorem main_file (prog out bg w h vol isz tsz : string) (files : list string)
    (W H S T : Z) (alias : list Z) (fs : list add) (disk : FileSystem) :
  Z.rem (Z.of_nat (length files)) 3 = 0 ->
  strlen vol <= 27 -> strlen bg <= 63 ->
  createAliasFile vol bg = Ok alias ->
  getInt w = Ok W -> getInt h = Ok H -> getInt isz = Ok S -> getInt tsz = Ok T ->
  fileAdds files = Some fs ->
  Forall (fun s => strlen s < 2 ^ 32) files ->
  Z.of_nat (length ((fixedAdds alias W H S T ++ fs) ≫= entryBytes)) <= 2040 ->
  match openWrite disk out with
  | None =>
      main (prog :: out :: bg :: w :: h :: vol :: isz :: tsz :: files) disk
        = Fail Undefined
  | Some outFile =>
      exists bytes meta leaf master,
        main (prog :: out :: bg :: w :: h :: vol :: isz :: tsz :: files) disk
          = Ok (outFile, bytes) /\
        bytes =
          be32 1
            ++ (cstr "Bud1" ++ be32 32 ++ be32 2048 ++ be32 32 ++ replicate 16 0)
            ++ meta ++ leaf ++ master /\
        length meta = 2048%nat /\ length leaf = 2048%nat /\
        length master = 32%nat /\ length bytes = 4164%nat /\
        readLeaf leaf = Some (entryOf <$> (fixedAdds alias W H S T ++ fs))
  end.
Proof.
  intros Hrem Hvol Hbg Halias Hw Hh Hs Ht Hfs Hnames Hfit.
  destruct (createAliasFile_ok vol bg Hvol Hbg) as (d & Hd & Hlen & Hbytes & _).
  rewrite Halias in Hd. injection Hd as <-.
  assert (Hpad : 0 <= paddedLen vol bg <= 92).
  { pose proof (strlen_nonneg vol). pose proof (strlen_nonneg bg).
    destruct (paddedLen_cases vol bg) as [[-> _] | [-> _]]; unfold pathLen; lia. }
  assert (Hwf : Forall wfAdd (fixedAdds alias W H S T ++ fs)).
  { apply Forall_app_2; [apply wfAdd_fixedAdds; [done | lia] |].
    by apply (wfAdd_fileAdds files). }
  destruct (forged_leaf _ Hwf Hfit) as [Hll Hleaf].
  remember (fixedAdds alias W H S T ++ fs) as cs eqn:Ecs.
  unfold main.
  rewrite (forge_ok _ _ _ _ _ _ _ _ _ _ _ _ _ _ _ Hrem Halias Hw Hh Hs Ht Hfs)
    by (by rewrite <- Ecs).
  rewrite <- Ecs. cbn [bind].
  destruct (openWrite disk out) as [outFile |]; [| reflexivity].
  rewrite writeFile_bytes, app_nil_l.
  unfold forged, allBytes. cbv zeta. cbn [blocks].
  rewrite !bind_cons. change (@nil Block ≫= _) with (@nil Z).
  rewrite app_nil_r. cbn [rec].
  rewrite (data_put_newRec (headerBytes _)).
  eexists _, _, _, _. split; [reflexivity |].
  assert (Hm : length (data (rec (masterBlock (Z.of_nat (length cs))))) = 32%nat).
  { unfold masterBlock. cbn [rec].
    rewrite length_data_put by (by apply room_newRec). done. }
  split; [reflexivity |]. split; [apply length_meta_forged |].
  split; [exact Hll |]. split; [exact Hm |]. split; [| exact Hleaf].
  rewrite !length_app, length_meta_forged, length_be32.
  rewrite Hll, Hm. done.
Qed.

Lemma main_file_witness :
  let alias := match createAliasFile "Vol" "bg.png" with
               | Ok d => d
               | Fail _ => []
               end in
  let fs := [AddBlob "icon.png" "Iloc" (iloc 100 100)] in
  let disk := mkFS (fun _ => None)
                   (fun p => if String.eqb p "DS_Store" then Some 7%nat else None)
                   (fun _ => []) in
  exists bytes meta leaf master,
    main ["forge_ds_store"; "DS_Store"; "bg.png"; "600"; "400"; "Vol"; "128";
          "16"; "icon.png"; "100"; "100"] disk = Ok (7%nat, bytes) /\
    bytes =
      be32 1
        ++ (cstr "Bud1" ++ be32 32 ++ be32 2048 ++ be32 32 ++ replicate 16 0)
        ++ meta ++ leaf ++ master /\
    length meta = 2048%nat /\ length leaf = 2048%nat /\
    length master = 32%nat /\ length bytes = 4164%nat /\
    readLeaf leaf = Some (entryOf <$> (fixedAdds alias 600 400 128 16 ++ fs)).
Proof.
  intros alias fs disk.
  apply (main_file "forge_ds_store" "DS_Store" "bg.png" "600" "400" "Vol"
           "128" "16" ["icon.png"; "100"; "100"] 600 400 128 16 alias fs disk).
  - reflexivity.
  - by vm_compute.
  - by vm_compute.
  - reflexivity.
  - reflexivity.
  - reflexivity.
  - reflexivity.
  - reflexivity.
  - reflexivity.
  - repeat constructor; by vm_compute.
  - by vm_compute.
Defined.

(** * forge_icon_resource *)

(** ** The growing Record *)

(** The record [r] after the bytes [bs] were written at its cursor, the
    vector growing as far as needed. *)
Lemma splice_reserve (r : Rec) (bs : list Z) :
  0 <= curOffset r <= Z.of_nat (length (data r)) ->
  Z.of_nat (length (data r)) + Z.of_nat (length bs) < 2 ^ 32 ->
  room (Z.of_nat (length bs))
       (mkRec (Icon.reserve (Z.of_nat (length bs)) r) (curOffset r)) /\
  splice (Icon.reserve (Z.of_nat (length bs)) r) (Z.to_nat (curOffset r)) bs =
    splice (data r) (Z.to_nat (curOffset r)) bs.
Proof.
  intros Hc Hl. unfold Icon.reserve. cbv zeta.
  rewrite u32_small by lia.
  destruct (Z.leb_spec (Z.of_nat (length (data r)))
              (curOffset r + Z.of_nat (length bs))) as [Hle | Hgt].
  - unfold Icon.resize.
    rewrite take_ge by lia.
    assert (Hlen : length (data r ++ replicate
              (Z.to_nat (curOffset r + Z.of_nat (length bs)) - length (data r)) 0)
            = (Z.to_nat (curOffset r) + length bs)%nat).
    { rewrite length_app, length_replicate. lia. }
    split.
    + unfold room. cbn [curOffset data]. rewrite Hlen. lia.
    + unfold splice. rewrite take_app_le by lia.
      rewrite (drop_ge (_ ++ _)) by lia. by rewrite (drop_ge (data r)) by lia.
  - split; [unfold room; cbn [curOffset data]; lia | done].
Qed.

Lemma icon_writeInt8 v r :
  0 <= curOffset r <= Z.of_nat (length (data r)) ->
  Z.of_nat (length (data r)) + 1 < 2 ^ 32 ->
  Icon.writeInt8 v r =
    Ok (mkRec (splice (data r) (Z.to_nat (curOffset r)) [u8 v])
              (curOffset r + 1)).
Proof.
  intros Hc Hl. destruct (splice_reserve r [u8 v] Hc Hl) as [Hroom Hs].
  change (Z.of_nat (length [u8 v])) with 1 in Hroom, Hs.
  change (length [u8 v]) with 1%nat in Hs.
  unfold Icon.writeInt8. cbv zeta. rewrite (u32_small (curOffset r + 0)) by lia.
  rewrite Z.add_0_r.
  change (do d <- store (Icon.reserve 1 r) (curOffset r) v;
          Ok (mkRec d (u32 (curOffset r + 1))))
    with (writeInt8 v (mkRec (Icon.reserve 1 r) (curOffset r))).
  rewrite writeInt8_put by exact Hroom. unfold put. cbn [data curOffset].
  by rewrite Hs.
Qed.

Lemma icon_writeInt16 v r :
  0 <= curOffset r <= Z.of_nat (length (data r)) ->
  Z.of_nat (length (data r)) + 2 < 2 ^ 32 ->
  Icon.writeInt16 v r =
    Ok (mkRec (splice (data r) (Z.to_nat (curOffset r)) (be16 v))
              (curOffset r + 2)).
Proof.
  intros Hc Hl. destruct (splice_reserve r (be16 v) Hc Hl) as [Hroom Hs].
  change (Z.of_nat (length (be16 v))) with 2 in Hroom, Hs.
  change (length (be16 v)) with 2%nat in Hs.
  change (Icon.writeInt16 v r)
    with (writeInt16 v (mkRec (Icon.reserve 2 r) (curOffset r))).
  rewrite writeInt16_put by exact Hroom. unfold put. cbn [data curOffset].
  by rewrite Hs.
Qed.

Lemma icon_writeInt32 v r :
  0 <= curOffset r <= Z.of_nat (length (data r)) ->
  Z.of_nat (length (data r)) + 4 < 2 ^ 32 ->
  Icon.writeInt32 v r =
    Ok (mkRec (splice (data r) (Z.to_nat (curOffset r)) (be32 v))
              (curOffset r + 4)).
Proof.
  intros Hc Hl. destruct (splice_reserve r (be32 v) Hc Hl) as [Hroom Hs].
  change (Z.of_nat (length (be32 v))) with 4 in Hroom, Hs.
  change (length (be32 v)) with 4%nat in Hs.
  change (Icon.writeInt32 v r)
    with (writeInt32 v (mkRec (Icon.reserve 4 r) (curOffset r))).
  rewrite writeInt32_put by exact Hroom. unfold put. cbn [data curOffset].
  by rewrite Hs.
Qed.

Lemma icon_writeStr s r :
  0 <= curOffset r <= Z.of_nat (length (data r)) ->
  Z.of_nat (length (data r)) + strlen s < 2 ^ 32 ->
  Icon.writeStr s r =
    Ok (mkRec (splice (data r) (Z.to_nat (curOffset r)) (cstr s))
              (curOffset r + strlen s)).
Proof.
  intros Hc Hl. pose proof (strlen_nonneg s) as Hs0.
  assert (Hs : strlen s < 2 ^ 32) by lia.
  destruct (splice_reserve r (cstr s) Hc Hl) as [Hroom Hsp].
  fold (strlen s) in Hroom, Hsp. destruct Hroom as (H0 & H1 & H2).
  cbn [curOffset data] in H0, H1, H2.
  unfold Icon.writeStr. cbv zeta. rewrite (u32_small (strlen s)) by lia.
  rewrite take_ge by (unfold strlen in *; lia).
  rewrite storeAll_ok by (unfold strlen in *; lia). cbn [bind].
  rewrite fmap_u8_bytes by apply Forall_isByte_cstr.
  rewrite Z.add_0_r, Hsp, u32_small by lia. done.
Qed.

Lemma length_splice_max (d : list Z) o bs :
  (o <= length d)%nat ->
  length (splice d o bs) = (length d `max` (o + length bs))%nat.
Proof.
  intros Ho. unfold splice.
  rewrite !length_app, length_take, length_drop. lia.
Qed.

Lemma grew_splice bs r :
  0 <= curOffset r <= Z.of_nat (length (data r)) ->
  grew bs r (mkRec (splice (data r) (Z.to_nat (curOffset r)) bs)
                   (curOffset r + Z.of_nat (length bs))).
Proof.
  intros Hc. split; [done |]. split; [done |]. cbn [data].
  apply length_splice_max. lia.
Qed.

(** X20: the [Record] of this tool cannot be written out of its bounds:
    with the cursor within the vector, each writing method resizes the
    vector when the bytes reach its end or go past it, and then puts them
    at the cursor, over the bytes that were there; the vector is as long
    afterwards as it was, or ends with the bytes written. *)
Theorem icon_record_grows (v : Z) (s : string) (r : Rec) :
  0 <= curOffset r <= Z.of_nat (length (data r)) ->
  Z.of_nat (length (data r)) + 4 < 2 ^ 32 ->
  Z.of_nat (length (data r)) + strlen s < 2 ^ 32 ->
  exists r8 r16 r32 rs,
    Icon.writeInt8 v r = Ok r8 /\ grew [u8 v] r r8 /\
    Icon.writeInt16 v r = Ok r16 /\ grew (be16 v) r r16 /\
    Icon.writeInt32 v r = Ok r32 /\ grew (be32 v) r r32 /\
    Icon.writeStr s r = Ok rs /\ grew (cstr s) r rs.
Proof.
  intros Hc H4 Hs. eexists _, _, _, _.
  split; [apply icon_writeInt8; [done | lia] |].
  split; [by apply (grew_splice [u8 v]) |].
  split; [apply icon_writeInt16; [done | lia] |].
  split; [by apply (grew_splice (be16 v)) |].
  split; [by apply icon_writeInt32 |].
  split; [by apply (grew_splice (be32 v)) |].
  split; [by apply icon_writeStr |].
  by apply (grew_splice (cstr s)).
Qed.

Lemma icon_record_grows_witness :
  exists r8 r16 r32 rs,
    Icon.writeInt8 0x1234 (mkRec [1; 2; 3] 2) = Ok r8 /\
    grew [u8 0x1234] (mkRec [1; 2; 3] 2) r8 /\
    Icon.writeInt16 0x1234 (mkRec [1; 2; 3] 2) = Ok r16 /\
    grew (be16 0x1234) (mkRec [1; 2; 3] 2) r16 /\
    Icon.writeInt32 0x1234 (mkRec [1; 2; 3] 2) = Ok r32 /\
    grew (be32 0x1234) (mkRec [1; 2; 3] 2) r32 /\
    Icon.writeStr "icns" (mkRec [1; 2; 3] 2) = Ok rs /\
    grew (cstr "icns") (mkRec [1; 2; 3] 2) rs.
Proof.
  apply (icon_record_grows 0x1234 "icns" (mkRec [1; 2; 3] 2));
    vm_compute; repeat split; (reflexivity || discriminate).
Defined.

(** ** The output stream and the copy loop *)

Lemma fwrite_end bs (f : Icon.Stream) :
  Icon.pos f = Z.of_nat (length (Icon.contents f)) ->
  Icon.fwrite bs f =
    Icon.mkStream (Icon.contents f ++ bs)
                  (Z.of_nat (length (Icon.contents f ++ bs))).
Proof.
  intros Hp. destruct f as [c p]. cbn [Icon.pos Icon.contents] in *. subst p.
  destruct bs as [| b bs]; [by rewrite app_nil_r |].
  unfold Icon.fwrite. cbn [Icon.pos Icon.contents]. rewrite Nat2Z.id.
  rewrite take_ge, drop_ge, Nat.sub_diag by lia. cbn [replicate app].
  rewrite app_nil_r. f_equal. rewrite length_app. lia.
Qed.

Lemma fwrite_gap bs (c : list Z) (p : Z) :
  bs <> [] -> Z.of_nat (length c) <= p ->
  Icon.fwrite bs (Icon.mkStream c p) =
    Icon.mkStream (c ++ replicate (Z.to_nat p - length c) 0 ++ bs)
                  (p + Z.of_nat (length bs)).
Proof.
  intros Hbs Hp. destruct bs as [| b bs]; [done |].
  unfold Icon.fwrite. cbn [Icon.pos Icon.contents].
  by rewrite take_ge, drop_ge, app_nil_r by lia.
Qed.

Lemma copyLoop_ok fuel : forall (f : list Z) (out : Icon.Stream),
  (length f < 1024 * fuel)%nat ->
  Icon.pos out = Z.of_nat (length (Icon.contents out)) ->
  Icon.copyLoop fuel f out =
    Some (Icon.mkStream (Icon.contents out ++ f)
                        (Z.of_nat (length (Icon.contents out ++ f)))).
Proof.
  induction fuel as [| fuel IH]; intros f out Hf Hp; [lia |].
  cbn [Icon.copyLoop]. rewrite (fwrite_end _ _ Hp), length_take.
  destruct (Z.eqb_spec (Z.of_nat (1024 `min` length f)) 1024) as [E | E].
  - rewrite IH; cbn [Icon.pos Icon.contents]; [| rewrite length_drop; lia | done].
    by rewrite <- app_assoc, take_drop.
  - by rewrite take_ge by lia.
Qed.

Lemma copy_copyLoop fuel fs i j : forall p out,
  i <> j -> 0 <= p ->
  Icon.copy fuel fs i p j out =
    Icon.copyLoop fuel (drop (Z.to_nat p) (fileBytes fs i)) out.
Proof.
  induction fuel as [| fuel IH]; intros p out Hij Hp; [done |].
  cbn [Icon.copy Icon.copyLoop]. unfold Icon.fread, Icon.bytesNow.
  rewrite (proj2 (Nat.eqb_neq i j) Hij).
  destruct (_ =? 1024); [| done].
  rewrite IH by (done || lia). rewrite drop_drop. do 2 f_equal. lia.
Qed.

(** The output file read back while it is written: all of it is read in
    the first round, if it is shorter than 1024 bytes. *)
Lemma copy_same fuel fs j (out : Icon.Stream) :
  (length (Icon.contents out) < 1024)%nat ->
  Icon.copy (S fuel) fs j 0 j out = Some (Icon.fwrite (Icon.contents out) out).
Proof.
  intros Hc. cbn [Icon.copy]. unfold Icon.fread, Icon.bytesNow.
  rewrite Nat.eqb_refl. change (Z.to_nat 0) with 0%nat.
  rewrite drop_0, take_ge by lia.
  destruct (Z.eqb_spec (Z.of_nat (length (Icon.contents out))) 1024); [lia | done].
Qed.

(** X21: the copy loop of [main] copies the whole input to the output,
    whatever its length (a multiple of 1024 or not, none at all): given
    rounds enough for the chunks of 1024 bytes and the last, shorter one,
    it ends with the bytes of the input behind those of the output; and the
    rounds [main] is given, one more than the input has bytes, are
    enough. *)
Theorem copy_loop_copies (fuel : nat) (f : list Z) (out : Icon.Stream) :
  (length f < 1024 * fuel)%nat ->
  Icon.pos out = Z.of_nat (length (Icon.contents out)) ->
  Icon.copyLoop fuel f out =
    Some (Icon.mkStream (Icon.contents out ++ f)
                        (Icon.pos out + Z.of_nat (length f))) /\
  Icon.copyLoop (S (length f)) f out = Icon.copyLoop fuel f out.
Proof.
  intros Hf Hp. rewrite !copyLoop_ok by (done || lia).
  split; [| done]. do 2 f_equal. rewrite length_app. lia.
Qed.

Lemma copy_loop_copies_witness :
  Icon.copyLoop 3 (replicate 2048 7) (Icon.mkStream [1; 2] 2) =
    Some (Icon.mkStream ([1; 2] ++ replicate 2048 7)
                        (Icon.pos (Icon.mkStream [1; 2] 2)
                         + Z.of_nat (length (replicate 2048 7)))) /\
  Icon.copyLoop (S (length (replicate 2048 7))) (replicate 2048 7)
                (Icon.mkStream [1; 2] 2) =
    Icon.copyLoop 3 (replicate 2048 7) (Icon.mkStream [1; 2] 2).
Proof.
  apply (copy_loop_copies 3 (replicate 2048 7) (Icon.mkStream [1; 2] 2));
    [vm_compute; lia | reflexivity].
Defined.

(** ** main *)

Lemma be32_u32 x : be32 (u32 x) = be32 x.
Proof. unfold be32, u32. by rewrite Z.mod_mod by lia. Qed.

Lemma u32_add_idemp_l a b : u32 (u32 a + b) = u32 (a + b).
Proof. unfold u32. apply Zplus_mod_idemp_l. Qed.

Lemma u32_add_idemp_r a b : u32 (a + u32 b) = u32 (a + b).
Proof. unfold u32. apply Zplus_mod_idemp_r. Qed.

Lemma splice_end (d : list Z) o bs : o = length d -> splice d o bs = d ++ bs.
Proof.
  intros ->. unfold splice. by rewrite take_ge, drop_ge, app_nil_r by lia.
Qed.

Lemma splice_skip (A d : list Z) (n o : nat) bs :
  length A = n -> (n <= o)%nat ->
  splice (A ++ d) o bs = A ++ splice d (o - n) bs.
Proof.
  intros <- Ho. unfold splice.
  rewrite take_app_ge, drop_app_ge by lia. rewrite <- app_assoc.
  by replace (o + length bs - length A)%nat
    with (o - length A + length bs)%nat by lia.
Qed.

Lemma splice_head (X C : list Z) o bs :
  o = 0%nat -> length X = length bs -> splice (X ++ C) o bs = bs ++ C.
Proof.
  intros -> Hl. unfold splice. cbn [take app]. rewrite Nat.add_0_l, <- Hl.
  by rewrite drop_app_length.
Qed.

Ltac cmp := vm_compute; repeat split; (reflexivity || discriminate).

Ltac icon_append :=
  first [rewrite icon_writeInt32 by cmp
        | rewrite icon_writeInt16 by cmp
        | rewrite icon_writeStr by cmp];
  cbn [bind data curOffset]; rewrite splice_end by (vm_compute; reflexivity).

Ltac icon_size :=
  repeat match goal with
         | |- context [Icon.size ?r] =>
             let n := eval vm_compute in (Icon.size r) in
             change (Icon.size r) with n
         end.

Lemma splice_skip' (A d : list Z) (o : nat) bs :
  (length A <= o)%nat ->
  splice (A ++ d) o bs = A ++ splice d (o - length A) bs.
Proof. intros Ho. by apply splice_skip. Qed.

Ltac icon_fixup :=
  unfold seek; cbn [data];
  first [rewrite icon_writeInt32 by cmp | rewrite icon_writeInt16 by cmp];
  cbn [bind data curOffset];
  repeat rewrite splice_skip' by (vm_compute; lia);
  rewrite splice_head by (vm_compute; reflexivity).

(** [main] once the input is open: the resource map is built, and the
    output file is opened. *)
Lemma icon_main_steps prog out name rest fs i :
  openRead fs name = Some i ->
  Icon.main (prog :: out :: name :: rest) fs =
    match openWrite fs out with
    | None => Fail Undefined
    | Some j =>
        match Icon.copy (S (length (fileBytes fs i))) fs i 0 j
                (Icon.mkStream
                   (take 16 (resourceMap (Z.of_nat (length (fileBytes fs i))))
                      ++ replicate 240 0
                      ++ be32 (Z.of_nat (length (fileBytes fs i)))) 260) with
        | None => Fail Undefined
        | Some o =>
            Ok (j, Icon.contents
                     (Icon.fwrite
                        (resourceMap (Z.of_nat (length (fileBytes fs i)))) o))
        end
    end.
Proof.
  intros Hfs. unfold Icon.main.
  replace (Z.of_nat (length (prog :: out :: name :: rest)) <? 3) with false
    by (symmetry; apply Z.ltb_ge; cbn [length]; lia).
  rewrite Hfs. cbv zeta.
  rewrite u32_add_idemp_l, u32_add_idemp_r, !be32_u32.
  remember (fileBytes fs i) as f eqn:Ef.
  remember (Z.of_nat (length f)) as L eqn:EL.
  unfold Icon.newRecord.
  do 17 (icon_append; icon_size).
  rewrite <- !app_assoc, app_nil_l.
  icon_fixup. icon_fixup. icon_size. icon_fixup. icon_fixup.
  change (be16 (u32 (38 - 28))) with (be16 10).
  rewrite !be32_u32. fold (resourceMap L).
  unfold Icon.fopen_w. destruct (openWrite fs out) as [j |]; [| reflexivity].
  assert (HM : length (resourceMap L) = 50%nat) by reflexivity.
  rewrite (proj2 (Z.leb_le 16 _)) by (rewrite HM; lia). cbn [bind].
  rewrite (fwrite_end _ (Icon.mkStream [] 0)) by reflexivity.
  unfold Icon.fseek. cbn [Icon.contents app].
  assert (H16 : length (take 16 (resourceMap L)) = 16%nat)
    by (rewrite length_take, HM; done).
  rewrite fwrite_gap by (done || (rewrite H16; lia)).
  rewrite H16. change (Z.to_nat 256 - 16)%nat with 240%nat.
  reflexivity.
Qed.

Lemma length_icon_head L :
  length (take 16 (resourceMap L) ++ replicate 240 0 ++ be32 L) = 260%nat.
Proof. reflexivity. Qed.

(** The output, when it goes to another file than the input. *)
Lemma icon_main_ok prog out name rest fs i j :
  openRead fs name = Some i -> openWrite fs out = Some j -> i <> j ->
  Icon.main (prog :: out :: name :: rest) fs =
    Ok (j,
        take 16 (resourceMap (Z.of_nat (length (fileBytes fs i))))
          ++ replicate 240 0
          ++ be32 (Z.of_nat (length (fileBytes fs i))) ++ fileBytes fs i
          ++ resourceMap (Z.of_nat (length (fileBytes fs i)))).
Proof.
  intros Hr Hw Hij. rewrite (icon_main_steps _ _ _ _ _ _ Hr), Hw.
  rewrite copy_copyLoop by done. change (Z.to_nat 0) with 0%nat. rewrite drop_0.
  rewrite copyLoop_ok; cbn [Icon.contents Icon.pos];
    [| lia | by rewrite length_icon_head].
  rewrite fwrite_end by reflexivity. cbn [Icon.contents].
  by rewrite <- !app_assoc.
Qed.

(** [main] completes as well when the output is the input file itself. *)
Lemma icon_main_same prog out name rest fs i :
  openRead fs name = Some i -> openWrite fs out = Some i ->
  exists bytes, Icon.main (prog :: out :: name :: rest) fs = Ok (i, bytes).
Proof.
  intros Hr Hw. rewrite (icon_main_steps _ _ _ _ _ _ Hr), Hw.
  rewrite copy_same by (cbn [Icon.contents]; rewrite length_icon_head; lia).
  eexists. reflexivity.
Qed.

(** X22: for an input file that can be opened, and an output that opens as
    another file, [main] leaves in the output: the first 16 bytes of the
    resource map, as the header of the file; zeros up to the offset 0x100;
    the length of the input as a big-endian word; the input; and the
    resource map, of 50 bytes.  For an input that leaves the offsets
    within 32 bits, the header tells where these parts are: the resource
    at 0x100, the map at the end of the resource, the length of the
    resource (the input and its length word) and the length 50 of the
    map. *)
Theorem icon_main_output (prog out name : string) (rest : list string)
    (fs : FileSystem) (i j : nat) (f : list Z) :
  openRead fs name = Some i -> fileBytes fs i = f ->
  openWrite fs out = Some j -> i <> j ->
  Z.of_nat (length f) + 310 < 2 ^ 32 ->
  exists bytes,
    Icon.main (prog :: out :: name :: rest) fs = Ok (j, bytes) /\
    bytes =
      take 16 (resourceMap (Z.of_nat (length f))) ++ replicate 240 0
        ++ be32 (Z.of_nat (length f)) ++ f
        ++ resourceMap (Z.of_nat (length f)) /\
    Z.of_nat (length bytes) = 310 + Z.of_nat (length f) /\
    get32 bytes 0 = Some 0x100 /\
    get32 bytes 4 = Some (0x100 + 4 + Z.of_nat (length f)) /\
    get32 bytes 8 = Some (4 + Z.of_nat (length f)) /\
    get32 bytes 12 = Some 50 /\
    get32 bytes 0x100 = Some (Z.of_nat (length f)) /\
    getBytes bytes (0x100 + 4) (Z.of_nat (length f)) = Some f /\
    getBytes bytes (0x100 + 4 + Z.of_nat (length f)) 50 =
      Some (resourceMap (Z.of_nat (length f))).
Proof.
  intros Hr Hf Hw Hij Hlen.
  rewrite (icon_main_ok _ _ _ _ _ _ _ Hr Hw Hij), Hf. eexists.
  split; [reflexivity |]. split; [reflexivity |].
  remember (Z.of_nat (length f)) as L eqn:EL.
  assert (HM : length (resourceMap L) = 50%nat) by reflexivity.
  assert (H16 : take 16 (resourceMap L) =
                be32 256 ++ be32 (256 + (L + 4)) ++ be32 (L + 4) ++ be32 50)
    by reflexivity.
  rewrite H16. rewrite <- !app_assoc.
  split.
  { rewrite !length_app, !length_be32, length_replicate, HM. lia. }
  split; [by rewrite get32_head |].
  rewrite !(get32_skip (be32 256) _ 4), !(getBytes_skip (be32 256) _ 4)
    by (done || lia).
  split; [rewrite get32_head, u32_small; [f_equal |]; lia |].
  rewrite !(get32_skip (be32 (256 + _)) _ 4), !(getBytes_skip (be32 (256 + _)) _ 4)
    by (done || lia).
  split; [rewrite get32_head, u32_small; [f_equal |]; lia |].
  rewrite !(get32_skip (be32 (L + 4)) _ 4), !(getBytes_skip (be32 (L + 4)) _ 4)
    by (done || lia).
  split; [by rewrite get32_head |].
  rewrite !(get32_skip (be32 50) _ 4), !(getBytes_skip (be32 50) _ 4)
    by (done || lia).
  rewrite !(get32_skip (replicate 240 0) _ 240),
    !(getBytes_skip (replicate 240 0) _ 240) by (done || lia).
  split; [rewrite get32_head, u32_small; [f_equal |]; lia |].
  rewrite !(getBytes_skip (be32 L) _ 4) by (done || lia).
  split; [apply getBytes_head; lia |].
  rewrite (getBytes_skip f _ L) by (done || lia).
  replace (256 + 4 + L - 4 - 4 - 4 - 4 - 240 - 4 - L) with 0 by lia.
  rewrite <- (app_nil_r (resourceMap L)) at 1. by apply getBytes_head.
Qed.

Lemma icon_main_output_witness :
  let fs := mkFS (fun p => if String.eqb p "in.icns" then Some 0%nat else None)
                 (fun p => if String.eqb p "out.rsrc" then Some 1%nat else None)
                 (fun i => match i with
                           | O => [105; 99; 110; 115]
                           | _ => []
                           end) in
  exists bytes,
    Icon.main ["forge_icon_resource"; "out.rsrc"; "in.icns"] fs
      = Ok (1%nat, bytes) /\
    bytes =
      take 16 (resourceMap (Z.of_nat (length [105; 99; 110; 115])))
        ++ replicate 240 0
        ++ be32 (Z.of_nat (length [105; 99; 110; 115])) ++ [105; 99; 110; 115]
        ++ resourceMap (Z.of_nat (length [105; 99; 110; 115])) /\
    Z.of_nat (length bytes) = 310 + Z.of_nat (length [105; 99; 110; 115]) /\
    get32 bytes 0 = Some 0x100 /\
    get32 bytes 4 = Some (0x100 + 4 + Z.of_nat (length [105; 99; 110; 115])) /\
    get32 bytes 8 = Some (4 + Z.of_nat (length [105; 99; 110; 115])) /\
    get32 bytes 12 = Some 50 /\
    get32 bytes 0x100 = Some (Z.of_nat (length [105; 99; 110; 115])) /\
    getBytes bytes (0x100 + 4) (Z.of_nat (length [105; 99; 110; 115])) =
      Some [105; 99; 110; 115] /\
    getBytes bytes (0x100 + 4 + Z.of_nat (length [105; 99; 110; 115])) 50 =
      Some (resourceMap (Z.of_nat (length [105; 99; 110; 115]))).
Proof.
  intros fs.
  apply (icon_main_output "forge_icon_resource" "out.rsrc" "in.icns" [] fs
           0%nat 1%nat [105; 99; 110; 115]);
    [reflexivity | reflexivity | reflexivity | lia | by vm_compute].
Defined.

(** X23: how [main] ends.  It ends with the status 1 when it is given
    fewer than two arguments or when the input file cannot be opened, and
    in these cases only.  When the input opens and the output does not,
    the null pointer goes to [fwrite] unchecked (undefined behaviour), and
    nothing else goes wrong: with an input, of any length, and an output
    that opens, [main] completes, no write of the [Record] leaving the
    vector. *)
Theorem icon_main_exit (argv : list string) (fs : FileSystem) :
  (Icon.main argv fs = Fail (Exit 1) <->
     (length argv < 3)%nat \/
     exists name, argv !! 2%nat = Some name /\ openRead fs name = None) /\
  (Icon.main argv fs = Fail Undefined <->
     exists out name i,
       argv !! 1%nat = Some out /\ argv !! 2%nat = Some name /\
       openRead fs name = Some i /\ openWrite fs out = None) /\
  (forall e, Icon.main argv fs = Fail e -> e = Exit 1 \/ e = Undefined) /\
  (forall out name i j,
     argv !! 1%nat = Some out -> argv !! 2%nat = Some name ->
     openRead fs name = Some i -> openWrite fs out = Some j ->
     exists bytes, Icon.main argv fs = Ok (j, bytes)).
Proof.
  destruct argv as [| prog [| out [| name rest]]];
    try (split; [split; [intros _; left; cbn [length]; lia | done] |];
         split; [split; [done | by intros (o & n & i & Ho & Hn & _)] |];
         split; [intros e [= <-]; by left | by intros o n i j Ho Hn]).
  destruct (openRead fs name) as [i |] eqn:Hr.
  - destruct (openWrite fs out) as [j |] eqn:Hw.
    + assert (E : exists bytes,
                Icon.main (prog :: out :: name :: rest) fs = Ok (j, bytes)).
      { destruct (Nat.eq_dec i j) as [<- | Hij].
        - by apply icon_main_same.
        - eexists. by apply icon_main_ok. }
      destruct E as (bytes & E). rewrite E. split; [| split; [| split]].
      * split; [done |].
        intros [H | (n & [= <-] & Hn)]; [cbn [length] in H; lia | congruence].
      * split; [done |]. intros (o & n & i' & [= <-] & [= <-] & _ & Ho).
        congruence.
      * done.
      * intros o n i' j' [= <-] [= <-] _ Hj'. rewrite Hw in Hj'.
        injection Hj' as <-. eauto.
    + assert (E : Icon.main (prog :: out :: name :: rest) fs = Fail Undefined)
        by (by rewrite (icon_main_steps _ _ _ _ _ _ Hr), Hw).
      rewrite E. split; [| split; [| split]].
      * split; [done |].
        intros [H | (n & [= <-] & Hn)]; [cbn [length] in H; lia | congruence].
      * split; [| done]. intros _. by exists out, name, i.
      * intros e [= <-]. by right.
      * intros o n i' j' [= <-] [= <-] _ Hj'. congruence.
  - assert (E : Icon.main (prog :: out :: name :: rest) fs = Fail (Exit 1)).
    { unfold Icon.main.
      replace (Z.of_nat (length (prog :: out :: name :: rest)) <? 3) with false
        by (symmetry; apply Z.ltb_ge; cbn [length]; lia).
      by rewrite Hr. }
    rewrite E. split; [| split; [| split]].
    + split; [| done]. intros _. right. by exists name.
    + split; [done |]. intros (o & n & i' & _ & [= <-] & Hi & _). congruence.
    + intros e [= <-]. by left.
    + intros o n i' j' _ [= <-] Hi _. congruence.
Qed.

(** ** BTree: what the add-methods leave alone *)

(** X24: a sequence of calls of the add-methods that completes changes
    the current page and the entry count, and nothing else: the tree keeps
    its page id, the allocator its bump pointer and all its other blocks,
    the page its address and its size; the cursor of the page advances by
    the bytes of the entries, and the entry count by the number of the
    calls (modulo 2^32). *)
Theorem adds_touch_only_the_page (cs : list add) (t t' : BTree) (b : Block) :
  pageOf t b -> runAdds cs t = Ok t' ->
  curPageId t' = curPageId t /\
  curAddr (buddy t') = curAddr (buddy t) /\
  entryCount t' = u32 (entryCount t + Z.of_nat (length cs)) /\
  length (blocks (buddy t')) = length (blocks (buddy t)) /\
  (forall i : nat, i <> pageIdx t ->
     blocks (buddy t') !! i = blocks (buddy t) !! i) /\
  exists b',
    blocks (buddy t') !! pageIdx t = Some b' /\
    extent b' = extent b /\
    curOffset (rec b') =
      curOffset (rec b) + Z.of_nat (length (cs ≫= entryBytes)).
Proof.
  intros Hp H. destruct (runAdds_spec cs t b Hp) as [Hok Hinv].
  pose proof (Hinv t' H) as Hroom. rewrite (Hok Hroom) in H. injection H as <-.
  destruct Hp as (Hid & Hb & Hr & Hn). pose proof (lookup_lt_Some _ _ _ Hb) as Hlt.
  unfold afterAdds. cbn [curPageId buddy curAddr entryCount blocks].
  split; [done |]. split; [done |]. split; [done |].
  split; [by rewrite length_insert |].
  split; [intros i Hi; by rewrite list_lookup_insert_ne |].
  eexists. split; [by apply list_lookup_insert_eq |].
  split; [by rewrite extent_put_eq | done].
Qed.

Lemma adds_touch_only_the_page_witness :
  let t := newTree newBuddy in
  let cs := [AddBool "." "ICVO" 1; AddShort "." "icvt" 16] in
  let t' := afterAdds cs t (newPage newBuddy) in
  curPageId t' = curPageId t /\
  curAddr (buddy t') = curAddr (buddy t) /\
  entryCount t' = u32 (entryCount t + Z.of_nat (length cs)) /\
  length (blocks (buddy t')) = length (blocks (buddy t)) /\
  (forall i : nat, i <> pageIdx t ->
     blocks (buddy t') !! i = blocks (buddy t) !! i) /\
  exists b',
    blocks (buddy t') !! pageIdx t = Some b' /\
    extent b' = extent (newPage newBuddy) /\
    curOffset (rec b') =
      curOffset (rec (newPage newBuddy)) + Z.of_nat (length (cs ≫= entryBytes)).
Proof.
  intros t cs t'.
  apply (adds_touch_only_the_page cs t t' (newPage newBuddy)).
  - repeat split; by vm_compute.
  - by vm_compute.
Defined.

(** ** main: the arguments it refuses *)

Lemma bind_ret_r {A} (m : result A) : (do x <- m; Ok x) = m.
Proof. by destruct m. Qed.

(** One more call after the calls [cs]. *)
Lemma runAdd_last cs c t b :
  pageOf t b ->
  room (Z.of_nat (length ((cs ++ [c]) ≫= entryBytes))) (rec b) ->
  runAdds cs t = Ok (afterAdds cs t b) /\
  runAdd c (afterAdds cs t b) = Ok (afterAdds (cs ++ [c]) t b).
Proof.
  intros Hp Hroom. destruct (runAdds_spec (cs ++ [c]) t b Hp) as [H _].
  specialize (H Hroom). rewrite runAdds_app in H.
  destruct (runAdds_spec cs t b Hp) as [H' _].
  rewrite bind_app, length_app in Hroom.
  rewrite H' in * by (eapply room_le; [exact Hroom | lia]).
  split; [done |]. cbn [bind runAdds] in H. by rewrite bind_ret_r in H.
Qed.

Ltac eval_memcpy :=
  repeat
    match goal with
    | |- context [memcpy ?d ?o ?b] =>
        change (memcpy d o b) with (Ok (splice d (Z.to_nat o) b)); cbn [bind]
    end.

Ltac next_call :=
  rewrite ?bind_assoc;
  match goal with
  | |- (do _ <- ?m; _) = _ =>
      destruct m as [? |]; [| reflexivity]; cbn [bind]
  end.

(** [main] as a chain of its calls of [getInt] and of the add-methods. *)
Lemma forge_steps prog out bg w h vol isz tsz files alias :
  Z.rem (Z.of_nat (length files)) 3 = 0 ->
  createAliasFile vol bg = Ok alias ->
  forge (prog :: out :: bg :: w :: h :: vol :: isz :: tsz :: files) =
    do t <- runAdds [AddBlob "." "BKGD" (pctB (Z.of_nat (length alias)));
                     AddBool "." "ICVO" 1] (newTree newBuddy);
    do H <- getInt h;
    do W <- getInt w;
    do t <- runAdd (AddBlob "." "fwi0" (finderWindow W H)) t;
    do S <- getInt isz;
    do t <- runAdd (AddBlob "." "icvo" (iconView S)) t;
    do T <- getInt tsz;
    do t <- runAdds [AddShort "." "icvt" T; AddBlob "." "pict" alias] t;
    do t <- fileLoop files t;
    do '(id, t') <- finish t;
    do a <- createMetaDataBlock id (buddy t');
    Ok (out, a).
Proof.
  intros Hrem Halias. unfold forge.
  replace (Z.of_nat (length (prog :: out :: bg :: w :: h :: vol :: isz :: tsz
                               :: files)))
    with (8 + Z.of_nat (length files)) by (cbn [length]; lia).
  replace (8 + Z.of_nat (length files) - 8) with (Z.of_nat (length files)) by lia.
  rewrite Hrem. destruct (Z.ltb_spec (8 + Z.of_nat (length files)) 8); [lia |].
  cbn [orb negb Z.eqb]. cbv zeta. rewrite Halias. cbn [bind].
  rewrite newBTree_ok by (vm_compute; (lia || discriminate || reflexivity)).
  cbn [bind runAdds runAdd].
  eval_memcpy.
  match goal with
  | |- context [addBlob "." "BKGD" ?b] =>
      change b with (pctB (Z.of_nat (length alias)))
  end.
  next_call. next_call. next_call. eval_memcpy. next_call. eval_memcpy.
  match goal with
  | |- context [addBlob "." "fwi0" ?b] =>
      match goal with
      | |- context [finderWindow ?x ?y] => change b with (finderWindow x y)
      end
  end.
  next_call. next_call. eval_memcpy.
  match goal with
  | |- context [addBlob "." "icvo" ?b] =>
      match goal with
      | |- context [iconView ?x] => change b with (iconView x)
      end
  end.
  next_call. next_call. next_call. next_call. reflexivity.
Qed.

Lemma getInt_fail f e : getInt f = Fail e -> e = Exit 1.
Proof.
  unfold getInt. destruct (strtol10 (cstr f)) as [x [| c endPtr]]; [done |].
  by intros [= <-].
Qed.

(** X25: [main] ends with the status 1 when it is given fewer than seven
    arguments, or file arguments that do not come in threes, and when one
    of the numbers for the width and the height of the background, the
    icon size and the text size is not an integer for [getInt]: the alias
    record and the first entries are built by then, and they always fit. *)
Theorem main_exit_status (prog out bg w h vol isz tsz : string)
    (files : list string) (disk : FileSystem) :
  strlen vol <= 27 -> strlen bg <= 63 ->
  Z.rem (Z.of_nat (length files)) 3 <> 0 \/
  getInt w = Fail (Exit 1) \/ getInt h = Fail (Exit 1) \/
  getInt isz = Fail (Exit 1) \/ getInt tsz = Fail (Exit 1) ->
  main (prog :: out :: bg :: w :: h :: vol :: isz :: tsz :: files) disk
    = Fail (Exit 1) /\
  forall argv, (length argv < 8)%nat -> main argv disk = Fail (Exit 1).
Proof.
  intros Hvol Hbg Hbad. split; cycle 1.
  { intros argv Hlen. unfold main, forge.
    destruct (Z.ltb_spec (Z.of_nat (length argv)) 8); [done | lia]. }
  unfold main.
  destruct (Z.eq_dec (Z.rem (Z.of_nat (length files)) 3) 0) as [Hrem | Hrem].
  2:{ unfold forge.
      replace (Z.of_nat (length (prog :: out :: bg :: w :: h :: vol :: isz :: tsz
                                   :: files)))
        with (8 + Z.of_nat (length files)) by (cbn [length]; lia).
      replace (8 + Z.of_nat (length files) - 8) with (Z.of_nat (length files))
        by lia.
      destruct (Z.eqb_spec (Z.rem (Z.of_nat (length files)) 3) 0); [done |].
      by rewrite orb_true_r. }
  destruct Hbad as [Hbad | Hbad]; [done |].
  destruct (createAliasFile_ok vol bg Hvol Hbg) as (alias & Halias & _).
  rewrite (forge_steps _ _ _ _ _ _ _ _ _ _ Hrem Halias).
  assert (Hp0 : pageOf (newTree newBuddy) (newPage newBuddy))
    by (apply pageOf_newTree; [simpl; lia | by vm_compute]).
  set (c1 := AddBlob "." "BKGD" (pctB (Z.of_nat (length alias)))).
  set (c2 := AddBool "." "ICVO" 1).
  destruct (runAdds_spec [c1; c2] _ _ Hp0) as [H12 _].
  rewrite H12 by (apply room_newPage; cmp). cbn [bind].
  destruct (getInt h) as [H | e] eqn:Eh;
    [| by rewrite (getInt_fail _ _ Eh)]. cbn [bind].
  destruct (getInt w) as [W | e] eqn:Ew;
    [| by rewrite (getInt_fail _ _ Ew)]. cbn [bind].
  set (c3 := AddBlob "." "fwi0" (finderWindow W H)).
  destruct (runAdd_last [c1; c2] c3 _ _ Hp0) as [_ H3];
    [apply room_newPage; cmp |].
  rewrite H3. cbn [bind app].
  destruct (getInt isz) as [S | e] eqn:Es;
    [| by rewrite (getInt_fail _ _ Es)]. cbn [bind].
  set (c4 := AddBlob "." "icvo" (iconView S)).
  destruct (runAdd_last [c1; c2; c3] c4 _ _ Hp0) as [_ H4];
    [apply room_newPage; cmp |].
  rewrite H4. cbn [bind app].
  destruct (getInt tsz) as [T | e] eqn:Et;
    [| by rewrite (getInt_fail _ _ Et)].
  exfalso. clear - Hbad Eh Ew Es Et.
  destruct Hbad as [? | [? | [? | ?]]]; congruence.
Qed.

Lemma main_exit_status_witness :
  let disk := mkFS (fun _ => None) (fun _ => Some 0%nat) (fun _ => []) in
  main ["forge_ds_store"; "DS_Store"; "bg.png"; "600px"; "400"; "Vol"; "128";
        "16"; "icon.png"; "100"; "100"] disk = Fail (Exit 1) /\
  forall argv, (length argv < 8)%nat -> main argv disk = Fail (Exit 1).
Proof.
  intros disk.
  apply (main_exit_status "forge_ds_store" "DS_Store" "bg.png" "600px" "400"
           "Vol" "128" "16" ["icon.png"; "100"; "100"] disk).
  - by vm_compute.
  - by vm_compute.
  - right. left. reflexivity.
Defined.

(** ** BTree: calls after finish() *)

(** An entry with a record type of four characters takes 13 bytes at
    least. *)
Lemma length_entryBytes_wf c :
  wfAdd c -> 13 <= Z.of_nat (length (entryBytes c)).
Proof.
  pose proof (fun f => strlen_nonneg f) as Hnn.
  destruct c as [f ty bytes | f ty v | f ty v]; cbn [wfAdd entryBytes].
  - intros (Hf & Hty & _ & _). rewrite !length_app, !Nat2Z.inj_add.
    rewrite length_nameBytes by done.
    rewrite strBytes_cstr by lia. fold (strlen ty).
    rewrite length_be32. specialize (Hnn f). simpl. lia.
  - intros (Hf & Hty). rewrite !length_app, !Nat2Z.inj_add.
    rewrite length_nameBytes by done.
    rewrite strBytes_cstr by lia. fold (strlen ty).
    specialize (Hnn f). simpl. lia.
  - intros (Hf & Hty). rewrite !length_app, !Nat2Z.inj_add.
    rewrite length_nameBytes by done.
    rewrite strBytes_cstr by lia. fold (strlen ty).
    rewrite length_be32. specialize (Hnn f). simpl. lia.
Qed.
(** C6 (as amended): on a tree constructed on any allocator, the entry
    count field of the page, at offset 4, is written as zero; after any
    sequence of calls of [addBlob], [addBool] and [addShort] that
    completes, [finish()] succeeds and patches that field with the number
    of the calls made.  There is no check of the state: an add-method
    called after [finish()] writes to the master block, which is then the
    current page and has 12 of its 32 bytes left after the master record.
    An entry of 12 bytes at most is written there and counted; a longer
    one, and so every entry with a record type of four characters, is
    written over the end of the block (undefined behaviour). *)
Theorem finish_patches_entry_count (a : BuddyAllocator) (cs : list add) (t : BTree) :
  (1 <= length (blocks a))%nat ->
  Z.of_nat (length (blocks a)) < 2 ^ 32 - 2 ->
  (do t0 <- newBTree a; runAdds cs t0) = Ok t ->
  exists t0 leaf0 master t' leaf m,
    newBTree a = Ok t0 /\
    getBlock (curPageId t0) (buddy t0) = Ok leaf0 /\
    get32 (data (rec leaf0)) 4 = Some 0 /\
    finish t = Ok (master, t') /\
    getBlock (curPageId t0) (buddy t') = Ok leaf /\
    get32 (data (rec leaf)) 4 = Some (Z.of_nat (length cs)) /\
    curPageId t' = master /\
    getBlock master (buddy t') = Ok m /\
    curOffset (rec m) = 20 /\
    length (data (rec m)) = 32%nat /\
    forall c,
      (Z.of_nat (length (entryBytes c)) <= 12 ->
         runAdd c t' = Ok (withPage t' m (put (entryBytes c) (rec m)))) /\
      (12 < Z.of_nat (length (entryBytes c)) ->
         runAdd c t' = Fail Undefined) /\
      (wfAdd c -> runAdd c t' = Fail Undefined).
Proof.
  intros H1 H2 H. rewrite newBTree_ok in H by lia. cbn [bind] in H.
  destruct (runAdds_newTree a cs t H1 ltac:(lia) H) as (Hroom & -> & Hn & Hcount).
  pose proof (pageOf_newTree a H1 ltac:(lia)) as Hp0.
  pose proof (pageOf_afterAdds cs _ _ Hp0 Hroom) as Hp.
  set (T := afterAdds cs (newTree a) (newPage a)) in *.
  set (b := mkBlock (put (cs ≫= entryBytes) (rec (newPage a))) (addr (newPage a)))
    in *.
  assert (HlenB : length (blocks (buddy T)) = S (length (blocks a))).
  { unfold T, afterAdds, newTree. cbn [buddy blocks].
    rewrite length_insert, length_app. simpl. lia. }
  assert (Hcur : curPageId T = curPageId (newTree a)) by done.
  destruct (afterFinish_blocks T b Hp ltac:(lia)) as (Hleaf & Hmaster & Hpm).
  eexists (newTree a), (newPage a), _, (afterFinish T b), _, _.
  split; [apply newBTree_ok; lia |].
  split.
  { destruct Hp0 as (Hid & Hb & _). rewrite getBlock_at by done.
    unfold at_. unfold pageIdx in Hb. by rewrite Hb. }
  split.
  { apply (get32_be32 _ 4 0 (replicate 2040 0)); [lia |].
    unfold newPage. cbn [rec]. by rewrite data_put_newRec. }
  split.
  { apply finish_ok; [exact Hp | | lia].
    unfold b. cbn [rec]. rewrite length_data_put, length_data_newPage by done.
    lia. }
  split; [rewrite <- Hcur; exact Hleaf |].
  split.
  { cbn [rec]. rewrite Hcount. unfold b. cbn [rec].
    rewrite (leaf_data a cs _ Hroom).
    rewrite (get32_leaf_count _ _ _ eq_refl). by rewrite u32_small by lia. }
  split; [done |]. split; [exact Hmaster |]. split; [done |].
  assert (Hlm : length (data (put (masterBytes (curPageId T) (entryCount T))
                                  (newRec 32))) = 32%nat).
  { rewrite length_data_put by (by apply room_newRec).
    unfold newRec. cbn [data]. by rewrite length_replicate. }
  split; [exact Hlm |].
  assert (Hlong : forall c, 12 < Z.of_nat (length (entryBytes c)) ->
            runAdd c (afterFinish T b) = Fail Undefined).
  { intros c Hc. destruct (runAdd c (afterFinish T b)) as [t2 | e] eqn:E.
    - destruct Hpm as (Hid & Hb & Hr & Hcnt).
      pose proof (runAdd_inv _ _ _ _ Hid Hb Hr E) as (_ & Hroom' & _).
      cbn [rec] in Hroom'. rewrite Hlm in Hroom'.
      unfold newRec in Hroom'. cbn [data put curOffset] in Hroom'.
      change (Z.of_nat (length (masterBytes (curPageId T) (entryCount T))))
        with 20 in Hroom'. lia.
    - by rewrite (runAdd_fail _ _ _ _ Hpm E). }
  intros c. split; [| split; [by apply Hlong |]].
  - intros Hc. destruct Hpm as (Hid & Hb & Hr & Hcnt).
    apply runAdd_ok; try done.
    cbn [rec]. unfold room. rewrite Hlm.
    unfold newRec. cbn [data put curOffset].
    change (Z.of_nat (length (masterBytes _ _))) with 20. lia.
  - intros Hwf. apply Hlong. pose proof (length_entryBytes_wf c Hwf). lia.
Qed.

Lemma finish_patches_entry_count_witness :
  let a := newBuddy in
  let cs := [AddBlob "." "BKGD" [1; 2; 3]; AddBool "." "ICVO" 1;
             AddShort "." "icvt" 16] in
  let t := match (do t0 <- newBTree a; runAdds cs t0) with
           | Ok t => t
           | Fail _ => mkBTree a 0 0
           end in
  exists t0 leaf0 master t' leaf m,
    newBTree a = Ok t0 /\
    getBlock (curPageId t0) (buddy t0) = Ok leaf0 /\
    get32 (data (rec leaf0)) 4 = Some 0 /\
    finish t = Ok (master, t') /\
    getBlock (curPageId t0) (buddy t') = Ok leaf /\
    get32 (data (rec leaf)) 4 = Some (Z.of_nat (length cs)) /\
    curPageId t' = master /\
    getBlock master (buddy t') = Ok m /\
    curOffset (rec m) = 20 /\
    length (data (rec m)) = 32%nat /\
    forall c,
      (Z.of_nat (length (entryBytes c)) <= 12 ->
         runAdd c t' = Ok (withPage t' m (put (entryBytes c) (rec m)))) /\
      (12 < Z.of_nat (length (entryBytes c)) ->
         runAdd c t' = Fail Undefined) /\
      (wfAdd c -> runAdd c t' = Fail Undefined).
Proof.
  apply (finish_patches_entry_count newBuddy).
  - simpl. lia.
  - simpl. lia.
  - vm_compute. reflexivity.
Defined.

(** C6 fails as stated: on a tree with no entries, constructed on a new
    allocator, [addBool("", "", 1)] called after [finish()] does not
    fail; it counts an entry and changes the master block. *)
Lemma add_after_finish_not_rejected :
  exists t0 master t1 t2,
    newBTree newBuddy = Ok t0 /\
    finish t0 = Ok (master, t1) /\
    addBool "" "" 1 t1 = Ok t2 /\
    entryCount t1 = 0 /\ entryCount t2 = 1 /\
    getBlock master (buddy t2) <> getBlock master (buddy t1).
Proof.
  eexists _, _, _, _. split; [vm_compute; reflexivity |].
  split; [vm_compute; reflexivity |]. split; [vm_compute; reflexivity |].
  split; [reflexivity |]. split; [reflexivity |]. vm_compute. discriminate.
Qed.

(** ** The file as a whole *)

(** C7: on an allocator whose header and metadata blocks are as the
    constructor made them, and whose other blocks are such that
    [createMetaDataBlock] completes (sizes from 1 byte on, addresses that
    are multiples of 32), [writeFile] adds to the stream the word 1, as 4
    big-endian bytes, and then the bytes of every block in the order of
    the allocations; and the first block, the header of 32 bytes, holds
    the tag [Bud1], the address of the metadata block, its size and its
    address again, as 32-bit big-endian words: 32, 2048 and 32. *)
Theorem serialized_output (id : Z) (a : BuddyAllocator) (rest : list Block)
    (f : list Z) :
  blocks a = newBlock 0 32 :: newBlock 32 2048 :: rest ->
  Forall slotOk rest -> 0 <= curAddr a < 2 ^ 32 ->
  exists a' h m,
    createMetaDataBlock id a = Ok a' /\
    blocks a' = h :: m :: rest /\
    writeFile a' f = f ++ be32 1 ++ allBytes (blocks a') /\
    allBytes (blocks a') = data (rec h) ++ data (rec m) ++ allBytes rest /\
    length (data (rec h)) = 32%nat /\
    getBytes (data (rec h)) 0 4 = Some (cstr "Bud1") /\
    get32 (data (rec h)) 4 = Some (getAddr m) /\
    get32 (data (rec h)) 8 = Some (size m) /\
    get32 (data (rec h)) 12 = Some (getAddr m) /\
    getAddr m = 32 /\ size m = 2048.
Proof.
  intros Hbs Hrest Hcur. eexists _, _, _.
  split; [by apply createMetaDataBlock_new |]. cbn [blocks].
  split; [reflexivity |].
  split; [apply writeFile_bytes |].
  split; [unfold allBytes; by rewrite !bind_cons |].
  assert (Hm : size (mkBlock (put (metaBytes id (newBlock 32 2048 :: rest)
                                     (curAddr a)) (newRec 2048)) 32) = 2048).
  { unfold size. cbn [rec]. by rewrite length_meta_forged. }
  rewrite Hm. cbn [rec getAddr addr]. rewrite data_put_newRec.
  repeat split; by vm_compute.
Qed.

Lemma serialized_output_witness :
  exists a' h m,
    createMetaDataBlock 1 (allocateAll [100] newBuddy).2 = Ok a' /\
    blocks a' = h :: m :: [newBlock 2080 128] /\
    writeFile a' [7] = [7] ++ be32 1 ++ allBytes (blocks a') /\
    allBytes (blocks a') =
      data (rec h) ++ data (rec m) ++ allBytes [newBlock 2080 128] /\
    length (data (rec h)) = 32%nat /\
    getBytes (data (rec h)) 0 4 = Some (cstr "Bud1") /\
    get32 (data (rec h)) 4 = Some (getAddr m) /\
    get32 (data (rec h)) 8 = Some (size m) /\
    get32 (data (rec h)) 12 = Some (getAddr m) /\
    getAddr m = 32 /\ size m = 2048.
Proof.
  apply (serialized_output 1 (allocateAll [100] newBuddy).2
           [newBlock 2080 128] [7]).
  - reflexivity.
  - repeat constructor; by vm_compute.
  - by vm_compute.
Defined.

(** ** main: the example of the specification *)

Lemma length_entryBytes_blob f ty bytes :
  length (entryBytes (AddBlob f ty bytes)) =
    (length (nameBytes f) + length (strBytes ty) + 8 + length bytes)%nat.
Proof.
  unfold entryBytes. rewrite !length_app, length_fmap, length_be32.
  change (length (cstr "blob")) with 4%nat. lia.
Qed.

(** C1: called for the volume [Vol], a background of 600 by 400, the icon
    size 128, the text size 16 and the one file [icon.png] at (100, 100),
    with any background image whose name fits the alias record, [main]
    gets to the end of [createMetaDataBlock] with a page, block 1, of
    exactly 7 entries, which are read back in the order of the calls:
    [BKGD] (blob), [ICVO] (bool 1), [fwi0] (blob; top, left, bottom and
    right 200, 300, 600 and 900), [icvo] (blob; icon size 128), [icvt]
    (short 16), [pict] (blob, the alias record) and [Iloc] (blob; centre
    100, 100); and the master block, block 2, records the depth 0, the
    entry count 7 and the node count 1. *)
Theorem forge_example (prog out bg : string) :
  strlen bg <= 63 ->
  exists a alias leaf master bkgd fwi0 icvo iloc,
    forge [prog; out; bg; "600"; "400"; "Vol"; "128"; "16";
           "icon.png"; "100"; "100"] = Ok (out, a) /\
    createAliasFile "Vol" bg = Ok alias /\
    getBlock 1 a = Ok leaf /\ getBlock 2 a = Ok master /\
    get32 (data (rec leaf)) 4 = Some 7 /\
    readLeaf (data (rec leaf)) =
      Some [mkEntry (codeUnits ".") (cstr "BKGD") (Blob bkgd);
            mkEntry (codeUnits ".") (cstr "ICVO") (Bool 1);
            mkEntry (codeUnits ".") (cstr "fwi0") (Blob fwi0);
            mkEntry (codeUnits ".") (cstr "icvo") (Blob icvo);
            mkEntry (codeUnits ".") (cstr "icvt") (Short 16);
            mkEntry (codeUnits ".") (cstr "pict") (Blob alias);
            mkEntry (codeUnits "icon.png") (cstr "Iloc") (Blob iloc)] /\
    get16 fwi0 0 = Some 200 /\ get16 fwi0 2 = Some 300 /\
    get16 fwi0 4 = Some 600 /\ get16 fwi0 6 = Some 900 /\
    get16 icvo 4 = Some 128 /\
    get32 iloc 0 = Some 100 /\ get32 iloc 4 = Some 100 /\
    get32 (data (rec master)) 4 = Some 0 /\
    get32 (data (rec master)) 8 = Some 7 /\
    get32 (data (rec master)) 12 = Some 1.
Proof.
  intros Hbg.
  destruct (createAliasFile_ok "Vol" bg ltac:(by vm_compute) Hbg)
    as (alias & Halias & Hlen & Hbytes & _).
  assert (Hpad : 0 <= paddedLen "Vol" bg <= 68).
  { pose proof (strlen_nonneg bg).
    change (strlen "Vol") with 3 in *.
    destruct (paddedLen_cases "Vol" bg) as [[-> _] | [-> _]]; unfold pathLen;
      change (strlen "Vol") with 3; lia. }
  set (fs := [AddBlob "icon.png" "Iloc" (iloc 100 100)]).
  remember (fixedAdds alias 600 400 128 16 ++ fs) as cs eqn:Ecs.
  assert (Hn : length cs = 7%nat) by (by rewrite Ecs).
  assert (Hfit : Z.of_nat (length (cs ≫= entryBytes)) <= 2040).
  { rewrite Ecs. unfold fixedAdds, fs. cbn [app].
    rewrite !bind_cons. change (@nil add ≫= entryBytes) with (@nil Z).
    rewrite !length_app, !length_entryBytes_blob.
    change (length (pctB _)) with 12%nat.
    change (length (finderWindow 600 400)) with 16%nat.
    change (length (iconView 128)) with 26%nat.
    change (length (iloc 100 100)) with 16%nat.
    change (length (entryBytes (AddBool "." "ICVO" 1))) with 15%nat.
    change (length (entryBytes (AddShort "." "icvt" 16))) with 18%nat.
    change (length (nameBytes ".")) with 6%nat.
    change (length (nameBytes "icon.png")) with 20%nat.
    change (length (strBytes "BKGD")) with 4%nat.
    change (length (strBytes "fwi0")) with 4%nat.
    change (length (strBytes "icvo")) with 4%nat.
    change (length (strBytes "pict")) with 4%nat.
    change (length (strBytes "Iloc")) with 4%nat.
    cbn [length]. lia. }
  assert (Hwf : Forall wfAdd cs).
  { rewrite Ecs. apply Forall_app_2; [apply wfAdd_fixedAdds; [done | lia] |].
    apply (wfAdd_fileAdds ["icon.png"; "100"; "100"]); [reflexivity |].
    repeat constructor; by vm_compute. }
  destruct (forged_leaf _ Hwf Hfit) as [_ Hleaf].
  assert (Hroom : room (Z.of_nat (length (cs ≫= entryBytes)))
                       (rec (newPage newBuddy)))
    by (apply room_newPage; lia).
  exists (forged cs), alias, (leafBlock cs), (masterBlock (Z.of_nat (length cs))).
  exists (pctB (Z.of_nat (length alias))), (finderWindow 600 400),
    (iconView 128), (iloc 100 100).
  split.
  { rewrite Ecs.
    by apply (forge_ok prog out bg "600" "400" "Vol" "128" "16"
                ["icon.png"; "100"; "100"] 600 400 128 16 alias fs);
      [| | | | | | | rewrite <- Ecs]. }
  split; [exact Halias |]. split; [reflexivity |]. split; [reflexivity |].
  split.
  { unfold leafBlock. cbn [rec]. rewrite (leaf_data newBuddy cs _ Hroom).
    rewrite (get32_leaf_count _ _ _ eq_refl), Hn. reflexivity. }
  split; [rewrite Hleaf, Ecs; reflexivity |].
  rewrite Hn. repeat split; by vm_compute.
Qed.

Lemma forge_example_witness :
  exists a alias leaf master bkgd fwi0 icvo iloc,
    forge ["forge_ds_store"; "DS_Store"; "bg.png"; "600"; "400"; "Vol"; "128";
           "16"; "icon.png"; "100"; "100"] = Ok ("DS_Store", a) /\
    createAliasFile "Vol" "bg.png" = Ok alias /\
    getBlock 1 a = Ok leaf /\ getBlock 2 a = Ok master /\
    get32 (data (rec leaf)) 4 = Some 7 /\
    readLeaf (data (rec leaf)) =
      Some [mkEntry (codeUnits ".") (cstr "BKGD") (Blob bkgd);
            mkEntry (codeUnits ".") (cstr "ICVO") (Bool 1);
            mkEntry (codeUnits ".") (cstr "fwi0") (Blob fwi0);
            mkEntry (codeUnits ".") (cstr "icvo") (Blob icvo);
            mkEntry (codeUnits ".") (cstr "icvt") (Short 16);
            mkEntry (codeUnits ".") (cstr "pict") (Blob alias);
            mkEntry (codeUnits "icon.png") (cstr "Iloc") (Blob iloc)] /\
    get16 fwi0 0 = Some 200 /\ get16 fwi0 2 = Some 300 /\
    get16 fwi0 4 = Some 600 /\ get16 fwi0 6 = Some 900 /\
    get16 icvo 4 = Some 128 /\
    get32 iloc 0 = Some 100 /\ get32 iloc 4 = Some 100 /\
    get32 (data (rec master)) 4 = Some 0 /\
    get32 (data (rec master)) 8 = Some 7 /\
    get32 (data (rec master)) 12 = Some 1.
Proof.
  apply (forge_example "forge_ds_store" "DS_Store" "bg.png"). by vm_compute.
Defined.
